(** * astrbot_plugin_webhook_push: ingestion, durable queue, batch scheduler
      and dispatch-with-fallback of [main.py], as a shallow embedding.

    The plugin's [Main] class is orchestration code: every method threads the
    in-memory [message_queue], the persisted KV entry and a number of calls to
    collaborators (the media and game processors, the HTML renderer, the bot
    platform).  The embedding keeps that shape:

    - Python values are the inductive [pyval]; a record of the queue is a
      Python [dict], kept as an insertion-ordered association list;
    - the collaborators are the fields of [Externals], transition functions
      over an abstract world [W], so that any behaviour of theirs (a result, a
      falsy result, a raised exception) can be supplied;
    - a method is a computation in the monad [M]: it reads and writes the
      plugin [State], returns a value or a raised exception, and emits the
      [event]s (log lines, KV writes, collaborator calls, sends) it performs.

    asyncio runs a coroutine without interruption between two suspending
    awaits; the atomic segments of the queue's two writers are the steps of
    [run_schedule].

    The later parts embed the pure cores of the collaborators themselves:
    the game handler, the card renderer, the browser manager and the two
    enrichment providers. *)

From Stdlib Require Import String Ascii List ZArith Bool Lia Floats.
From Stdlib Require Import Strings.Byte.
Import ListNotations.
Open Scope string_scope.

(** ** Python values *)

#[warnings="-register-all"]
Inductive pyval : Type :=
| PNone
| PBool (b : bool)
| PInt (z : Z)
| PFloat (f : float)
| PStr (s : string)
| PList (l : list pyval)
| PDict (d : list (string * pyval)).

(** A [dict] with string keys; Python dicts iterate in insertion order. *)
Definition pydict := list (string * pyval).

Inductive exn : Type :=
| KeyError (key : string)
| Raised (what : string).

Fixpoint dict_get (d : pydict) (k : string) : option pyval :=
  match d with
  | [] => None
  | (k', v) :: d' => if String.eqb k' k then Some v else dict_get d' k
  end.

(** [d.get(k, default)] *)
Definition dict_get_default (d : pydict) (k : string) (default : pyval) : pyval :=
  match dict_get d k with Some v => v | None => default end.

(** [k in d] *)
Definition dict_has (d : pydict) (k : string) : bool :=
  match dict_get d k with Some _ => true | None => false end.

(** [d[k] = v]: an existing key keeps its position, a new key goes last. *)
Fixpoint dict_set (d : pydict) (k : string) (v : pyval) : pydict :=
  match d with
  | [] => [(k, v)]
  | (k', v') :: d' =>
      if String.eqb k' k then (k', v) :: d' else (k', v') :: dict_set d' k v
  end.

(** Truth value of a Python object. *)
Definition py_truthy (v : pyval) : bool :=
  match v with
  | PNone => false
  | PBool b => b
  | PInt z => negb (Z.eqb z 0)
  | PFloat f => negb (PrimFloat.eqb f 0%float)
  | PStr s => negb (String.eqb s "")
  | PList l => match l with [] => false | _ => true end
  | PDict d => match d with [] => false | _ => true end
  end.

(** [a or b] *)
Definition py_or (a b : pyval) : pyval := if py_truthy a then a else b.

(** [v == "s"] for a string literal [s]. *)
Definition py_eq_str (v : pyval) (s : string) : bool :=
  match v with PStr t => String.eqb t s | _ => false end.

(** Truth value of an optional dict returned by a collaborator
    ([None] or [{}] are falsy). *)
Definition dict_truthy (r : option pydict) : bool :=
  match r with Some (_ :: _) => true | _ => false end.

(** Truth value of the renderer's result ([None] or [b""] are falsy). *)
Definition bytes_truthy (r : option (list byte)) : bool :=
  match r with Some (_ :: _) => true | _ => false end.

(** ** Strings *)

Definition ascii_lower (c : ascii) : ascii :=
  let n := nat_of_ascii c in
  if andb (Nat.leb 65 n) (Nat.leb n 90) then ascii_of_nat (n + 32) else c.

(** [s.lower()] on the ASCII letters. *)
Fixpoint lower (s : string) : string :=
  match s with
  | EmptyString => EmptyString
  | String c s' => String (ascii_lower c) (lower s')
  end.

(** [p in s] for two strings. *)
Fixpoint str_contains (p s : string) : bool :=
  if String.prefix p s then true
  else match s with
       | EmptyString => false
       | String _ s' => str_contains p s'
       end.

(** [s.replace(":", "_")] *)
Fixpoint replace_colon (s : string) : string :=
  match s with
  | EmptyString => EmptyString
  | String c s' =>
      String (if Ascii.eqb c ":"%char then "_"%char else c) (replace_colon s')
  end.

(** ** HTTP requests and responses (aiohttp) *)

Record Request : Type := mkRequest {
  headers : list (string * string);
  text : exn + string;          (* [await request.text()] *)
  path : string;
  remote : string
}.

Record Response : Type := mkResponse {
  resp_text : string;
  status : Z
}.

(** [request.headers.get(name)]: header names compare without case. *)
Fixpoint headers_get (h : list (string * string)) (name : string) : option string :=
  match h with
  | [] => None
  | (k, v) :: h' =>
      if String.eqb (lower k) (lower name) then Some v else headers_get h' name
  end.

(** [dict(request.headers)]: [dict] reads the names in order and looks each
    one up, and a lookup gives the first value under that name, compared
    without case.  A name that comes twice has one entry, with the first of
    its values. *)
Definition headers_dict (h : list (string * string)) : pydict :=
  fold_left
    (fun d kv =>
       dict_set d (fst kv)
         (PStr (match headers_get h (fst kv) with
                | Some first => first
                | None => snd kv
                end)))
    h [].

(** ** Configuration read in [Main.__init__] *)

Record Config : Type := mkConfig {
  group_id : string;
  platform_name : string;
  batch_min_size : nat;
  batch_interval_seconds : Z;
  sender_id : string;
  sender_name : string;
  webhook_token : string;
  media_template : string;
  game_template : string;
  common_template : string
}.

(** ** The bot platform as the plugin sees it *)

Record Platform : Type := mkPlatform {
  meta_id : string;              (* [inst.meta().id] *)
  get_client : option string     (* [inst.get_client()], a handle or [None] *)
}.

(** ** Collaborators

    Everything [main.py] calls outside itself.  A call takes the world and
    returns its answer with the next world; [inl e] is a raised exception. *)

Record Externals (W : Type) : Type := mkExternals {
  uuid4_prefix : W -> string * W;             (* [str(uuid.uuid4())[:8]] *)
  time_time : W -> float * W;
  json_loads : string -> exn + pyval;
  process_common_webhook :
    string -> pydict -> W -> (exn + option pydict) * W;
  detect_and_process_raw_data :
    pydict -> W -> (exn + option pydict) * W;
  process_game_webhook :
    pyval -> pyval -> W -> (exn + option pydict) * W;
  put_kv_data : list pydict -> W -> option exn * W;
  get_kv_data : W -> option exn * W;
  browser_init : W -> option exn * W;
  start_webhook_server : W -> option exn * W;
  render :
    pyval -> pyval -> pyval -> pydict -> W -> (exn + option (list byte)) * W;
  format_time : pyval -> option string;
    (* [datetime.fromtimestamp(float(ts)).strftime("%m/%d %H:%M")], [None]
       when it raises *)
  b64encode : list byte -> string;
  platform_insts : W -> list Platform;
  get_platform_inst : string -> W -> option Platform;
  create_adapter : string -> W -> (exn + string) * W;
  send_forward_messages :
    string -> string -> string -> list pydict -> string -> string ->
    W -> (exn + pyval) * W;
  send_message : string -> list byte -> W -> option exn * W
}.

Arguments uuid4_prefix {W}.
Arguments time_time {W}.
Arguments json_loads {W}.
Arguments process_common_webhook {W}.
Arguments detect_and_process_raw_data {W}.
Arguments process_game_webhook {W}.
Arguments put_kv_data {W}.
Arguments get_kv_data {W}.
Arguments browser_init {W}.
Arguments start_webhook_server {W}.
Arguments render {W}.
Arguments format_time {W}.
Arguments b64encode {W}.
Arguments platform_insts {W}.
Arguments get_platform_inst {W}.
Arguments create_adapter {W}.
Arguments send_forward_messages {W}.
Arguments send_message {W}.

(** ** Observable effects *)

(** One constructor per [logger] call site that the pipeline reaches. *)
Inductive logline : Type :=
| L_restored (n : nat)                       (* info: recovered n records *)
| L_selfcheck                                (* info *)
| L_init_ok                                  (* info *)
| L_init_failed (e : exn)                    (* error *)
| L_save_failed (e : exn)                    (* error *)
| L_unauthorized (trace remote : string)     (* warning *)
| L_received (trace route : string)          (* info *)
| L_webhook_error (trace : string) (e : exn) (* error *)
| L_media_start (trace : pyval)              (* debug *)
| L_game_start (trace : pyval)               (* debug *)
| L_batch_begin (n : nat)                    (* info *)
| L_rendering (trace : pyval)                (* info *)
| L_b64_ok (trace : pyval) (len : nat)       (* info *)
| L_nothing_rendered                         (* warning *)
| L_platform (name : string)                 (* info *)
| L_try_aiocqhttp (name : string)            (* info *)
| L_first_available (name id : string)       (* warning *)
| L_no_bot                                   (* error *)
| L_creating_adapter                         (* info *)
| L_adapter_created (name : string)          (* info *)
| L_send_result (r : pyval)                  (* info *)
| L_batch_failed (e : exn)                   (* error *)
| L_sent (trace : pyval)                     (* info *)
| L_single_failed (e : exn)                  (* error *)
| L_processor_error (e : exn).               (* error *)

Inductive event : Type :=
| Log (l : logline)
| KvPut (q : list pydict) (ok : bool)
| CallMedia (msg : pydict)
| CallGame (raw headers : pyval)
| CallCommon (body : string) (hdrs : pydict)
| Render (txt image template : pyval) (extra : pydict)
| SendMessage (origin : string) (img : list byte)
| SendForward (adapter bot group : string) (msgs : list pydict)
    (sid sname : string)
| Sleep (millis : Z).

(** ** Plugin state and the method monad *)

Section Plugin.

Variable W : Type.
Variable X : Externals W.
Variable cfg : Config.

(** [message_queue] is the list held by the process; [kv_store] is the value
    under the key ["persistent_msg_queue"] ([None]: the key was never
    written), which outlives the process. *)
Record State : Type := mkState {
  world : W;
  message_queue : list pydict;
  kv_store : option (list pydict);
  last_batch_time : float
}.

Record Result (A : Type) : Type := mkResult {
  res : exn + A;
  final : State;
  out : list event
}.

Arguments mkResult {A}.
Arguments res {A}.
Arguments final {A}.
Arguments out {A}.

Definition M (A : Type) : Type := State -> Result A.

Definition ret {A} (a : A) : M A := fun s => mkResult (inr a) s [].

Definition raise {A} (e : exn) : M A := fun s => mkResult (inl e) s [].

Definition bind {A B} (m : M A) (k : A -> M B) : M B :=
  fun s =>
    let r := m s in
    match res r with
    | inl e => mkResult (inl e) (final r) (out r)
    | inr a =>
        let r' := k a (final r) in
        mkResult (res r') (final r') (out r ++ out r')
    end.

(** [try: m  except Exception as e: h e] *)
Definition try_except {A} (m : M A) (h : exn -> M A) : M A :=
  fun s =>
    let r := m s in
    match res r with
    | inl e =>
        let r' := h e (final r) in
        mkResult (res r') (final r') (out r ++ out r')
    | inr a => r
    end.

Notation "x <- m ;; k" := (bind m (fun x => k))
  (at level 61, m at next level, right associativity).
Notation "m ;;; k" := (bind m (fun _ => k))
  (at level 61, right associativity).

Definition emit (e : event) : M unit := fun s => mkResult (inr tt) s [e].

Definition logger (l : logline) : M unit := emit (Log l).

(** A collaborator call that answers with a value or raises. *)
Definition call {A} (f : W -> (exn + A) * W) : M A :=
  fun s =>
    let '(a, w) := f (world s) in
    mkResult a (mkState w (message_queue s) (kv_store s) (last_batch_time s)) [].

(** A collaborator call that returns nothing or raises. *)
Definition call_unit (f : W -> option exn * W) : M unit :=
  call (fun w => let '(e, w') := f w in
                 (match e with Some e => inl e | None => inr tt end, w')).

(** A collaborator call that cannot raise. *)
Definition ask {A} (f : W -> A * W) : M A :=
  call (fun w => let '(a, w') := f w in (inr a, w')).

Definition get_queue : M (list pydict) :=
  fun s => mkResult (inr (message_queue s)) s [].

Definition set_queue (q : list pydict) : M unit :=
  fun s => mkResult (inr tt)
             (mkState (world s) q (kv_store s) (last_batch_time s)) [].

Definition set_last_batch_time (t : float) : M unit :=
  fun s => mkResult (inr tt)
             (mkState (world s) (message_queue s) (kv_store s) t) [].

(** [await self.put_kv_data("persistent_msg_queue", q)]: the store takes the
    value it is handed, or the write raises and the store keeps what it had. *)
Definition kv_put (q : list pydict) : M unit :=
  fun s =>
    let '(e, w) := put_kv_data X q (world s) in
    match e with
    | Some e =>
        mkResult (inl e)
          (mkState w (message_queue s) (kv_store s) (last_batch_time s))
          [KvPut q false]
    | None =>
        mkResult (inr tt)
          (mkState w (message_queue s) (Some q) (last_batch_time s))
          [KvPut q true]
    end.

(** [await self.get_kv_data("persistent_msg_queue", [])] *)
Definition kv_get : M (list pydict) :=
  call_unit (get_kv_data X) ;;;
  fun s => mkResult (inr (match kv_store s with Some q => q | None => [] end)) s [].

(** ** Persistent queue *)

(** [Main._save_queue] *)
Definition _save_queue : M unit :=
  try_except
    (q <- get_queue ;; kv_put q)
    (fun e => logger (L_save_failed e)).

(** [Main._enqueue] *)
Definition _enqueue (msg : pydict) : M unit :=
  q <- get_queue ;;
  set_queue (q ++ [msg]) ;;;
  _save_queue.

(** [Main.initialize] *)
Definition initialize : M unit :=
  try_except
    (saved_queue <- kv_get ;;
     (match saved_queue with
      | [] => ret tt
      | _ :: _ =>
          q <- get_queue ;;
          set_queue (q ++ saved_queue) ;;;
          logger (L_restored (length saved_queue))
      end) ;;;
     logger L_selfcheck ;;;
     call_unit (browser_init X) ;;;
     call_unit (start_webhook_server X) ;;;
     logger L_init_ok)
    (fun e => logger (L_init_failed e)).

(** The state of a process that has just run [Main.__init__]: an empty
    [message_queue]; the KV store is what the previous process left. *)
Definition fresh_process (w : W) (kv : option (list pydict)) (now : float) : State :=
  mkState w [] kv now.

(** ** Ingestion gateway *)

(** [Main._check_auth] *)
Definition _check_auth (request : Request) : bool :=
  if String.eqb (webhook_token cfg) "" then true
  else match headers_get (headers request) "X-Webhook-Token" with
       | Some token => String.eqb token (webhook_token cfg)
       | None => false
       end.

(** The text of the accepted response, [f"已加入队列 (ID: {trace_id})"]. *)
Definition queued_text (trace_id : string) : string :=
  "已加入队列 (ID: " ++ trace_id ++ ")".

Definition unauthorized : Response := mkResponse "Unauthorized" 401.
Definition internal_error : Response := mkResponse "Internal Error" 500.
Definition invalid_data : Response := mkResponse "无效数据" 400.

Definition lift_sum {A} (r : exn + A) : M A :=
  match r with inl e => raise e | inr a => ret a end.

(** [Main.handle_media_webhook] *)
Definition handle_media_webhook (request : Request) : M Response :=
  trace_id <- ask (uuid4_prefix X) ;;
  if negb (_check_auth request) then
    logger (L_unauthorized trace_id (remote request)) ;;;
    ret unauthorized
  else
    try_except
      (body_text <- lift_sum (text request) ;;
       let hdrs := headers_dict (headers request) in
       logger (L_received trace_id (path request)) ;;;
       now <- ask (time_time X) ;;
       let raw_payload :=
         [("raw_data", PStr body_text);
          ("headers", PDict hdrs);
          ("timestamp", PFloat now);
          ("message_type", PStr "raw_media");
          ("trace_id", PStr trace_id);
          ("template", PStr (media_template cfg))] in
       _enqueue raw_payload ;;;
       ret (mkResponse (queued_text trace_id) 200))
      (fun e =>
         logger (L_webhook_error trace_id e) ;;;
         ret internal_error).

(** [Main.handle_game_webhook] *)
Definition handle_game_webhook (request : Request) : M Response :=
  trace_id <- ask (uuid4_prefix X) ;;
  if negb (_check_auth request) then
    logger (L_unauthorized trace_id (remote request)) ;;;
    ret unauthorized
  else
    try_except
      (body_text <- lift_sum (text request) ;;
       let hdrs := headers_dict (headers request) in
       logger (L_received trace_id (path request)) ;;;
       payload <- lift_sum (json_loads X body_text) ;;
       now <- ask (time_time X) ;;
       let raw_payload :=
         [("raw_data", payload);
          ("headers", PDict hdrs);
          ("timestamp", PFloat now);
          ("message_type", PStr "raw_game");
          ("trace_id", PStr trace_id);
          ("template", PStr (game_template cfg))] in
       _enqueue raw_payload ;;;
       ret (mkResponse (queued_text trace_id) 200))
      (fun e =>
         logger (L_webhook_error trace_id e) ;;;
         ret internal_error).

(** [Main.handle_common_webhook] *)
Definition handle_common_webhook (request : Request) : M Response :=
  trace_id <- ask (uuid4_prefix X) ;;
  if negb (_check_auth request) then
    logger (L_unauthorized trace_id (remote request)) ;;;
    ret unauthorized
  else
    try_except
      (body_text <- lift_sum (text request) ;;
       let hdrs := headers_dict (headers request) in
       logger (L_received trace_id (path request)) ;;;
       emit (CallCommon body_text hdrs) ;;;
       result <- call (process_common_webhook X body_text hdrs) ;;
       match result with
       | Some r =>
           if dict_truthy result && dict_has r "message_text" then
             now <- ask (time_time X) ;;
             let r1 := dict_set r "timestamp" (PFloat now) in
             let r2 := dict_set r1 "trace_id" (PStr trace_id) in
             let r3 := dict_set r2 "template" (PStr (common_template cfg)) in
             _enqueue r3 ;;;
             ret (mkResponse (queued_text trace_id) 200)
           else ret invalid_data
       | None => ret invalid_data
       end)
      (fun e =>
         logger (L_webhook_error trace_id e) ;;;
         ret internal_error).

(** The three POST handlers, by route category. *)
Inductive category : Type := Media | Game | Common.

Definition handle_webhook (c : category) : Request -> M Response :=
  match c with
  | Media => handle_media_webhook
  | Game => handle_game_webhook
  | Common => handle_common_webhook
  end.

(** ** Delivery dispatcher *)

(** A read of the bot framework's state. *)
Definition read {A} (f : W -> A) : M A :=
  fun s => mkResult (inr (f (world s))) s [].

(** [Main.get_effective_platform_name] *)
Definition get_effective_platform_name : M string :=
  if String.eqb (platform_name cfg) "auto" then
    insts <- read (platform_insts X) ;;
    let available := map meta_id insts in
    match find (fun p => existsb (fun name => str_contains p (lower name)) available)
               ["llonebot"; "napcat"; "aiocqhttp"] with
    | Some p => ret p
    | None => ret (match available with a :: _ => a | [] => "llonebot" end)
    end
  else ret (platform_name cfg).

(** The keys of a message that are not passed on as render context. *)
Definition reserved_keys : list string :=
  ["message_text"; "poster_url"; "image_url"; "template"; "trace_id";
   "message_type"; "timestamp"].

Definition extra_render_context (msg : pydict) (formatted_time : string) : pydict :=
  dict_set
    (filter (fun kv => negb (existsb (String.eqb (fst kv)) reserved_keys)) msg)
    "formatted_time" (PStr formatted_time).

(** [msg.get("trace_id", "Unknown")] *)
Definition trace_of (msg : pydict) : pyval :=
  dict_get_default msg "trace_id" (PStr "Unknown").

(** Render context assembly and the call of [HtmlRenderer.render]; the two
    send paths carry the same statements for it.  [msg["message_text"]]
    raises [KeyError] on a message without that key. *)
Definition render_message (msg : pydict) : M (option (list byte)) :=
  now <- ask (time_time X) ;;
  let ts := dict_get_default msg "timestamp" (PFloat now) in
  let formatted :=
    match format_time X ts with Some s => s | None => "" end in
  let extra := extra_render_context msg formatted in
  match dict_get msg "message_text" with
  | None => raise (KeyError "message_text")
  | Some txt =>
      let image := py_or (dict_get_default msg "poster_url" PNone)
                         (dict_get_default msg "image_url" PNone) in
      let template := dict_get_default msg "template" (PStr "card_default.html") in
      emit (Render txt image template extra) ;;;
      call (render X txt image template extra)
  end.

(** The body of the [for] loop of [Main.send_individual_messages]. *)
Definition send_one (origin : string) (msg : pydict) : M unit :=
  let trace_id := trace_of msg in
  try_except
    (logger (L_rendering trace_id) ;;;
     img <- render_message msg ;;
     match img with
     | Some (b :: bs) =>
         emit (SendMessage origin (b :: bs)) ;;;
         call_unit (send_message X origin (b :: bs)) ;;;
         logger (L_sent trace_id) ;;;
         emit (Sleep 500)
     | _ => ret tt
     end)
    (fun e => logger (L_single_failed e)).

Fixpoint individual_loop (origin : string) (messages : list pydict) : M unit :=
  match messages with
  | [] => ret tt
  | msg :: rest => send_one origin msg ;;; individual_loop origin rest
  end.

(** [Main.send_individual_messages] *)
Definition send_individual_messages (messages : list pydict) : M unit :=
  let group := replace_colon (group_id cfg) in
  name <- get_effective_platform_name ;;
  let origin := name ++ ":GroupMessage:" ++ group in
  individual_loop origin messages.

(** The first [for] loop of [Main.send_batch_messages]. *)
Fixpoint render_all (messages : list pydict) (rendered_messages : list pydict)
  : M (list pydict) :=
  match messages with
  | [] => ret rendered_messages
  | msg :: rest =>
      let trace_id := trace_of msg in
      logger (L_rendering trace_id) ;;;
      img <- render_message msg ;;
      match img with
      | Some (b :: bs) =>
          let base64_str := "base64://" ++ b64encode X (b :: bs) in
          logger (L_b64_ok trace_id (String.length base64_str)) ;;;
          render_all rest
            (rendered_messages ++
               [[("message_text", PStr "");
                 ("image_url", PStr base64_str);
                 ("sender_name", PStr (sender_name cfg))]])
      | _ => render_all rest rendered_messages
      end
  end.

(** The names that stand for the generic [aiocqhttp] transport. *)
Definition known_alias (name : string) : bool :=
  existsb (String.eqb name) ["llonebot"; "napcat"].

(** Steps 1 to 3 of the platform lookup in [Main.send_batch_messages]. *)
Definition resolve_platform (effective_platform : string) : M (option Platform) :=
  let direct := read (get_platform_inst X effective_platform) in
  platform_inst <- direct ;;
  platform_inst <-
    (match platform_inst with
     | None =>
         if known_alias effective_platform then
           logger (L_try_aiocqhttp effective_platform) ;;;
           read (get_platform_inst X "aiocqhttp")
         else ret None
     | Some _ => ret platform_inst
     end) ;;
  match platform_inst with
  | Some _ => ret platform_inst
  | None =>
      insts <- read (platform_insts X) ;;
      match insts with
      | first :: _ =>
          logger (L_first_available effective_platform (meta_id first)) ;;;
          ret (Some first)
      | [] => ret None
      end
  end.

(** What [Main.send_batch_messages] does once the images are rendered. *)
Definition forward (rendered_messages : list pydict) : M unit :=
  match rendered_messages with
  | [] => logger L_nothing_rendered
  | _ :: _ =>
      effective_platform <- get_effective_platform_name ;;
      logger (L_platform effective_platform) ;;;
      platform_inst <- resolve_platform effective_platform ;;
      match match platform_inst with Some p => get_client p | None => None end with
      | None => logger L_no_bot
      | Some bot =>
          logger L_creating_adapter ;;;
          adapter <- call (create_adapter X effective_platform) ;;
          logger (L_adapter_created adapter) ;;;
          let group := replace_colon (group_id cfg) in
          emit (SendForward adapter bot group rendered_messages
                  (sender_id cfg) (sender_name cfg)) ;;;
          result <- call (send_forward_messages X adapter bot group
                            rendered_messages (sender_id cfg) (sender_name cfg)) ;;
          logger (L_send_result result)
      end
  end.

(** The [try] block of [Main.send_batch_messages]. *)
Definition batch_try (messages : list pydict) : M unit :=
  rendered_messages <- render_all messages [] ;;
  forward rendered_messages.

(** [Main.send_batch_messages] *)
Definition send_batch_messages (messages : list pydict) : M unit :=
  try_except
    (batch_try messages)
    (fun e =>
       logger (L_batch_failed e) ;;;
       send_individual_messages messages).

(** [Main.send_intelligently] *)
Definition send_intelligently (messages : list pydict) : M unit :=
  let count := length messages in
  if Nat.leb (batch_min_size cfg) count then send_batch_messages messages
  else send_individual_messages messages.

(** ** Batch scheduler *)

(** What the loop of [Main.process_message_queue] does with a collaborator's
    answer: [if processed: ... final_messages.append(processed)]. *)
Definition keep_processed (final_messages : list pydict)
    (processed : option pydict) (finish : pydict -> pydict) : list pydict :=
  match processed with
  | Some (kv :: d) => (final_messages ++ [finish (kv :: d)])%list
  | _ => final_messages
  end.

(** The body of the [for] loop of [Main.process_message_queue]. *)
Definition enrich_one (final_messages : list pydict) (msg : pydict)
  : M (list pydict) :=
  let trace_id := trace_of msg in
  let m_type := dict_get_default msg "message_type" PNone in
  if py_eq_str m_type "raw_media" then
    logger (L_media_start trace_id) ;;;
    emit (CallMedia msg) ;;;
    processed <- call (detect_and_process_raw_data X msg) ;;
    ret (keep_processed final_messages processed
           (fun p =>
              dict_set (dict_set p "trace_id" trace_id) "template"
                (dict_get_default msg "template" (PStr (media_template cfg)))))
  else if py_eq_str m_type "raw_game" then
    logger (L_game_start trace_id) ;;;
    match dict_get msg "raw_data" with
    | None => raise (KeyError "raw_data")
    | Some raw_data =>
        let hdrs := dict_get_default msg "headers" PNone in
        emit (CallGame raw_data hdrs) ;;;
        processed <- call (process_game_webhook X raw_data hdrs) ;;
        ret (keep_processed final_messages processed
               (fun p =>
                  dict_set
                    (dict_set (dict_set p "trace_id" trace_id) "template"
                       (dict_get_default msg "template" (PStr (game_template cfg))))
                    "message_type" (PStr "game")))
    end
  else ret (final_messages ++ [msg])%list.

Fixpoint enrich_loop (messages_to_process : list pydict)
    (final_messages : list pydict) : M (list pydict) :=
  match messages_to_process with
  | [] => ret final_messages
  | msg :: rest =>
      final_messages' <- enrich_one final_messages msg ;;
      enrich_loop rest final_messages'
  end.

(** The guard and the capture of [Main.process_message_queue]: the copy, the
    [clear] and the call of [_save_queue], with no suspension in between.
    [None] is the early [return]. *)
Definition drain : M (option (list pydict)) :=
  q <- get_queue ;;
  match q with
  | [] => ret None
  | _ :: _ =>
      if String.eqb (group_id cfg) "" then ret None
      else
        let messages_to_process := q in
        set_queue [] ;;;
        _save_queue ;;;
        ret (Some messages_to_process)
  end.

(** What [Main.process_message_queue] does with the captured records. *)
Definition process_captured (messages_to_process : list pydict) : M unit :=
  final_messages <- enrich_loop messages_to_process [] ;;
  (match final_messages with
   | [] => ret tt
   | _ :: _ =>
       logger (L_batch_begin (length final_messages)) ;;;
       send_intelligently final_messages
   end) ;;;
  now <- ask (time_time X) ;;
  set_last_batch_time now.

(** [Main.process_message_queue] *)
Definition process_message_queue : M unit :=
  captured <- drain ;;
  match captured with
  | None => ret tt
  | Some messages_to_process => process_captured messages_to_process
  end.

(** One turn of the [while True] loop of [Main.start_batch_processor]. *)
Definition batch_processor_turn : M unit :=
  try_except
    (emit (Sleep (1000 * batch_interval_seconds cfg)) ;;;
     process_message_queue)
    (fun e =>
       logger (L_processor_error e) ;;;
       emit (Sleep 10000)).

(** The first [turns] turns of [Main.start_batch_processor]. *)
Fixpoint start_batch_processor (turns : nat) : M unit :=
  match turns with
  | O => ret tt
  | S n => batch_processor_turn ;;; start_batch_processor n
  end.

(** ** The two writers of the queue, interleaved

    An HTTP handler reaches the queue in one uninterrupted segment (the
    [append] and the call of [_save_queue] in [_enqueue]); so does the
    scheduler ([drain]).  A schedule is any order in which the event loop runs
    such segments. *)

Inductive qstep : Type :=
| Arrive (msg : pydict)      (* a handler's [_enqueue msg] *)
| Tick.                      (* the scheduler's [drain] *)

Definition qstep_run (a : qstep) : M (option (list pydict)) :=
  match a with
  | Arrive msg => _enqueue msg ;;; ret None
  | Tick => drain
  end.

(** Runs a schedule; returns the batches captured by its drains, in order. *)
Fixpoint run_schedule (sched : list qstep) (s : State)
  : list (list pydict) * State :=
  match sched with
  | [] => ([], s)
  | a :: rest =>
      let r := qstep_run a s in
      let '(batches, s') := run_schedule rest (final r) in
      (match res r with
       | inr (Some b) => b :: batches
       | _ => batches
       end, s')
  end.

(** The records a schedule appends, in order. *)
Fixpoint arrivals (sched : list qstep) : list pydict :=
  match sched with
  | [] => []
  | Arrive msg :: rest => msg :: arrivals rest
  | Tick :: rest => arrivals rest
  end.

(** [_enqueue] for each record of a list, in order. *)
Fixpoint enqueue_all (msgs : list pydict) : M unit :=
  match msgs with
  | [] => ret tt
  | msg :: rest => _enqueue msg ;;; enqueue_all rest
  end.

(** ** Reading a trace *)

(** The per-message attempts of a send path: each logs its trace id first. *)
Fixpoint attempts (evs : list event) : list pyval :=
  match evs with
  | [] => []
  | Log (L_rendering t) :: evs' => t :: attempts evs'
  | _ :: evs' => attempts evs'
  end.

(** The calls of [context.send_message]. *)
Fixpoint sends (evs : list event) : list (list byte) :=
  match evs with
  | [] => []
  | SendMessage _ img :: evs' => img :: sends evs'
  | _ :: evs' => sends evs'
  end.

(** The values handed to [put_kv_data]. *)
Fixpoint kv_writes (evs : list event) : list (list pydict) :=
  match evs with
  | [] => []
  | KvPut q _ :: evs' => q :: kv_writes evs'
  | _ :: evs' => kv_writes evs'
  end.


Lemma list_eq_dec_nil {A} (l : list A) : {l = []} + {l <> []}.
Proof. destruct l; [left; reflexivity | right; discriminate]. Qed.

(** ** Frame: what a method leaves alone *)

(** [m] writes neither the in-memory queue nor the KV entry. *)
Definition keeps_queue {A} (m : M A) : Prop :=
  forall s,
    message_queue (final (m s)) = message_queue s /\
    kv_store (final (m s)) = kv_store s.

Lemma keeps_ret {A} (a : A) : keeps_queue (ret a).
Proof. intro s; split; reflexivity. Qed.

Lemma keeps_raise {A} (e : exn) : keeps_queue (@raise A e).
Proof. intro s; split; reflexivity. Qed.

Lemma keeps_emit (e : event) : keeps_queue (emit e).
Proof. intro s; split; reflexivity. Qed.

Lemma keeps_logger (l : logline) : keeps_queue (logger l).
Proof. apply keeps_emit. Qed.

Lemma keeps_read {A} (f : W -> A) : keeps_queue (read f).
Proof. intro s; split; reflexivity. Qed.

Lemma keeps_call {A} (f : W -> (exn + A) * W) : keeps_queue (call f).
Proof.
  intro s; unfold call. destruct (f (world s)) as [a w]. split; reflexivity.
Qed.

Lemma keeps_call_unit (f : W -> option exn * W) : keeps_queue (call_unit f).
Proof. apply keeps_call. Qed.

Lemma keeps_ask {A} (f : W -> A * W) : keeps_queue (ask f).
Proof. apply keeps_call. Qed.

Lemma keeps_set_last_batch_time (t : float) : keeps_queue (set_last_batch_time t).
Proof. intro s; split; reflexivity. Qed.

Lemma keeps_bind {A B} (m : M A) (k : A -> M B) :
  keeps_queue m -> (forall a, keeps_queue (k a)) -> keeps_queue (bind m k).
Proof.
  intros Hm Hk s. unfold bind.
  destruct (Hm s) as [Hq Hkv].
  destruct (res (m s)) as [e | a]; simpl.
  - split; assumption.
  - destruct (Hk a (final (m s))) as [Hq' Hkv'].
    split; congruence.
Qed.

Lemma keeps_try_except {A} (m : M A) (h : exn -> M A) :
  keeps_queue m -> (forall e, keeps_queue (h e)) -> keeps_queue (try_except m h).
Proof.
  intros Hm Hh s. unfold try_except.
  destruct (Hm s) as [Hq Hkv].
  destruct (res (m s)) as [e | a]; simpl.
  - destruct (Hh e (final (m s))) as [Hq' Hkv'].
    split; congruence.
  - split; assumption.
Qed.

Lemma keeps_lift_sum {A} (r : exn + A) : keeps_queue (lift_sum r).
Proof. destruct r; [apply keeps_raise | apply keeps_ret]. Qed.

Create HintDb frame.
#[local] Hint Resolve keeps_ret keeps_raise keeps_emit keeps_logger keeps_read
  keeps_call keeps_call_unit keeps_ask keeps_set_last_batch_time
  keeps_lift_sum : frame.

(** Splits a method into its statements and closes each with the hints. *)
Ltac frame :=
  repeat first
    [ progress intros
    | apply keeps_bind
    | apply keeps_try_except
    | solve [auto with frame]
    | match goal with
      | |- keeps_queue (match ?x with _ => _ end) => destruct x
      | |- keeps_queue (if ?b then _ else _) => destruct b
      | |- keeps_queue (let _ := _ in _) => cbv zeta
      end ].

Lemma keeps_get_effective_platform_name : keeps_queue get_effective_platform_name.
Proof. unfold get_effective_platform_name. frame. Qed.

Lemma keeps_render_message msg : keeps_queue (render_message msg).
Proof. unfold render_message. frame. Qed.

#[local] Hint Resolve keeps_get_effective_platform_name keeps_render_message : frame.

Lemma keeps_send_one origin msg : keeps_queue (send_one origin msg).
Proof. unfold send_one. frame. Qed.

#[local] Hint Resolve keeps_send_one : frame.

Lemma keeps_individual_loop origin msgs : keeps_queue (individual_loop origin msgs).
Proof. induction msgs as [| msg rest IH]; simpl; frame. Qed.

#[local] Hint Resolve keeps_individual_loop : frame.

Lemma keeps_send_individual_messages msgs :
  keeps_queue (send_individual_messages msgs).
Proof. unfold send_individual_messages. frame. Qed.

Lemma keeps_render_all msgs : forall rendered, keeps_queue (render_all msgs rendered).
Proof. induction msgs as [| msg rest IH]; simpl; frame. Qed.

Lemma keeps_resolve_platform name : keeps_queue (resolve_platform name).
Proof. unfold resolve_platform. frame. Qed.

#[local] Hint Resolve keeps_send_individual_messages keeps_render_all
  keeps_resolve_platform : frame.

Lemma keeps_forward rendered : keeps_queue (forward rendered).
Proof. unfold forward. frame. Qed.

#[local] Hint Resolve keeps_forward : frame.

Lemma keeps_send_batch_messages msgs : keeps_queue (send_batch_messages msgs).
Proof. unfold send_batch_messages, batch_try. frame. Qed.

#[local] Hint Resolve keeps_send_batch_messages : frame.

Lemma keeps_send_intelligently msgs : keeps_queue (send_intelligently msgs).
Proof. unfold send_intelligently. frame. Qed.

Lemma keeps_enrich_one acc msg : keeps_queue (enrich_one acc msg).
Proof. unfold enrich_one. frame. Qed.

#[local] Hint Resolve keeps_send_intelligently keeps_enrich_one : frame.

Lemma keeps_enrich_loop msgs : forall acc, keeps_queue (enrich_loop msgs acc).
Proof. induction msgs as [| msg rest IH]; simpl; frame. Qed.

#[local] Hint Resolve keeps_enrich_loop : frame.

(** Once the records are captured, the rest of the cycle never touches the
    queue or the KV entry again: nothing is put back. *)
Lemma keeps_process_captured msgs : keeps_queue (process_captured msgs).
Proof. unfold process_captured. frame. Qed.

(** ** Persistent queue: save, append, drain *)

Local Open Scope list_scope.

(** [_save_queue] never raises: the write either lands or is logged. *)
Lemma _save_queue_runs (s : State) :
  _save_queue s =
  match put_kv_data X (message_queue s) (world s) with
  | (None, w) =>
      mkResult (inr tt)
        (mkState w (message_queue s) (Some (message_queue s)) (last_batch_time s))
        [KvPut (message_queue s) true]
  | (Some e, w) =>
      mkResult (inr tt)
        (mkState w (message_queue s) (kv_store s) (last_batch_time s))
        [KvPut (message_queue s) false; Log (L_save_failed e)]
  end.
Proof.
  unfold _save_queue, try_except, bind, get_queue, kv_put; simpl.
  destruct (put_kv_data X (message_queue s) (world s)) as [[e |] w];
    reflexivity.
Qed.

Lemma _save_queue_queue (s : State) :
  message_queue (final (_save_queue s)) = message_queue s.
Proof.
  rewrite _save_queue_runs.
  destruct (put_kv_data X (message_queue s) (world s)) as [[e |] w];
    reflexivity.
Qed.

Lemma _save_queue_res (s : State) : res (_save_queue s) = inr tt.
Proof.
  rewrite _save_queue_runs.
  destruct (put_kv_data X (message_queue s) (world s)) as [[e |] w];
    reflexivity.
Qed.

Lemma _enqueue_queue (msg : pydict) (s : State) :
  message_queue (final (_enqueue msg s)) = message_queue s ++ [msg].
Proof.
  unfold _enqueue, bind, get_queue, set_queue; simpl.
  rewrite _save_queue_queue. reflexivity.
Qed.

Lemma _enqueue_res (msg : pydict) (s : State) : res (_enqueue msg s) = inr tt.
Proof.
  unfold _enqueue, bind, get_queue, set_queue; simpl.
  apply _save_queue_res.
Qed.

(** When the write lands, the KV entry is the queue with the new record. *)
Lemma _enqueue_persists (msg : pydict) (s : State) :
  fst (put_kv_data X (message_queue s ++ [msg]) (world s)) = None ->
  kv_store (final (_enqueue msg s)) = Some (message_queue s ++ [msg]).
Proof.
  intro Hput.
  unfold _enqueue, bind, get_queue, set_queue; simpl.
  rewrite _save_queue_runs; simpl.
  destruct (put_kv_data X (message_queue s ++ [msg]) (world s)) as [[e |] w];
    simpl in *; [discriminate | reflexivity].
Qed.

Lemma enqueue_all_queue (msgs : list pydict) :
  forall s, message_queue (final (enqueue_all msgs s)) = message_queue s ++ msgs.
Proof.
  induction msgs as [| msg rest IH]; intro s; simpl.
  - symmetry; apply app_nil_r.
  - unfold bind. rewrite _enqueue_res; cbn [res final out].
    rewrite IH, _enqueue_queue, <- app_assoc. reflexivity.
Qed.

(** The early [return] of the cycle. *)
Lemma drain_idle (s : State) :
  message_queue s = [] \/ group_id cfg = "" ->
  drain s = mkResult (inr None) s [].
Proof.
  intros [Hq | Hg]; unfold drain, bind, get_queue; simpl.
  - rewrite Hq. reflexivity.
  - destruct (message_queue s); [reflexivity |].
    rewrite Hg. reflexivity.
Qed.

(** The capture: what [drain] returns, leaves and writes. *)
Lemma drain_runs (s : State) :
  message_queue s <> [] -> group_id cfg <> "" ->
  let emptied := mkState (world s) [] (kv_store s) (last_batch_time s) in
  res (drain s) = inr (Some (message_queue s)) /\
  final (drain s) = final (_save_queue emptied) /\
  out (drain s) = out (_save_queue emptied).
Proof.
  intros Hq Hg emptied.
  unfold drain, bind, get_queue; simpl.
  destruct (message_queue s) as [| m q] eqn:E; [congruence |].
  apply String.eqb_neq in Hg. rewrite Hg.
  unfold set_queue; simpl. fold emptied.
  rewrite _save_queue_res; simpl.
  rewrite app_nil_r. repeat split; reflexivity.
Qed.

(** What one step of a schedule captures and leaves in the queue. *)
Lemma qstep_run_queue (a : qstep) (s : State) :
  let r := qstep_run a s in
  match a with
  | Arrive msg =>
      res r = inr None /\ message_queue (final r) = message_queue s ++ [msg]
  | Tick =>
      (res r = inr None /\ message_queue (final r) = message_queue s) \/
      (res r = inr (Some (message_queue s)) /\ message_queue (final r) = [])
  end.
Proof.
  destruct a as [msg |]; cbn zeta.
  - unfold qstep_run, bind. rewrite _enqueue_res; cbn [res final out].
    split; [reflexivity | apply _enqueue_queue].
  - unfold qstep_run.
    destruct (list_eq_dec_nil (message_queue s)) as [Hq | Hq].
    { left. rewrite drain_idle by (left; exact Hq). split; reflexivity. }
    destruct (String.eqb_spec (group_id cfg) "") as [Hg | Hg].
    { left. rewrite drain_idle by (right; exact Hg). split; reflexivity. }
    right. destruct (drain_runs s Hq Hg) as (Hres & Hfin & _).
    split; [exact Hres |].
    rewrite Hfin, _save_queue_queue. reflexivity.
Qed.

(** Every record that is in the queue or arrives is in exactly one place
    afterwards, a captured batch or the queue, and in arrival order. *)
Lemma run_schedule_conserves (sched : list qstep) :
  forall s,
    concat (fst (run_schedule sched s)) ++ message_queue (snd (run_schedule sched s))
    = message_queue s ++ arrivals sched.
Proof.
  induction sched as [| a rest IH]; intro s.
  - simpl. symmetry; apply app_nil_r.
  - cbn [run_schedule].
    specialize (IH (final (qstep_run a s))).
    pose proof (qstep_run_queue a s) as Hstep; cbn zeta in Hstep.
    destruct (run_schedule rest (final (qstep_run a s))) as [batches s'].
    cbn [fst snd] in *.
    destruct a as [msg |]; cbn [arrivals].
    + destruct Hstep as [Hres Hq]. rewrite Hres, IH, Hq, <- app_assoc.
      reflexivity.
    + destruct Hstep as [[Hres Hq] | [Hres Hq]]; rewrite Hres.
      * rewrite IH, Hq. reflexivity.
      * cbn [concat]. rewrite <- app_assoc, IH, Hq. reflexivity.
Qed.

(** C1. A drain of a queue of N records captures exactly those records in
    insertion order and hands them to the enrichment loop; the in-memory
    queue is empty right after the capture; the one value then written to
    the KV entry is the empty list (and the entry is the empty list when the
    write lands); and under any interleaving of appends and drains every
    record ends up in exactly one captured batch or in the queue, in order. *)
Theorem drain_exact_atomic (s : State) :
  message_queue s <> [] -> group_id cfg <> "" ->
  let r := drain s in
  res r = inr (Some (message_queue s)) /\
  message_queue (final r) = [] /\
  kv_writes (out r) = [[]] /\
  (fst (put_kv_data X [] (world s)) = None -> kv_store (final r) = Some []) /\
  process_message_queue s =
    (let r' := process_captured (message_queue s) (final r) in
     mkResult (res r') (final r') (out r ++ out r')) /\
  (forall sched,
     concat (fst (run_schedule sched s)) ++
       message_queue (snd (run_schedule sched s))
     = message_queue s ++ arrivals sched).
Proof.
  intros Hq Hg r.
  destruct (drain_runs s Hq Hg) as (Hres & Hfin & Hout). fold r in Hres, Hfin, Hout.
  assert (Hsave := _save_queue_runs
            (mkState (world s) [] (kv_store s) (last_batch_time s))).
  cbn [message_queue world kv_store last_batch_time] in Hsave.
  repeat split.
  - exact Hres.
  - rewrite Hfin. apply _save_queue_queue.
  - rewrite Hout, Hsave.
    destruct (put_kv_data X [] (world s)) as [[e |] w]; reflexivity.
  - intro Hput. rewrite Hfin, Hsave.
    destruct (put_kv_data X [] (world s)) as [[e |] w];
      [discriminate | reflexivity].
  - unfold process_message_queue, bind. fold r. rewrite Hres. reflexivity.
  - intro sched. apply run_schedule_conserves.
Qed.

(** C9. A cycle that starts with an empty queue, or with no [group_id]
    configured, returns at once: the whole state (queue, KV entry, world of
    the collaborators) is the one it started from and no event (KV write,
    collaborator call, send, log line) is produced. *)
Theorem idle_cycle_no_effect (s : State) :
  message_queue s = [] \/ group_id cfg = "" ->
  process_message_queue s = mkResult (inr tt) s [].
Proof.
  intro Hidle.
  unfold process_message_queue, bind.
  rewrite (drain_idle s Hidle). reflexivity.
Qed.

(** *** Running a method statement by statement *)

Lemma result_eta {A} (r : Result A) : mkResult (res r) (final r) (out r) = r.
Proof. destruct r; reflexivity. Qed.

Lemma bind_ret_l {A B} (a : A) (k : A -> M B) (s : State) :
  bind (ret a) k s = k a s.
Proof. unfold bind, ret. cbn [res final out app]. apply result_eta. Qed.

(** A statement with a known outcome, followed by the rest. *)
Lemma bind_runs {A B} (m : M A) (k : A -> M B) (s s' : State) a o :
  m s = mkResult (inr a) s' o ->
  bind m k s = mkResult (res (k a s')) (final (k a s')) (o ++ out (k a s')).
Proof. intro H. unfold bind. rewrite H. reflexivity. Qed.

Lemma bind_raises {A B} (m : M A) (k : A -> M B) (s s' : State) e o :
  m s = mkResult (inl e) s' o ->
  bind m k s = mkResult (inl e) s' o.
Proof. intro H. unfold bind. rewrite H. reflexivity. Qed.

Lemma try_passes {A} (m : M A) (h : exn -> M A) (s : State) a :
  res (m s) = inr a -> try_except m h s = m s.
Proof. intro H. unfold try_except. rewrite H. reflexivity. Qed.

Lemma try_catches {A} (m : M A) (h : exn -> M A) (s s' : State) e o :
  m s = mkResult (inl e) s' o ->
  try_except m h s = mkResult (res (h e s')) (final (h e s')) (o ++ out (h e s')).
Proof. intro H. unfold try_except. rewrite H. reflexivity. Qed.

Lemma logger_runs (l : logline) (s : State) :
  logger l s = mkResult (inr tt) s [Log l].
Proof. reflexivity. Qed.

Lemma emit_runs (e : event) (s : State) : emit e s = mkResult (inr tt) s [e].
Proof. reflexivity. Qed.

(** The state after a collaborator call that moved the world to [w]. *)
Definition with_world (s : State) (w : W) : State :=
  mkState w (message_queue s) (kv_store s) (last_batch_time s).

Lemma call_runs {A} (f : W -> (exn + A) * W) (s : State) :
  call f s = mkResult (fst (f (world s))) (with_world s (snd (f (world s)))) [].
Proof. unfold call, with_world. destruct (f (world s)); reflexivity. Qed.

Lemma ask_runs {A} (f : W -> A * W) (s : State) :
  ask f s = mkResult (inr (fst (f (world s)))) (with_world s (snd (f (world s)))) [].
Proof. unfold ask, call, with_world. destruct (f (world s)); reflexivity. Qed.

Lemma call_unit_runs (f : W -> option exn * W) (s : State) :
  call_unit f s =
  mkResult (match fst (f (world s)) with Some e => inl e | None => inr tt end)
    (with_world s (snd (f (world s)))) [].
Proof. unfold call_unit, call, with_world. destruct (f (world s)); reflexivity. Qed.

(** Runs the first statement of a sequence whose outcome [lemma] gives. *)
Ltac run lemma :=
  rewrite (bind_runs _ _ _ _ _ _ lemma); cbn [res final out app].

(** Runs a leading [logger], [emit] or [ask] statement. *)
Ltac run_log :=
  match goal with
  | |- context [bind (logger ?l) ?k ?s0] => run (logger_runs l s0)
  end.

Ltac run_emit :=
  match goal with
  | |- context [bind (emit ?e) ?k ?s0] => run (emit_runs e s0)
  end.

Ltac run_ask :=
  match goal with
  | |- context [bind (ask ?f) ?k ?s0] => run (ask_runs f s0)
  end.

(** What runs after a statement that keeps the queue does not matter to
    the queue. *)
Lemma queue_after_bind {A B} (m : M A) (k : A -> M B) (s : State) :
  (forall a, keeps_queue (k a)) ->
  message_queue (final (bind m k s)) = message_queue (final (m s)).
Proof.
  intro Hk. unfold bind.
  destruct (res (m s)) as [e | a]; cbn [final]; [reflexivity |].
  apply (Hk a).
Qed.

Lemma queue_after_try {A} (m : M A) (h : exn -> M A) (s : State) :
  (forall e, keeps_queue (h e)) ->
  message_queue (final (try_except m h s)) = message_queue (final (m s)).
Proof.
  intro Hh. unfold try_except.
  destruct (res (m s)) as [e | a]; cbn [final]; [| reflexivity].
  apply (Hh e).
Qed.

Lemma kv_get_runs (s : State) :
  fst (get_kv_data X (world s)) = None ->
  exists s',
    kv_get s = mkResult (inr (match kv_store s with Some q => q | None => [] end))
                 s' [] /\
    message_queue s' = message_queue s.
Proof.
  intro Hget. unfold kv_get, bind, call_unit, call.
  destruct (get_kv_data X (world s)) as [[e |] w1]; cbn [fst] in Hget;
    [discriminate |].
  cbn [res final out kv_store message_queue app].
  eexists. split; reflexivity.
Qed.

(** Restoring at startup puts the persisted records behind what the queue
    already holds, whatever the later startup steps do. *)
Lemma initialize_queue (s : State) :
  fst (get_kv_data X (world s)) = None ->
  message_queue (final (initialize s)) =
  message_queue s ++ match kv_store s with Some q => q | None => [] end.
Proof.
  intro Hget. unfold initialize.
  rewrite queue_after_try by frame.
  destruct (kv_get_runs s Hget) as (s' & Hkv & Hq).
  rewrite (bind_runs _ _ _ _ _ _ Hkv). cbn [final].
  rewrite queue_after_bind by frame.
  destruct (match kv_store s with Some q => q | None => [] end) as [| m q].
  - cbn [ret final]. rewrite Hq. symmetry. apply app_nil_r.
  - unfold bind, get_queue, set_queue, logger, emit.
    cbn [res final out message_queue]. rewrite Hq. reflexivity.
Qed.

(** C4. After [_save_queue] has written a queue of N records, a restarted
    process ([__init__], then [initialize]) holds exactly those N records,
    same content, same order; records enqueued after the restart come behind
    them. *)
Theorem save_then_restore (s : State) (w' : W) (now : float) :
  fst (put_kv_data X (message_queue s) (world s)) = None ->
  fst (get_kv_data X w') = None ->
  let saved := final (_save_queue s) in
  let restarted := final (initialize (fresh_process w' (kv_store saved) now)) in
  message_queue restarted = message_queue s /\
  length (message_queue restarted) = length (message_queue s) /\
  forall later,
    message_queue (final (enqueue_all later restarted)) = message_queue s ++ later.
Proof.
  intros Hput Hget saved restarted.
  assert (Hkv : kv_store saved = Some (message_queue s)).
  { unfold saved. rewrite _save_queue_runs.
    destruct (put_kv_data X (message_queue s) (world s)) as [[e |] w];
      [discriminate | reflexivity]. }
  assert (Hq : message_queue restarted = message_queue s).
  { unfold restarted. rewrite initialize_queue by exact Hget.
    cbn [fresh_process message_queue kv_store]. rewrite Hkv. reflexivity. }
  repeat split.
  - exact Hq.
  - rewrite Hq. reflexivity.
  - intro later. rewrite enqueue_all_queue, Hq. reflexivity.
Qed.

(** ** Ingestion gateway *)

Lemma dict_get_set_same (d : pydict) (k : string) (v : pyval) :
  dict_get (dict_set d k v) k = Some v.
Proof.
  induction d as [| [k' v'] d IH]; simpl.
  - rewrite String.eqb_refl. reflexivity.
  - destruct (String.eqb k' k) eqn:E; simpl; rewrite E; [reflexivity | exact IH].
Qed.

Lemma dict_get_set_other (d : pydict) (k k0 : string) (v : pyval) :
  k <> k0 -> dict_get (dict_set d k v) k0 = dict_get d k0.
Proof.
  intro Hne. induction d as [| [k' v'] d IH]; simpl.
  - apply String.eqb_neq in Hne. rewrite Hne. reflexivity.
  - destruct (String.eqb k' k) eqn:E; simpl.
    + apply String.eqb_eq in E. subst k'.
      apply String.eqb_neq in Hne. rewrite Hne. reflexivity.
    + rewrite IH. reflexivity.
Qed.

(** A POST that the handler of its category can read: the body arrives; a
    game body parses as JSON; a common body is normalised by the
    collaborator into a message with a ["message_text"]. *)
Definition well_formed (c : category) (request : Request) (s : State) : Prop :=
  exists body_text,
    text request = inr body_text /\
    match c with
    | Media => True
    | Game => exists payload, json_loads X body_text = inr payload
    | Common =>
        exists r,
          fst (process_common_webhook X body_text
                 (headers_dict (headers request))
                 (snd (uuid4_prefix X (world s)))) = inr (Some r) /\
          dict_has r "message_text" = true
    end.

Lemma _enqueue_runs (msg : pydict) (s : State) :
  _enqueue msg s =
  mkResult (inr tt) (final (_enqueue msg s)) (out (_enqueue msg s)).
Proof. rewrite <- (_enqueue_res msg s). symmetry. apply result_eta. Qed.

(** Reduces a [try] whose block is shown to end without raising. *)
Ltac try_block resp :=
  match goal with
  | |- try_except ?m ?h ?s0 = ?rhs =>
      cut (m s0 = rhs);
      [ let Hb := fresh "Hb" in
        intro Hb; rewrite (try_passes m h s0 resp);
        [ exact Hb | rewrite Hb; reflexivity ]
      | ]
  end.

(** The accepted media POST: the record that is queued and the events. *)
Lemma handle_media_webhook_accepts (request : Request) (s : State) body_text :
  _check_auth request = true ->
  text request = inr body_text ->
  let trace_id := fst (uuid4_prefix X (world s)) in
  let s1 := with_world s (snd (uuid4_prefix X (world s))) in
  let s2 := with_world s1 (snd (time_time X (world s1))) in
  let record :=
    [("raw_data", PStr body_text);
     ("headers", PDict (headers_dict (headers request)));
     ("timestamp", PFloat (fst (time_time X (world s1))));
     ("message_type", PStr "raw_media");
     ("trace_id", PStr trace_id);
     ("template", PStr (media_template cfg))] in
  handle_media_webhook request s =
  mkResult (inr (mkResponse (queued_text trace_id) 200))
    (final (_enqueue record s2))
    (Log (L_received trace_id (path request)) :: out (_enqueue record s2)).
Proof.
  intros Hauth Hbody trace_id s1 s2 record.
  unfold handle_media_webhook.
  run (ask_runs (uuid4_prefix X) s). rewrite result_eta. fold trace_id s1.
  rewrite Hauth. cbn [negb].
  try_block (mkResponse (queued_text trace_id) 200).
  rewrite Hbody. cbn [lift_sum]. rewrite bind_ret_l.
  run (logger_runs (L_received trace_id (path request)) s1).
  run (ask_runs (time_time X) s1). fold s2 record.
  run (_enqueue_runs record s2).
  cbn [ret res final out]. rewrite app_nil_r. reflexivity.
Qed.

(** The accepted game POST. *)
Lemma handle_game_webhook_accepts (request : Request) (s : State) body_text payload :
  _check_auth request = true ->
  text request = inr body_text ->
  json_loads X body_text = inr payload ->
  let trace_id := fst (uuid4_prefix X (world s)) in
  let s1 := with_world s (snd (uuid4_prefix X (world s))) in
  let s2 := with_world s1 (snd (time_time X (world s1))) in
  let record :=
    [("raw_data", payload);
     ("headers", PDict (headers_dict (headers request)));
     ("timestamp", PFloat (fst (time_time X (world s1))));
     ("message_type", PStr "raw_game");
     ("trace_id", PStr trace_id);
     ("template", PStr (game_template cfg))] in
  handle_game_webhook request s =
  mkResult (inr (mkResponse (queued_text trace_id) 200))
    (final (_enqueue record s2))
    (Log (L_received trace_id (path request)) :: out (_enqueue record s2)).
Proof.
  intros Hauth Hbody Hjson trace_id s1 s2 record.
  unfold handle_game_webhook.
  run (ask_runs (uuid4_prefix X) s). rewrite result_eta. fold trace_id s1.
  rewrite Hauth. cbn [negb].
  try_block (mkResponse (queued_text trace_id) 200).
  rewrite Hbody. cbn [lift_sum]. rewrite bind_ret_l.
  run (logger_runs (L_received trace_id (path request)) s1).
  rewrite Hjson. cbn [lift_sum]. rewrite bind_ret_l.
  run (ask_runs (time_time X) s1). fold s2 record.
  run (_enqueue_runs record s2).
  cbn [ret res final out]. rewrite app_nil_r. reflexivity.
Qed.

(** The accepted common POST. *)
Lemma handle_common_webhook_accepts (request : Request) (s : State) body_text r :
  _check_auth request = true ->
  text request = inr body_text ->
  let trace_id := fst (uuid4_prefix X (world s)) in
  let s1 := with_world s (snd (uuid4_prefix X (world s))) in
  let hdrs := headers_dict (headers request) in
  fst (process_common_webhook X body_text hdrs (world s1)) = inr (Some r) ->
  dict_has r "message_text" = true ->
  let s2 := with_world s1 (snd (process_common_webhook X body_text hdrs (world s1))) in
  let s3 := with_world s2 (snd (time_time X (world s2))) in
  let record :=
    dict_set
      (dict_set (dict_set r "timestamp" (PFloat (fst (time_time X (world s2)))))
         "trace_id" (PStr trace_id))
      "template" (PStr (common_template cfg)) in
  handle_common_webhook request s =
  mkResult (inr (mkResponse (queued_text trace_id) 200))
    (final (_enqueue record s3))
    (Log (L_received trace_id (path request)) ::
     CallCommon body_text hdrs :: out (_enqueue record s3)).
Proof.
  intros Hauth Hbody trace_id s1 hdrs Hcommon Hhas s2 s3 record.
  unfold handle_common_webhook.
  run (ask_runs (uuid4_prefix X) s). rewrite result_eta. fold trace_id s1.
  rewrite Hauth. cbn [negb].
  try_block (mkResponse (queued_text trace_id) 200).
  rewrite Hbody. cbn [lift_sum]. rewrite bind_ret_l. fold hdrs.
  run (logger_runs (L_received trace_id (path request)) s1).
  run (emit_runs (CallCommon body_text hdrs) s1).
  assert (Hcall : call (process_common_webhook X body_text hdrs) s1 =
                  mkResult (inr (Some r)) s2 []).
  { rewrite call_runs, Hcommon. reflexivity. }
  run Hcall.
  rewrite Hhas.
  assert (Htruthy : dict_truthy (Some r) = true).
  { destruct r; [discriminate Hhas | reflexivity]. }
  rewrite Htruthy. cbn [andb].
  run (ask_runs (time_time X) s2). fold s3 record.
  run (_enqueue_runs record s3).
  cbn [ret res final out]. rewrite app_nil_r. reflexivity.
Qed.

Lemma prefix_contains (p s : string) :
  String.prefix p s = true -> str_contains p s = true.
Proof. intro H. destruct s; cbn [str_contains]; rewrite H; reflexivity. Qed.

Lemma prefix_of_append (p t : string) : String.prefix p (p ++ t)%string = true.
Proof.
  induction p as [| a p IH]; [destruct t; reflexivity |].
  cbn. destruct (ascii_dec a a); [exact IH | congruence].
Qed.

Lemma contains_after (p a t : string) :
  str_contains p t = true -> str_contains p (a ++ t)%string = true.
Proof.
  intro H. induction a as [| c a IH]; [exact H |].
  cbn [String.append str_contains]. rewrite IH.
  destruct (String.prefix p _); reflexivity.
Qed.

(** The text between two others contains it. *)
Lemma contains_middle (a p b : string) :
  str_contains p (a ++ p ++ b)%string = true.
Proof. apply contains_after, prefix_contains, prefix_of_append. Qed.

(** The template that a route stamps on its records. *)
Definition template_of (c : category) : string :=
  match c with
  | Media => media_template cfg
  | Game => game_template cfg
  | Common => common_template cfg
  end.

(** C2. An authenticated, well-formed POST to a media, game or common route
    appends exactly one record: the queue afterwards is the queue before
    with that record last (length plus one); the response is 200 and its
    text, the fixed phrase with the trace id generated for this call in
    brackets, contains that trace id, which is the ["trace_id"] of the
    appended record and the one logged on receipt.  The record also has the
    template of its route. *)
Theorem accepted_post_appends_one (c : category) (request : Request) (s : State) :
  _check_auth request = true ->
  well_formed c request s ->
  let r := handle_webhook c request s in
  let trace_id := fst (uuid4_prefix X (world s)) in
  exists record,
    res r = inr (mkResponse ("已加入队列 (ID: " ++ trace_id ++ ")")%string 200) /\
    (forall resp, res r = inr resp ->
                  status resp = 200%Z /\
                  str_contains trace_id (resp_text resp) = true) /\
    message_queue (final r) = message_queue s ++ [record] /\
    length (message_queue (final r)) = length (message_queue s) + 1 /\
    dict_get record "trace_id" = Some (PStr trace_id) /\
    dict_get record "template" = Some (PStr (template_of c)) /\
    In (Log (L_received trace_id (path request))) (out r).
Proof.
  intros Hauth (body_text & Hbody & Hc) r trace_id.
  assert (Hlen : forall q (x : pydict), length (q ++ [x]) = length q + 1).
  { intros. rewrite length_app. reflexivity. }
  assert (Htext : forall resp,
            inr (mkResponse (queued_text trace_id) 200) = @inr exn _ resp ->
            status resp = 200%Z /\
            str_contains trace_id (resp_text resp) = true).
  { intros resp H. injection H as <-. split; [reflexivity |].
    apply contains_middle. }
  subst r. destruct c; unfold handle_webhook.
  - rewrite (handle_media_webhook_accepts request s body_text Hauth Hbody).
    cbn [res final out]. rewrite _enqueue_queue.
    eexists. split; [reflexivity |]. split; [exact Htext |].
    split; [reflexivity |].
    split; [apply Hlen |]. split; [reflexivity |].
    split; [reflexivity | left; reflexivity].
  - destruct Hc as [payload Hjson].
    rewrite (handle_game_webhook_accepts request s body_text payload
               Hauth Hbody Hjson).
    cbn [res final out]. rewrite _enqueue_queue.
    eexists. split; [reflexivity |]. split; [exact Htext |].
    split; [reflexivity |].
    split; [apply Hlen |]. split; [reflexivity |].
    split; [reflexivity | left; reflexivity].
  - destruct Hc as (d & Hcommon & Hhas).
    rewrite (handle_common_webhook_accepts request s body_text d
               Hauth Hbody Hcommon Hhas).
    cbn [res final out]. rewrite _enqueue_queue.
    eexists. split; [reflexivity |]. split; [exact Htext |].
    split; [reflexivity |].
    split; [apply Hlen |].
    split; [| split; [apply dict_get_set_same | left; reflexivity]].
    rewrite dict_get_set_other by discriminate.
    apply dict_get_set_same.
Qed.

(** The rejected POST: one warning, no other effect than the world having
    produced a trace id. *)
Lemma handle_webhook_rejects (c : category) (request : Request) (s : State) :
  _check_auth request = false ->
  handle_webhook c request s =
  mkResult (inr unauthorized)
    (with_world s (snd (uuid4_prefix X (world s))))
    [Log (L_unauthorized (fst (uuid4_prefix X (world s))) (remote request))].
Proof.
  intro Hauth.
  destruct c;
    unfold handle_webhook, handle_media_webhook, handle_game_webhook,
      handle_common_webhook;
    run (ask_runs (uuid4_prefix X) s); rewrite result_eta, Hauth; cbn [negb];
    run (logger_runs
           (L_unauthorized (fst (uuid4_prefix X (world s))) (remote request))
           (with_world s (snd (uuid4_prefix X (world s)))));
    reflexivity.
Qed.

(** C3. With a token configured, a POST whose [X-Webhook-Token] header is
    missing or is not the configured token is answered 401 on every route;
    the in-memory queue and the KV entry are the ones before the call, and
    the call writes nothing to the KV store. *)
Theorem bad_token_rejected (c : category) (request : Request) (s : State) :
  webhook_token cfg <> "" ->
  headers_get (headers request) "X-Webhook-Token" <> Some (webhook_token cfg) ->
  let r := handle_webhook c request s in
  res r = inr unauthorized /\
  status unauthorized = 401%Z /\
  message_queue (final r) = message_queue s /\
  kv_store (final r) = kv_store s /\
  kv_writes (out r) = [].
Proof.
  intros Htoken Hheader r.
  assert (Hauth : _check_auth request = false).
  { unfold _check_auth. apply String.eqb_neq in Htoken. rewrite Htoken.
    destruct (headers_get (headers request) "X-Webhook-Token") as [token |];
      [| reflexivity].
    apply String.eqb_neq. congruence. }
  subst r. rewrite (handle_webhook_rejects c request s Hauth).
  repeat split.
Qed.

(** ** Delivery strategy *)

(** C5. [send_intelligently] takes the batch path exactly when the number of
    messages reaches [batch_min_size], and the individual path when it is
    below; with [batch_min_size = 3], two messages go out individually and
    three as a batch.  A cycle hands every non-empty list of enriched
    messages to [send_intelligently]. *)
Theorem strategy_by_count (messages : list pydict) (s : State) :
  (batch_min_size cfg <= length messages ->
   send_intelligently messages s = send_batch_messages messages s) /\
  (length messages < batch_min_size cfg ->
   send_intelligently messages s = send_individual_messages messages s) /\
  (batch_min_size cfg = 3 -> length messages = 2 ->
   send_intelligently messages s = send_individual_messages messages s) /\
  (batch_min_size cfg = 3 -> length messages = 3 ->
   send_intelligently messages s = send_batch_messages messages s) /\
  (forall captured s0,
     res (enrich_loop captured [] s0) = inr messages ->
     final (enrich_loop captured [] s0) = s ->
     messages <> [] ->
     exists tail,
       out (process_captured captured s0) =
       out (enrich_loop captured [] s0) ++
       Log (L_batch_begin (length messages)) ::
       out (send_intelligently messages s) ++ tail).
Proof.
  assert (Hge : batch_min_size cfg <= length messages ->
                send_intelligently messages s = send_batch_messages messages s).
  { intro H. unfold send_intelligently.
    apply Nat.leb_le in H. rewrite H. reflexivity. }
  assert (Hlt : length messages < batch_min_size cfg ->
                send_intelligently messages s = send_individual_messages messages s).
  { intro H. unfold send_intelligently.
    apply Nat.leb_gt in H. rewrite H. reflexivity. }
  repeat split.
  - exact Hge.
  - exact Hlt.
  - intros Hmin Hlen. apply Hlt. lia.
  - intros Hmin Hlen. apply Hge. lia.
  - intros captured s0 Hres Hfin Hne.
    assert (Henrich : enrich_loop captured [] s0 =
                      mkResult (inr messages) s (out (enrich_loop captured [] s0))).
    { rewrite <- Hres, <- Hfin. symmetry. apply result_eta. }
    unfold process_captured.
    run Henrich.
    destruct messages as [| m ms]; [congruence |].
    set (announce := L_batch_begin (length (m :: ms))).
    assert (Hsend : (logger announce ;;; send_intelligently (m :: ms)) s =
                    mkResult (res (send_intelligently (m :: ms) s))
                      (final (send_intelligently (m :: ms) s))
                      (Log announce :: out (send_intelligently (m :: ms) s))).
    { run (logger_runs announce s). reflexivity. }
    destruct (res (send_intelligently (m :: ms) s)) as [e | []].
    + rewrite (bind_raises _ _ _ _ _ _ Hsend). cbn [out].
      exists []. rewrite app_nil_r. reflexivity.
    + rewrite (bind_runs _ _ _ _ _ _ Hsend). cbn [out].
      eexists. rewrite <- app_comm_cons. reflexivity.
Qed.

(** ** The individual path *)

Lemma attempts_app (a b : list event) :
  attempts (a ++ b) = attempts a ++ attempts b.
Proof.
  induction a as [| ev a IH]; [reflexivity |].
  destruct ev as [l | | | | | | | |]; try exact IH.
  destruct l; try exact IH.
  cbn [app attempts]. rewrite IH. reflexivity.
Qed.

Lemma sends_app (a b : list event) : sends (a ++ b) = sends a ++ sends b.
Proof.
  induction a as [| ev a IH]; [reflexivity |].
  destruct ev; try exact IH.
  cbn [app sends]. rewrite IH. reflexivity.
Qed.


(** Every event that [m] emits satisfies [P]. *)
Definition emits (P : event -> Prop) {A} (m : M A) : Prop :=
  forall s, Forall P (out (m s)).

Section Emits.

Variable P : event -> Prop.

Lemma emits_ret {A} (a : A) : emits P (ret a).
Proof. intro s. constructor. Qed.

Lemma emits_raise {A} (e : exn) : emits P (@raise A e).
Proof. intro s. constructor. Qed.

Lemma emits_emit (e : event) : P e -> emits P (emit e).
Proof. intros H s. repeat constructor. exact H. Qed.

Lemma emits_logger (l : logline) : P (Log l) -> emits P (logger l).
Proof. apply emits_emit. Qed.

Lemma emits_read {A} (f : W -> A) : emits P (read f).
Proof. intro s. constructor. Qed.

Lemma emits_call {A} (f : W -> (exn + A) * W) : emits P (call f).
Proof. intro s. rewrite call_runs. constructor. Qed.

Lemma emits_call_unit (f : W -> option exn * W) : emits P (call_unit f).
Proof. apply emits_call. Qed.

Lemma emits_ask {A} (f : W -> A * W) : emits P (ask f).
Proof. apply emits_call. Qed.

Lemma emits_set_last_batch_time (t : float) : emits P (set_last_batch_time t).
Proof. intro s. constructor. Qed.

Lemma emits_bind {A B} (m : M A) (k : A -> M B) :
  emits P m -> (forall a, emits P (k a)) -> emits P (bind m k).
Proof.
  intros Hm Hk s. unfold bind.
  destruct (res (m s)) as [e | a]; cbn [out].
  - apply Hm.
  - apply Forall_app. split; [apply Hm | apply Hk].
Qed.

Lemma emits_try_except {A} (m : M A) (h : exn -> M A) :
  emits P m -> (forall e, emits P (h e)) -> emits P (try_except m h).
Proof.
  intros Hm Hh s. unfold try_except.
  destruct (res (m s)) as [e | a]; cbn [out].
  - apply Forall_app. split; [apply Hm | apply Hh].
  - apply Hm.
Qed.

End Emits.

Create HintDb emits.
#[local] Hint Resolve emits_ret emits_raise emits_read emits_call
  emits_call_unit emits_ask emits_set_last_batch_time : emits.

(** Splits a method into its statements; an emitted event must satisfy the
    predicate by computation. *)
Ltac emitting :=
  repeat first
    [ progress intros
    | progress cbv beta zeta
    | solve [auto with emits]
    | apply emits_bind
    | apply emits_try_except
    | apply emits_logger; exact I
    | apply emits_emit; exact I
    | match goal with
      | |- emits _ (match ?x with _ => _ end) => destruct x
      | |- emits _ (if ?b then _ else _) => destruct b
      end ].

(** An event other than the log line that opens an attempt. *)
Definition not_attempt (e : event) : Prop :=
  match e with Log (L_rendering _) => False | _ => True end.

(** An event other than a call of [context.send_message]. *)
Definition not_send (e : event) : Prop :=
  match e with SendMessage _ _ => False | _ => True end.

Lemma attempts_none (evs : list event) : Forall not_attempt evs -> attempts evs = [].
Proof.
  induction 1 as [| ev evs Hev _ IH]; [reflexivity |].
  destruct ev as [l | | | | | | | |]; try exact IH.
  destruct l; try exact IH. destruct Hev.
Qed.

Lemma sends_none (evs : list event) : Forall not_send evs -> sends evs = [].
Proof.
  induction 1 as [| ev evs Hev _ IH]; [reflexivity |].
  destruct ev; try exact IH. destruct Hev.
Qed.

(** The platform name is a pure read: no event, no state change, no raise. *)
Lemma get_effective_platform_name_runs (s : State) :
  exists name, get_effective_platform_name s = mkResult (inr name) s [].
Proof.
  unfold get_effective_platform_name.
  destruct (String.eqb (platform_name cfg) "auto").
  - unfold bind, read. cbn [res final out app].
    destruct (find _ _); eexists; reflexivity.
  - eexists; reflexivity.
Qed.

(** The render of a message that has a ["message_text"]: one call of the
    renderer with the assembled context. *)
Lemma render_message_runs (msg : pydict) (s : State) (txt : pyval) :
  dict_get msg "message_text" = Some txt ->
  let s1 := with_world s (snd (time_time X (world s))) in
  let ts := dict_get_default msg "timestamp" (PFloat (fst (time_time X (world s)))) in
  let extra :=
    extra_render_context msg
      match format_time X ts with Some f => f | None => "" end in
  let image := py_or (dict_get_default msg "poster_url" PNone)
                     (dict_get_default msg "image_url" PNone) in
  let template := dict_get_default msg "template" (PStr "card_default.html") in
  render_message msg s =
  mkResult (fst (render X txt image template extra (world s1)))
    (with_world s1 (snd (render X txt image template extra (world s1))))
    [Render txt image template extra].
Proof.
  intros Htxt s1 ts extra image template.
  unfold render_message.
  run (ask_runs (time_time X) s). rewrite result_eta.
  rewrite Htxt. fold s1 ts extra image template.
  run (emit_runs (Render txt image template extra) s1).
  rewrite call_runs. reflexivity.
Qed.

(** The render of a message without a ["message_text"] raises [KeyError]
    before the renderer is called. *)
Lemma render_message_missing (msg : pydict) (s : State) :
  dict_get msg "message_text" = None ->
  render_message msg s =
  mkResult (inl (KeyError "message_text"))
    (with_world s (snd (time_time X (world s)))) [].
Proof.
  intro Htxt. unfold render_message.
  run (ask_runs (time_time X) s). rewrite result_eta.
  rewrite Htxt. reflexivity.
Qed.

Lemma render_message_no_attempt msg : emits not_attempt (render_message msg).
Proof. unfold render_message. emitting. Qed.

Lemma render_message_no_send msg : emits not_send (render_message msg).
Proof. unfold render_message. emitting. Qed.

#[local] Hint Resolve render_message_no_attempt render_message_no_send : emits.

(** A handler that cannot raise makes the whole [try] statement safe. *)
Lemma try_except_safe (m : M unit) (h : exn -> M unit) (s : State) :
  (forall e s', res (h e s') = inr tt) -> res (try_except m h s) = inr tt.
Proof.
  intro Hh. unfold try_except.
  destruct (res (m s)) as [e | []] eqn:E; cbn [res]; [apply Hh | exact E].
Qed.

(** One message of the individual path: the attempt is logged, a failure of
    the render or of the send is caught there, nothing is raised. *)
Lemma send_one_runs (origin : string) (msg : pydict) (s : State) :
  res (send_one origin msg s) = inr tt /\
  attempts (out (send_one origin msg s)) = [trace_of msg].
Proof.
  unfold send_one. split.
  - apply try_except_safe. reflexivity.
  - match goal with
    | |- attempts (out (try_except (bind _ ?k) ?h s)) = _ =>
        assert (Hrest : emits not_attempt (k tt)) by emitting;
        assert (Hh : forall e, emits not_attempt (h e)) by emitting;
        unfold try_except;
        rewrite (bind_runs _ k _ _ _ _ (logger_runs (L_rendering (trace_of msg)) s));
        cbn [res final out app];
        destruct (res (k tt s)) as [e | a]; cbn [out app attempts];
        rewrite ?attempts_app, (attempts_none _ (Hrest s)),
          ?(attempts_none _ (Hh _ _)); reflexivity
    end.
Qed.

Lemma individual_loop_runs (origin : string) (messages : list pydict) :
  forall s,
    res (individual_loop origin messages s) = inr tt /\
    attempts (out (individual_loop origin messages s)) = map trace_of messages.
Proof.
  induction messages as [| msg rest IH]; intro s.
  - split; reflexivity.
  - cbn [individual_loop map]. unfold bind.
    destruct (send_one_runs origin msg s) as [Hres Hatt].
    rewrite Hres. cbn [res final out].
    destruct (IH (final (send_one origin msg s))) as [Hres' Hatt'].
    split; [exact Hres' |].
    rewrite attempts_app, Hatt, Hatt'. reflexivity.
Qed.

(** [send_individual_messages] tries every message it is given, in order,
    and never raises. *)
Lemma send_individual_messages_runs (messages : list pydict) (s : State) :
  res (send_individual_messages messages s) = inr tt /\
  attempts (out (send_individual_messages messages s)) = map trace_of messages.
Proof.
  unfold send_individual_messages.
  destruct (get_effective_platform_name_runs s) as [name Hname].
  run Hname. apply individual_loop_runs.
Qed.

(** The renderer gives an image for every message and the platform accepts
    every send. *)
Definition delivery_works : Prop :=
  (forall txt image template extra w,
     exists b bs, fst (render X txt image template extra w) = inr (Some (b :: bs))) /\
  (forall origin img w, fst (send_message X origin img w) = None).

Lemma send_one_sends (origin : string) (msg : pydict) (s : State) :
  delivery_works -> dict_has msg "message_text" = true ->
  length (sends (out (send_one origin msg s))) = 1.
Proof.
  intros [Hrender Hsend] Hhas.
  unfold dict_has in Hhas.
  destruct (dict_get msg "message_text") as [txt |] eqn:Htxt; [| discriminate].
  pose proof (render_message_runs msg s txt Htxt) as Hrun. cbv zeta in Hrun.
  match type of Hrun with
  | _ = mkResult (fst (render X ?a ?b ?c ?d ?w)) _ _ =>
      destruct (Hrender a b c d w) as (b0 & bs & Hr); rewrite Hr in Hrun
  end.
  unfold send_one.
  match goal with
  | |- context [try_except ?m ?h s] =>
      assert (Hbody : exists s' o, m s = mkResult (inr tt) s' o /\
                                   length (sends o) = 1)
  end.
  { match type of Hrun with
    | _ = mkResult _ ?sf _ => set (s2 := sf) in *
    end.
    run_log. run Hrun. run_emit.
    match goal with
    | |- context [bind (call_unit ?f) ?k ?s0] =>
        assert (Hcall : call_unit f s0 =
                        mkResult (inr tt) (with_world s0 (snd (f (world s0)))) [])
          by (rewrite call_unit_runs, Hsend; reflexivity);
        run Hcall
    end.
    run_log. rewrite emit_runs. cbn [res final out].
    eexists _, _. split; reflexivity. }
  destruct Hbody as (s' & o & Hm & Hlen).
  rewrite (try_passes _ _ _ tt) by (rewrite Hm; reflexivity).
  rewrite Hm. exact Hlen.
Qed.

Lemma individual_loop_sends (origin : string) (messages : list pydict) :
  delivery_works ->
  (forall msg, In msg messages -> dict_has msg "message_text" = true) ->
  forall s,
    length (sends (out (individual_loop origin messages s))) = length messages.
Proof.
  intros Hworks.
  induction messages as [| msg rest IH]; intros Hhas s.
  - reflexivity.
  - cbn [individual_loop]. unfold bind.
    destruct (send_one_runs origin msg s) as [Hres _].
    rewrite Hres. cbn [res final out].
    rewrite sends_app, length_app.
    rewrite send_one_sends by (auto; apply Hhas; left; reflexivity).
    rewrite IH by (intros m Hm; apply Hhas; right; exact Hm).
    reflexivity.
Qed.

(** ** The batch path *)

(** C6. When the batch path raises, [send_batch_messages] logs the failure
    and runs the individual path on the very same list: one attempt per
    message, in order, N attempts for N messages; nothing is raised; and
    when the renderer and the platform work, the N attempts are N calls of
    [context.send_message]. *)
Theorem batch_failure_falls_back (messages : list pydict) (s : State) (e : exn) :
  res (batch_try messages s) = inl e ->
  let failed := batch_try messages s in
  let individual := send_individual_messages messages (final failed) in
  let r := send_batch_messages messages s in
  res r = inr tt /\
  final r = final individual /\
  out r = out failed ++ Log (L_batch_failed e) :: out individual /\
  attempts (out individual) = map trace_of messages /\
  length (attempts (out individual)) = length messages /\
  (delivery_works ->
   (forall msg, In msg messages -> dict_has msg "message_text" = true) ->
   length (sends (out individual)) = length messages).
Proof.
  intros Hraise failed individual r.
  destruct (send_individual_messages_runs messages (final failed)) as [Hres Hatt].
  fold individual in Hres, Hatt.
  assert (Hr : r = mkResult (res individual) (final individual)
                     (out failed ++ Log (L_batch_failed e) :: out individual)).
  { unfold r, send_batch_messages, try_except. fold failed.
    unfold failed at 1. rewrite Hraise.
    unfold bind, logger, emit. cbn [res final out app]. reflexivity. }
  repeat split.
  - rewrite Hr. exact Hres.
  - rewrite Hr. reflexivity.
  - rewrite Hr. reflexivity.
  - exact Hatt.
  - rewrite Hatt. apply length_map.
  - intros Hworks Hhas.
    unfold individual, send_individual_messages, bind.
    destruct (get_effective_platform_name_runs (final failed)) as [name Hname].
    rewrite Hname. cbn [res final out app].
    apply individual_loop_sends; assumption.
Qed.

Lemma known_alias_names (name : string) :
  known_alias name = true <-> name = "llonebot" \/ name = "napcat".
Proof.
  unfold known_alias. cbn [existsb].
  destruct (String.eqb_spec name "llonebot") as [H1 | H1];
    destruct (String.eqb_spec name "napcat") as [H2 | H2]; cbn;
    split; intro H; auto; try discriminate.
  destruct H; contradiction.
Qed.

(** The lookup, case by case. *)
Lemma resolve_platform_runs (name : string) (s : State) :
  resolve_platform name s =
  match get_platform_inst X name (world s) with
  | Some p => mkResult (inr (Some p)) s []
  | None =>
      let tried := if known_alias name then [Log (L_try_aiocqhttp name)] else [] in
      match (if known_alias name
             then get_platform_inst X "aiocqhttp" (world s) else None) with
      | Some p => mkResult (inr (Some p)) s tried
      | None =>
          match platform_insts X (world s) with
          | p :: _ =>
              mkResult (inr (Some p)) s
                (tried ++ [Log (L_first_available name (meta_id p))])
          | [] => mkResult (inr None) s tried
          end
      end
  end.
Proof.
  unfold resolve_platform, bind, read, logger, emit, ret.
  cbn [res final out app].
  destruct (get_platform_inst X name (world s)) as [p |];
    cbn [res final out app]; [reflexivity |].
  destruct (known_alias name); cbn [res final out app].
  - destruct (get_platform_inst X "aiocqhttp" (world s)) as [p |];
      cbn [res final out app]; [reflexivity |].
    destruct (platform_insts X (world s)); reflexivity.
  - destruct (platform_insts X (world s)); reflexivity.
Qed.

(** The name that the lookup starts from: the configured one, or under
    ["auto"] the one inferred from the ids of the loaded instances. *)
Lemma effective_name_cases (s : State) :
  let ids := map meta_id (platform_insts X (world s)) in
  let has := fun p => existsb (fun id => str_contains p (lower id)) ids in
  exists name,
    get_effective_platform_name s = mkResult (inr name) s [] /\
    (platform_name cfg <> "auto" -> name = platform_name cfg) /\
    (platform_name cfg = "auto" ->
     (has "llonebot" = true -> name = "llonebot") /\
     (has "llonebot" = false -> has "napcat" = true -> name = "napcat") /\
     (has "llonebot" = false -> has "napcat" = false ->
      has "aiocqhttp" = true -> name = "aiocqhttp") /\
     (has "llonebot" = false -> has "napcat" = false ->
      has "aiocqhttp" = false ->
      name = match ids with a :: _ => a | [] => "llonebot" end)).
Proof.
  intros ids has. unfold get_effective_platform_name.
  destruct (String.eqb_spec (platform_name cfg) "auto") as [Hauto | Hother].
  - unfold bind, read. cbn [res final out app]. fold ids.
    cbn [find]. fold (has "llonebot") (has "napcat") (has "aiocqhttp").
    destruct (has "llonebot") eqn:H1; [| destruct (has "napcat") eqn:H2;
      [| destruct (has "aiocqhttp") eqn:H3]];
      eexists; (split; [reflexivity |]);
      (split; [intro H; destruct (H Hauto) |]);
      intros _; repeat split; intros; try reflexivity; try discriminate.
  - eexists. split; [reflexivity |].
    split; [reflexivity | intro H; destruct (Hother H)].
Qed.

(** The batch send with a client: the adapter is created and the package
    is handed to it with that client. *)
Lemma forward_with_client (rendered : list pydict) (s : State) (name : string)
    (p : Platform) (looking : list event) (bot adapter : string) :
  rendered <> [] ->
  get_effective_platform_name s = mkResult (inr name) s [] ->
  resolve_platform name s = mkResult (inr (Some p)) s looking ->
  get_client p = Some bot ->
  fst (create_adapter X name (world s)) = inr adapter ->
  exists rest,
    out (forward rendered s) =
    Log (L_platform name) :: looking ++
    [Log L_creating_adapter; Log (L_adapter_created adapter);
     SendForward adapter bot (replace_colon (group_id cfg)) rendered
       (sender_id cfg) (sender_name cfg)] ++ rest /\
    (rest = [] \/ exists result, rest = [Log (L_send_result result)]).
Proof.
  intros Hne Hname Hresolve Hclient Hadapter.
  destruct rendered as [| entry entries]; [congruence |].
  assert (Hcreate : call (create_adapter X name) s =
                    mkResult (inr adapter)
                      (with_world s (snd (create_adapter X name (world s)))) []).
  { rewrite call_runs, Hadapter. reflexivity. }
  unfold forward.
  run Hname. run_log. run Hresolve. rewrite Hclient.
  run_log. run Hcreate. run_log. run_emit.
  eexists. split; [reflexivity |].
  unfold bind. rewrite call_runs. cbn [res final out].
  destruct (fst (send_forward_messages X _ _ _ _ _ _ _)) as [e | result];
    cbn [out app]; [left; reflexivity | right; eexists; reflexivity].
Qed.

(** The batch send without a client: an error line, and that is all. *)
Lemma forward_without_client (rendered : list pydict) (s : State) (name : string)
    (platform : option Platform) (looking : list event) :
  rendered <> [] ->
  get_effective_platform_name s = mkResult (inr name) s [] ->
  resolve_platform name s = mkResult (inr platform) s looking ->
  match platform with Some p => get_client p | None => None end = None ->
  forward rendered s =
  mkResult (inr tt) s (Log (L_platform name) :: looking ++ [Log L_no_bot]).
Proof.
  intros Hne Hname Hresolve Hclient.
  destruct rendered as [| entry entries]; [congruence |].
  unfold forward.
  run Hname. run_log. run Hresolve. rewrite Hclient.
  rewrite logger_runs. reflexivity.
Qed.

(** C8. The platform for a batch send is looked up in this order.  The
    name looked up first is the configured one or, under ["auto"], the one
    inferred from the loaded instances (the first of llonebot, napcat,
    aiocqhttp found inside a lower-cased id, else the first id, else
    llonebot).  If no instance has that name then, only for the aliases
    llonebot and napcat, ["aiocqhttp"] is looked up; then the first
    platform instance there is.  The batch makes one forward send, through
    the client of the instance found.  With no instance, or an instance without a
    client, the send is given up with an error log line, nothing is raised
    (so there is no individual fallback either) and the queue is left as
    it is. *)
Theorem platform_fallback_order (rendered : list pydict) (s : State) :
  rendered <> [] ->
  let w := world s in
  let ids := map meta_id (platform_insts X w) in
  let has := fun p => existsb (fun id => str_contains p (lower id)) ids in
  exists name,
    get_effective_platform_name s = mkResult (inr name) s [] /\
    (platform_name cfg <> "auto" -> name = platform_name cfg) /\
    (platform_name cfg = "auto" ->
     (has "llonebot" = true -> name = "llonebot") /\
     (has "llonebot" = false -> has "napcat" = true -> name = "napcat") /\
     (has "llonebot" = false -> has "napcat" = false ->
      has "aiocqhttp" = true -> name = "aiocqhttp") /\
     (has "llonebot" = false -> has "napcat" = false ->
      has "aiocqhttp" = false ->
      name = match ids with a :: _ => a | [] => "llonebot" end)) /\
    let r := resolve_platform name s in
    final r = s /\
    (forall p, get_platform_inst X name w = Some p -> res r = inr (Some p)) /\
    (forall p,
       get_platform_inst X name w = None ->
       known_alias name = true ->
       get_platform_inst X "aiocqhttp" w = Some p ->
       res r = inr (Some p)) /\
    (forall p rest,
       get_platform_inst X name w = None ->
       (known_alias name = true -> get_platform_inst X "aiocqhttp" w = None) ->
       platform_insts X w = p :: rest ->
       res r = inr (Some p) /\
       In (Log (L_first_available name (meta_id p))) (out r)) /\
    (get_platform_inst X name w = None ->
     (known_alias name = true -> get_platform_inst X "aiocqhttp" w = None) ->
     platform_insts X w = [] ->
     res r = inr None) /\
    (forall p bot adapter,
       res r = inr (Some p) ->
       get_client p = Some bot ->
       fst (create_adapter X name w) = inr adapter ->
       exists group rest,
         out (forward rendered s) =
           Log (L_platform name) :: out r ++
           [Log L_creating_adapter; Log (L_adapter_created adapter);
            SendForward adapter bot group rendered (sender_id cfg)
              (sender_name cfg)] ++ rest /\
         (rest = [] \/ exists result, rest = [Log (L_send_result result)])) /\
    (forall platform,
       res r = inr platform ->
       match platform with Some p => get_client p | None => None end = None ->
       forward rendered s =
       mkResult (inr tt) s (Log (L_platform name) :: out r ++ [Log L_no_bot])) /\
    (known_alias name = true <-> name = "llonebot" \/ name = "napcat") /\
    (forall messages,
       message_queue (final (send_batch_messages messages s)) = message_queue s /\
       kv_store (final (send_batch_messages messages s)) = kv_store s).
Proof.
  intros Hne w ids has.
  destruct (effective_name_cases s) as (name & Hname & Hgiven & Hauto).
  exists name.
  split; [exact Hname |]. split; [exact Hgiven |]. split; [exact Hauto |].
  intro r.
  pose proof (resolve_platform_runs name s) as Hr. fold w r in Hr.
  assert (Hlast : get_platform_inst X name w = None ->
                  (known_alias name = true ->
                   get_platform_inst X "aiocqhttp" w = None) ->
                  (if known_alias name
                   then get_platform_inst X "aiocqhttp" w else None) = None).
  { intros _ Hgeneric. destruct (known_alias name); auto. }
  assert (Hfinal : final r = s).
  { rewrite Hr. clear Hr Hlast.
    destruct (get_platform_inst X name w); [reflexivity |].
    cbv zeta.
    destruct (known_alias name);
      [destruct (get_platform_inst X "aiocqhttp" w); [reflexivity |] |];
      destruct (platform_insts X w); reflexivity. }
  assert (Hrun : forall platform,
            res r = inr platform ->
            resolve_platform name s = mkResult (inr platform) s (out r)).
  { intros platform Hres. fold r.
    transitivity (mkResult (res r) (final r) (out r));
      [symmetry; apply result_eta | rewrite Hres, Hfinal; reflexivity]. }
  split; [exact Hfinal |].
  split.
  { intros p Hp. rewrite Hr, Hp. reflexivity. }
  split.
  { intros p Hnone Halias Hp. rewrite Hr, Hnone, Halias, Hp. reflexivity. }
  split.
  { intros p rest Hnone Hgeneric Hinsts.
    rewrite Hr, Hnone. cbv zeta.
    rewrite (Hlast Hnone Hgeneric), Hinsts. cbn [res out].
    split; [reflexivity |].
    apply in_or_app. right. left. reflexivity. }
  split.
  { intros Hnone Hgeneric Hinsts.
    rewrite Hr, Hnone. cbv zeta.
    rewrite (Hlast Hnone Hgeneric), Hinsts. reflexivity. }
  split.
  { intros p bot adapter Hres Hclient Hadapter.
    destruct (forward_with_client rendered s name p (out r) bot adapter
                Hne Hname (Hrun _ Hres) Hclient Hadapter) as (rest & Hout & Hrest).
    exists (replace_colon (group_id cfg)), rest. split; assumption. }
  split.
  { intros platform Hres Hclient.
    exact (forward_without_client rendered s name platform (out r)
             Hne Hname (Hrun _ Hres) Hclient). }
  split; [apply known_alias_names |].
  intro messages. apply keeps_send_batch_messages.
Qed.

(** ** Enrichment *)

Lemma bind_ext {A B} (m : M A) (k k' : A -> M B) (s : State) :
  (forall a s', k a s' = k' a s') -> bind m k s = bind m k' s.
Proof.
  intro H. unfold bind.
  destruct (res (m s)); [reflexivity | rewrite H; reflexivity].
Qed.

Lemma bind_assoc {A B C} (m : M A) (k : A -> M B) (h : B -> M C) (s : State) :
  bind (bind m k) h s = bind m (fun a => bind (k a) h) s.
Proof.
  unfold bind.
  destruct (res (m s)) as [e | a]; cbn [res final out]; [reflexivity |].
  destruct (res (k a (final (m s)))) as [e | b]; cbn [res final out];
    [reflexivity |].
  rewrite app_assoc. reflexivity.
Qed.

(** The loop over two lists in a row is the loop over the first, then the
    loop over the second from where the first stopped. *)
Lemma enrich_loop_app (before after : list pydict) :
  forall acc s,
    enrich_loop (before ++ after) acc s =
    bind (enrich_loop before acc) (enrich_loop after) s.
Proof.
  induction before as [| m before IH]; intros acc s.
  - cbn [app enrich_loop]. symmetry. apply bind_ret_l.
  - cbn [app enrich_loop].
    rewrite (bind_ext _ _ (fun acc' => bind (enrich_loop before acc')
                                          (enrich_loop after)))
      by (intros; apply IH).
    symmetry. apply bind_assoc.
Qed.





(** ** A collaborator that fails *)

(** The collaborator of a raw record, called in world [w], raises [e]. *)
Definition collaborator_raises (msg : pydict) (w : W) (e : exn) : Prop :=
  let m_type := dict_get_default msg "message_type" PNone in
  if py_eq_str m_type "raw_media" then
    fst (detect_and_process_raw_data X msg w) = inl e
  else if py_eq_str m_type "raw_game" then
    exists raw_data,
      dict_get msg "raw_data" = Some raw_data /\
      fst (process_game_webhook X raw_data
             (dict_get_default msg "headers" PNone) w) = inl e
  else False.

(** The collaborator of a raw record, called in world [w], returns a falsy
    value ([None] or an empty dict). *)
Definition collaborator_declines (msg : pydict) (w : W) : Prop :=
  let m_type := dict_get_default msg "message_type" PNone in
  if py_eq_str m_type "raw_media" then
    exists p, fst (detect_and_process_raw_data X msg w) = inr p /\
              dict_truthy p = false
  else if py_eq_str m_type "raw_game" then
    exists raw_data p,
      dict_get msg "raw_data" = Some raw_data /\
      fst (process_game_webhook X raw_data
             (dict_get_default msg "headers" PNone) w) = inr p /\
      dict_truthy p = false
  else False.

Lemma keep_processed_falsy acc p finish :
  dict_truthy p = false -> keep_processed acc p finish = acc.
Proof. destruct p as [[| kv d] |]; [reflexivity | discriminate | reflexivity]. Qed.

Lemma enrich_one_raises (acc : list pydict) (msg : pydict) (s : State) (e : exn) :
  collaborator_raises msg (world s) e ->
  res (enrich_one acc msg s) = inl e.
Proof.
  unfold collaborator_raises, enrich_one.
  destruct (py_eq_str _ "raw_media").
  - intro H. unfold bind, logger, emit, call. cbn.
    destruct (detect_and_process_raw_data X msg (world s)) as [a w1].
    cbn in *. subst a. reflexivity.
  - destruct (py_eq_str _ "raw_game"); [| intros []].
    intros (raw_data & Hraw & H). rewrite Hraw.
    unfold bind, logger, emit, call. cbn.
    destruct (process_game_webhook X raw_data _ (world s)) as [a w1].
    cbn in *. subst a. reflexivity.
Qed.

Lemma enrich_one_declined (acc : list pydict) (msg : pydict) (s : State) :
  collaborator_declines msg (world s) ->
  res (enrich_one acc msg s) = inr acc.
Proof.
  unfold collaborator_declines, enrich_one.
  destruct (py_eq_str _ "raw_media").
  - intros (p & H & Hp). unfold bind, logger, emit, call. cbn.
    destruct (detect_and_process_raw_data X msg (world s)) as [a w1].
    cbn in *. subst a. cbn. rewrite keep_processed_falsy by exact Hp.
    reflexivity.
  - destruct (py_eq_str _ "raw_game"); [| intros []].
    intros (raw_data & p & Hraw & H & Hp). rewrite Hraw.
    unfold bind, logger, emit, call. cbn.
    destruct (process_game_webhook X raw_data _ (world s)) as [a w1].
    cbn in *. subst a. cbn. rewrite keep_processed_falsy by exact Hp.
    reflexivity.
Qed.

(** A raise inside the enrichment loop ends the cycle where it happens. *)
Lemma process_captured_raises (before after : list pydict) (msg : pydict)
    (s : State) (fm : list pydict) (e : exn) :
  res (enrich_loop before [] s) = inr fm ->
  res (enrich_one fm msg (final (enrich_loop before [] s))) = inl e ->
  let one := enrich_one fm msg (final (enrich_loop before [] s)) in
  process_captured (before ++ msg :: after) s =
  mkResult (inl e) (final one) (out (enrich_loop before [] s) ++ out one).
Proof.
  intros Hbefore Hone one.
  assert (Hb : enrich_loop before [] s =
               mkResult (inr fm) (final (enrich_loop before [] s))
                 (out (enrich_loop before [] s))).
  { rewrite <- Hbefore. symmetry. apply result_eta. }
  assert (Ho : enrich_one fm msg (final (enrich_loop before [] s)) =
               mkResult (inl e) (final one) (out one)).
  { rewrite <- Hone. symmetry. apply result_eta. }
  assert (Hloop : enrich_loop (before ++ msg :: after) [] s =
                  mkResult (inl e) (final one)
                    (out (enrich_loop before [] s) ++ out one)).
  { rewrite enrich_loop_app, (bind_runs _ _ _ _ _ _ Hb).
    cbn [enrich_loop]. rewrite (bind_raises _ _ _ _ _ _ Ho). reflexivity. }
  unfold process_captured. rewrite (bind_raises _ _ _ _ _ _ Hloop).
  reflexivity.
Qed.

(** An event other than those of the delivery step: the log line that
    opens an attempt, a render, a call of [context.send_message] and a
    forward send. *)
Definition not_dispatch (e : event) : Prop :=
  match e with
  | Log (L_rendering _) | Render _ _ _ _ | SendMessage _ _
  | SendForward _ _ _ _ _ _ => False
  | _ => True
  end.

Lemma enrich_one_no_dispatch acc msg : emits not_dispatch (enrich_one acc msg).
Proof. unfold enrich_one. emitting. Qed.

Lemma enrich_loop_no_dispatch msgs :
  forall acc, emits not_dispatch (enrich_loop msgs acc).
Proof.
  induction msgs as [| msg rest IH]; intro acc; cbn [enrich_loop];
    [apply emits_ret |].
  apply emits_bind; [apply enrich_one_no_dispatch | exact IH].
Qed.

Lemma _save_queue_no_dispatch (s : State) : Forall not_dispatch (out (_save_queue s)).
Proof.
  rewrite _save_queue_runs.
  destruct (put_kv_data X (message_queue s) (world s)) as [[e |] w];
    repeat constructor.
Qed.

(** The delivery step never raises: the batch path falls back on the
    individual path, and that one catches message by message. *)
Lemma send_intelligently_res (messages : list pydict) (s : State) :
  res (send_intelligently messages s) = inr tt.
Proof.
  unfold send_intelligently.
  destruct (Nat.leb (batch_min_size cfg) (length messages));
    [| apply send_individual_messages_runs].
  unfold send_batch_messages. apply try_except_safe.
  intros e s'. run_log. apply send_individual_messages_runs.
Qed.

(** A cycle whose enrichment loop completes: the records it built, if any,
    are announced and handed to the delivery step, all in one list. *)
Lemma process_captured_runs (msgs : list pydict) (s : State) (fm : list pydict) :
  res (enrich_loop msgs [] s) = inr fm ->
  let enriched := enrich_loop msgs [] s in
  res (process_captured msgs s) = inr tt /\
  out (process_captured msgs s) =
    out enriched ++
    match fm with
    | [] => []
    | _ :: _ =>
        Log (L_batch_begin (length fm)) ::
        out (send_intelligently fm (final enriched))
    end.
Proof.
  intros Hres enriched.
  assert (Henrich : enrich_loop msgs [] s =
                    mkResult (inr fm) (final enriched) (out enriched)).
  { rewrite <- Hres. symmetry. apply result_eta. }
  unfold process_captured. run Henrich.
  destruct fm as [| m ms].
  - rewrite bind_ret_l. run_ask. split; reflexivity.
  - set (announce := L_batch_begin (length (m :: ms))).
    assert (Hsend : (logger announce ;;; send_intelligently (m :: ms))
                      (final enriched) =
                    mkResult (inr tt)
                      (final (send_intelligently (m :: ms) (final enriched)))
                      (Log announce ::
                       out (send_intelligently (m :: ms) (final enriched)))).
    { run_log. rewrite send_intelligently_res. reflexivity. }
    run Hsend. run_ask. cbn [set_last_batch_time res out].
    rewrite app_nil_r. split; reflexivity.
Qed.

Lemma batch_processor_turn_res (s : State) : res (batch_processor_turn s) = inr tt.
Proof.
  unfold batch_processor_turn, try_except.
  destruct (res (bind _ _ s)) as [e | []] eqn:E.
  - reflexivity.
  - exact E.
Qed.

Lemma start_batch_processor_res (turns : nat) :
  forall s, res (start_batch_processor turns s) = inr tt.
Proof.
  induction turns as [| n IH]; intro s; [reflexivity |].
  cbn [start_batch_processor]. unfold bind.
  rewrite batch_processor_turn_res. cbn [res]. apply IH.
Qed.

(** C7, as the code has it.  A collaborator that returns a falsy value for
    a raw record drops that record only: the record is never rendered or
    sent, the loop goes on with the records after it and, when no later
    call raises, the records built from the rest of the batch are handed
    to the delivery step in one list.  A collaborator that raises is not
    caught inside [process_message_queue]: the cycle ends there, the
    records after it are not enriched, nothing of the drained batch is
    rendered, sent or put back, and the exception is caught and logged by
    the turn of [start_batch_processor], which pauses ten seconds; the
    scheduler loop itself never ends on an exception. *)
Theorem collaborator_failure (before after : list pydict) (msg : pydict)
    (s : State) (fm : list pydict) :
  message_queue s = before ++ msg :: after ->
  group_id cfg <> "" ->
  let drained := final (drain s) in
  res (enrich_loop before [] drained) = inr fm ->
  let s1 := final (enrich_loop before [] drained) in
  let one := enrich_one fm msg s1 in
  (collaborator_declines msg (world s1) ->
   res one = inr fm /\
   res (enrich_loop (before ++ msg :: after) [] drained) =
     res (enrich_loop after fm (final one)) /\
   final (enrich_loop (before ++ msg :: after) [] drained) =
     final (enrich_loop after fm (final one)) /\
   Forall not_dispatch (out one) /\
   forall final_messages,
     res (enrich_loop after fm (final one)) = inr final_messages ->
     let rest := enrich_loop after fm (final one) in
     res (process_message_queue s) = inr tt /\
     out (process_message_queue s) =
       out (drain s) ++ out (enrich_loop before [] drained) ++ out one ++
       out rest ++
       match final_messages with
       | [] => []
       | _ :: _ =>
           Log (L_batch_begin (length final_messages)) ::
           out (send_intelligently final_messages (final rest))
       end) /\
  (forall e,
     collaborator_raises msg (world s1) e ->
     let r := batch_processor_turn s in
     res (process_message_queue s) = inl e /\
     res r = inr tt /\
     message_queue (final r) = [] /\
     out r =
       Sleep (1000 * batch_interval_seconds cfg) ::
       out (drain s) ++ out (enrich_loop before [] drained) ++ out one ++
       [Log (L_processor_error e); Sleep 10000] /\
     Forall not_dispatch (out r)) /\
  (forall turns s', res (start_batch_processor turns s') = inr tt).
Proof.
  intros Hqueue Hgroup drained Hbefore s1 one.
  assert (Hne : message_queue s <> []).
  { rewrite Hqueue. destruct before; discriminate. }
  destruct (drain_runs s Hne Hgroup) as (Hdres & Hdfin & Hdout).
  assert (Hdq : message_queue drained = []).
  { unfold drained. rewrite Hdfin. apply _save_queue_queue. }
  assert (Hd : drain s = mkResult (inr (Some (before ++ msg :: after)))
                           drained (out (drain s))).
  { rewrite <- Hqueue, <- Hdres. symmetry. apply result_eta. }
  assert (Hb : enrich_loop before [] drained =
               mkResult (inr fm) s1 (out (enrich_loop before [] drained))).
  { rewrite <- Hbefore. symmetry. apply result_eta. }
  split; [| split].
  - intro Hdecl.
    assert (Hone : res one = inr fm) by (apply enrich_one_declined; exact Hdecl).
    split; [exact Hone |].
    assert (Ho : enrich_one fm msg s1 = mkResult (inr fm) (final one) (out one)).
    { rewrite <- Hone. symmetry. apply result_eta. }
    assert (Hloop : enrich_loop (before ++ msg :: after) [] drained =
                    mkResult (res (enrich_loop after fm (final one)))
                      (final (enrich_loop after fm (final one)))
                      (out (enrich_loop before [] drained) ++ out one ++
                       out (enrich_loop after fm (final one)))).
    { rewrite enrich_loop_app, (bind_runs _ _ _ _ _ _ Hb).
      cbn [enrich_loop].
      rewrite (bind_runs _ _ _ _ _ _ Ho). cbn [res final out]. reflexivity. }
    split; [rewrite Hloop; reflexivity |].
    split; [rewrite Hloop; reflexivity |].
    split; [apply enrich_one_no_dispatch |].
    intros final_messages Hrest rest.
    assert (Hall : res (enrich_loop (before ++ msg :: after) [] drained) =
                   inr final_messages).
    { rewrite Hloop. exact Hrest. }
    destruct (process_captured_runs _ drained final_messages Hall)
      as [Hcres Hcout].
    assert (Hcaptured : process_captured (before ++ msg :: after) drained =
                        mkResult (inr tt)
                          (final (process_captured (before ++ msg :: after) drained))
                          (out (process_captured (before ++ msg :: after) drained))).
    { rewrite <- Hcres. symmetry. apply result_eta. }
    unfold process_message_queue. run Hd.
    rewrite Hcout, Hloop. cbn [res final out].
    split; [exact Hcres |].
    rewrite <- !app_assoc. reflexivity.
  - intros e Hraise r.
    assert (Hone : res one = inl e) by (apply enrich_one_raises; exact Hraise).
    assert (Hcycle : process_message_queue s =
                     mkResult (inl e) (final one)
                       (out (drain s) ++
                        out (enrich_loop before [] drained) ++ out one)).
    { unfold process_message_queue. run Hd.
      rewrite (process_captured_raises before after msg drained fm e Hbefore Hone).
      cbn [res final out]. reflexivity. }
    assert (Hturn : r = mkResult (inr tt) (final one)
                          (Sleep (1000 * batch_interval_seconds cfg) ::
                           out (drain s) ++
                           out (enrich_loop before [] drained) ++ out one ++
                           [Log (L_processor_error e); Sleep 10000])).
    { assert (Hblock : (emit (Sleep (1000 * batch_interval_seconds cfg)) ;;;
                        process_message_queue) s =
                       mkResult (inl e) (final one)
                         (Sleep (1000 * batch_interval_seconds cfg) ::
                          out (drain s) ++
                          out (enrich_loop before [] drained) ++ out one)).
      { run_emit. rewrite Hcycle. reflexivity. }
      unfold r, batch_processor_turn.
      rewrite (try_catches _ _ _ _ _ _ Hblock).
      run_log. rewrite emit_runs. cbn [res final out app].
      rewrite <- !app_assoc. reflexivity. }
    split; [rewrite Hcycle; reflexivity |].
    rewrite Hturn. cbn [res final out].
    split; [reflexivity |].
    split.
    { unfold one.
      rewrite (proj1 (keeps_enrich_one fm msg s1)). unfold s1.
      rewrite (proj1 (keeps_enrich_loop before [] drained)). exact Hdq. }
    split; [reflexivity |].
    constructor; [exact I |].
    apply Forall_app. split; [rewrite Hdout; apply _save_queue_no_dispatch |].
    apply Forall_app. split; [apply enrich_loop_no_dispatch |].
    apply Forall_app. split; [apply enrich_one_no_dispatch |].
    repeat constructor.
  - apply start_batch_processor_res.
Qed.


(** ** Further properties of the pipeline *)

(** An event other than a write to the KV store. *)
Definition not_kv_write (e : event) : Prop :=
  match e with KvPut _ _ => False | _ => True end.

Lemma kv_writes_app (a b : list event) :
  kv_writes (a ++ b) = kv_writes a ++ kv_writes b.
Proof.
  induction a as [| ev a IH]; [reflexivity |].
  destruct ev; try exact IH.
  cbn [app kv_writes]. rewrite IH. reflexivity.
Qed.

Lemma kv_writes_none (evs : list event) :
  Forall not_kv_write evs -> kv_writes evs = [].
Proof.
  induction 1 as [| ev evs Hev _ IH]; [reflexivity |].
  destruct ev; try exact IH. destruct Hev.
Qed.

Lemma get_effective_platform_name_no_write :
  emits not_kv_write get_effective_platform_name.
Proof. unfold get_effective_platform_name. emitting. Qed.

Lemma render_message_no_write msg : emits not_kv_write (render_message msg).
Proof. unfold render_message. emitting. Qed.

#[local] Hint Resolve get_effective_platform_name_no_write
  render_message_no_write : emits.

Lemma send_one_no_write origin msg : emits not_kv_write (send_one origin msg).
Proof. unfold send_one. emitting. Qed.

#[local] Hint Resolve send_one_no_write : emits.

Lemma individual_loop_no_write origin msgs :
  emits not_kv_write (individual_loop origin msgs).
Proof. induction msgs as [| msg rest IH]; cbn [individual_loop]; emitting. Qed.

#[local] Hint Resolve individual_loop_no_write : emits.

Lemma send_individual_messages_no_write msgs :
  emits not_kv_write (send_individual_messages msgs).
Proof. unfold send_individual_messages. emitting. Qed.

Lemma render_all_no_write msgs :
  forall rendered, emits not_kv_write (render_all msgs rendered).
Proof. induction msgs as [| msg rest IH]; cbn [render_all]; emitting. Qed.

Lemma resolve_platform_no_write name : emits not_kv_write (resolve_platform name).
Proof. unfold resolve_platform. emitting. Qed.

#[local] Hint Resolve send_individual_messages_no_write render_all_no_write
  resolve_platform_no_write : emits.

Lemma forward_no_write rendered : emits not_kv_write (forward rendered).
Proof. unfold forward. emitting. Qed.

#[local] Hint Resolve forward_no_write : emits.

Lemma send_batch_messages_no_write msgs :
  emits not_kv_write (send_batch_messages msgs).
Proof. unfold send_batch_messages, batch_try. emitting. Qed.

#[local] Hint Resolve send_batch_messages_no_write : emits.

Lemma send_intelligently_no_write msgs :
  emits not_kv_write (send_intelligently msgs).
Proof. unfold send_intelligently. emitting. Qed.

Lemma enrich_one_no_write acc msg : emits not_kv_write (enrich_one acc msg).
Proof. unfold enrich_one. emitting. Qed.

#[local] Hint Resolve send_intelligently_no_write enrich_one_no_write : emits.

Lemma enrich_loop_no_write msgs :
  forall acc, emits not_kv_write (enrich_loop msgs acc).
Proof. induction msgs as [| msg rest IH]; cbn [enrich_loop]; emitting. Qed.

#[local] Hint Resolve enrich_loop_no_write : emits.

Lemma process_captured_no_write msgs : emits not_kv_write (process_captured msgs).
Proof. unfold process_captured. emitting. Qed.


(** What a whole cycle does to the queue and to the KV entry. *)
Lemma process_message_queue_effect (s : State) :
  group_id cfg <> "" ->
  message_queue (final (process_message_queue s)) = [] /\
  (kv_writes (out (process_message_queue s)) = [] \/
   kv_writes (out (process_message_queue s)) = [[]]).
Proof.
  intro Hgroup.
  destruct (list_eq_dec_nil (message_queue s)) as [Hq | Hq].
  - unfold process_message_queue.
    run (drain_idle s (or_introl Hq)). cbn [ret res final out].
    split; [exact Hq | left; reflexivity].
  - destruct (drain_runs s Hq Hgroup) as (Hres & Hfin & Hout).
    assert (Hd : drain s = mkResult (inr (Some (message_queue s)))
                             (final (drain s)) (out (drain s))).
    { rewrite <- Hres. symmetry. apply result_eta. }
    unfold process_message_queue. run Hd.
    split.
    + rewrite (proj1 (keeps_process_captured _ _)), Hfin.
      apply _save_queue_queue.
    + right. rewrite kv_writes_app.
      rewrite (kv_writes_none _ (process_captured_no_write _ _)), app_nil_r.
      rewrite Hout, _save_queue_runs.
      cbn [world message_queue].
      destruct (put_kv_data X [] (world s)) as [[e |] w]; reflexivity.
Qed.

(** After a cycle with a group configured the queue is empty, whatever the
    collaborators answered or raised: nothing drained is ever put back.  The
    only value a cycle writes to the KV entry is the empty list, once; the
    turn of the scheduler loop around it adds no write. *)
Theorem cycle_never_requeues (s : State) :
  group_id cfg <> "" ->
  let r := process_message_queue s in
  let t := batch_processor_turn s in
  message_queue (final r) = [] /\
  (kv_writes (out r) = [] \/ kv_writes (out r) = [[]]) /\
  message_queue (final t) = [] /\
  kv_writes (out t) = kv_writes (out r).
Proof.
  intros Hgroup r t.
  destruct (process_message_queue_effect s Hgroup) as [Hq Hkv].
  fold r in Hq, Hkv.
  split; [exact Hq |]. split; [exact Hkv |].
  assert (Hblock : (emit (Sleep (1000 * batch_interval_seconds cfg)) ;;;
                    process_message_queue) s =
                   mkResult (res r) (final r)
                     (Sleep (1000 * batch_interval_seconds cfg) :: out r)).
  { run_emit. reflexivity. }
  unfold t, batch_processor_turn, try_except. rewrite Hblock.
  cbn [res final out].
  destruct (res r) as [e | []]; cbn [res final out].
  - run_log. rewrite emit_runs. cbn [res final out].
    split; [exact Hq |].
    cbn [kv_writes]. rewrite kv_writes_app. cbn [kv_writes]. apply app_nil_r.
  - split; [exact Hq | reflexivity].
Qed.


(** ** Persistence *)

(** A write to the KV store that raises costs nothing in memory: the record
    is in the queue, the KV entry keeps its old value, the failure is logged
    and [_enqueue] returns normally; the next write that lands stores the
    whole queue, the earlier record included. *)
Theorem failed_write_keeps_record (msg : pydict) (s : State) (e : exn) :
  fst (put_kv_data X (message_queue s ++ [msg]) (world s)) = Some e ->
  let r := _enqueue msg s in
  res r = inr tt /\
  message_queue (final r) = message_queue s ++ [msg] /\
  kv_store (final r) = kv_store s /\
  out r = [KvPut (message_queue s ++ [msg]) false; Log (L_save_failed e)] /\
  (forall msg2,
     fst (put_kv_data X ((message_queue s ++ [msg]) ++ [msg2]) (world (final r)))
       = None ->
     kv_store (final (_enqueue msg2 (final r)))
       = Some (message_queue s ++ [msg; msg2])).
Proof.
  intros Hput r.
  assert (Hq : message_queue (final r) = message_queue s ++ [msg])
    by apply _enqueue_queue.
  split; [apply _enqueue_res |]. split; [exact Hq |].
  assert (Hr : kv_store (final r) = kv_store s /\
               out r = [KvPut (message_queue s ++ [msg]) false;
                        Log (L_save_failed e)]).
  { unfold r, _enqueue, bind, get_queue, set_queue.
    cbn [res final out app]. rewrite _save_queue_runs.
    cbn [world message_queue kv_store last_batch_time].
    destruct (put_kv_data X (message_queue s ++ [msg]) (world s)) as [[e' |] w].
    - cbn [fst] in Hput. injection Hput as ->. split; reflexivity.
    - discriminate Hput. }
  destruct Hr as [Hkv Hout].
  split; [exact Hkv |]. split; [exact Hout |].
  intros msg2 Hput2.
  rewrite _enqueue_persists by (rewrite Hq; exact Hput2).
  rewrite Hq, <- app_assoc. reflexivity.
Qed.

(** The KV store accepts every write. *)
Definition store_works : Prop := forall q w, fst (put_kv_data X q w) = None.

(** The KV entry holds the queue as it is in memory. *)
Definition in_sync (s : State) : Prop := kv_store s = Some (message_queue s).

Lemma qstep_run_in_sync (a : qstep) (s : State) :
  store_works -> in_sync s -> in_sync (final (qstep_run a s)).
Proof.
  intros Hstore Hsync. unfold in_sync. destruct a as [msg |].
  - unfold qstep_run, bind. rewrite _enqueue_res. cbn [res final ret].
    rewrite _enqueue_persists by apply Hstore.
    rewrite _enqueue_queue. reflexivity.
  - unfold qstep_run.
    destruct (list_eq_dec_nil (message_queue s)) as [Hq | Hq].
    { rewrite drain_idle by (left; exact Hq). exact Hsync. }
    destruct (String.eqb_spec (group_id cfg) "") as [Hg | Hg].
    { rewrite drain_idle by (right; exact Hg). exact Hsync. }
    destruct (drain_runs s Hq Hg) as (_ & Hfin & _).
    rewrite Hfin, _save_queue_runs.
    cbn [world message_queue kv_store last_batch_time].
    pose proof (Hstore [] (world s)) as Hput.
    destruct (put_kv_data X [] (world s)) as [[e |] w];
      [discriminate Hput | reflexivity].
Qed.

Lemma run_schedule_in_sync (sched : list qstep) :
  store_works ->
  forall s, in_sync s -> in_sync (snd (run_schedule sched s)).
Proof.
  intro Hstore. induction sched as [| a rest IH]; intros s Hsync.
  - exact Hsync.
  - cbn [run_schedule].
    specialize (IH _ (qstep_run_in_sync a s Hstore Hsync)).
    destruct (run_schedule rest (final (qstep_run a s))) as [batches s'].
    exact IH.
Qed.

(** With a KV store that accepts every write, the KV entry follows the queue
    through any interleaving of appends and drains; so a process restarted
    at any point between two steps starts with exactly the records that
    were pending, in order, and with none of the records already drained. *)
Theorem restart_recovers_pending (sched : list qstep) (s : State)
    (w' : W) (now : float) :
  store_works ->
  in_sync s ->
  fst (get_kv_data X w') = None ->
  let s' := snd (run_schedule sched s) in
  kv_store s' = Some (message_queue s') /\
  message_queue (final (initialize (fresh_process w' (kv_store s') now)))
    = message_queue s' /\
  concat (fst (run_schedule sched s)) ++
    message_queue (final (initialize (fresh_process w' (kv_store s') now)))
    = message_queue s ++ arrivals sched.
Proof.
  intros Hstore Hsync Hget s'.
  assert (Hs' : in_sync s') by (apply run_schedule_in_sync; assumption).
  assert (Hrestored :
            message_queue (final (initialize (fresh_process w' (kv_store s') now)))
            = message_queue s').
  { rewrite initialize_queue by exact Hget.
    cbn [fresh_process message_queue kv_store]. rewrite Hs'. reflexivity. }
  split; [exact Hs' |]. split; [exact Hrestored |].
  rewrite Hrestored. apply run_schedule_conserves.
Qed.


(** ** Requests that are not queued *)

Lemma raise_runs {A} (e : exn) (s : State) :
  @raise A e s = mkResult (inl e) s [].
Proof. reflexivity. Qed.

(** Reduces a [try] whose block is shown to raise [e] in state [s'] after
    the events [o]. *)
Ltac catch_block e s' o :=
  match goal with
  | |- try_except ?m ?h ?s0 = ?rhs =>
      let Hb := fresh "Hb" in
      assert (Hb : m s0 = mkResult (inl e) s' o);
      [ | rewrite (try_catches m h s0 s' e o Hb) ]
  end.

(** A body that cannot be read: 500 on every route, one error log line. *)
Lemma handle_webhook_unreadable (c : category) (request : Request) (s : State) e :
  _check_auth request = true ->
  text request = inl e ->
  let trace_id := fst (uuid4_prefix X (world s)) in
  handle_webhook c request s =
  mkResult (inr internal_error)
    (with_world s (snd (uuid4_prefix X (world s))))
    [Log (L_webhook_error trace_id e)].
Proof.
  intros Hauth Hbody trace_id.
  destruct c;
    unfold handle_webhook, handle_media_webhook, handle_game_webhook,
      handle_common_webhook;
    run (ask_runs (uuid4_prefix X) s); rewrite result_eta; fold trace_id;
    rewrite Hauth; cbn [negb];
    (catch_block e (with_world s (snd (uuid4_prefix X (world s)))) (@nil event);
     [ rewrite Hbody; cbn [lift_sum];
       apply (bind_raises _ _ _ _ _ _ (raise_runs e _))
     | run_log; reflexivity ]).
Qed.

(** A game body that is not JSON: received, then 500. *)
Lemma handle_game_webhook_malformed (request : Request) (s : State) body_text e :
  _check_auth request = true ->
  text request = inr body_text ->
  json_loads X body_text = inl e ->
  let trace_id := fst (uuid4_prefix X (world s)) in
  handle_game_webhook request s =
  mkResult (inr internal_error)
    (with_world s (snd (uuid4_prefix X (world s))))
    [Log (L_received trace_id (path request)); Log (L_webhook_error trace_id e)].
Proof.
  intros Hauth Hbody Hjson trace_id.
  unfold handle_game_webhook.
  run (ask_runs (uuid4_prefix X) s). rewrite result_eta. fold trace_id.
  rewrite Hauth. cbn [negb].
  catch_block e (with_world s (snd (uuid4_prefix X (world s))))
    [Log (L_received trace_id (path request))].
  - rewrite Hbody. cbn [lift_sum]. rewrite bind_ret_l.
    run_log. rewrite Hjson. cbn [lift_sum].
    rewrite (bind_raises _ _ _ _ _ _ (raise_runs e _)). reflexivity.
  - run_log. reflexivity.
Qed.

(** The common collaborator's answer to a body, in the world of the call. *)
Definition common_answer (request : Request) (s : State) (body_text : string)
  : exn + option pydict :=
  fst (process_common_webhook X body_text (headers_dict (headers request))
         (snd (uuid4_prefix X (world s)))).

Definition after_common (request : Request) (s : State) (body_text : string)
  : State :=
  with_world (with_world s (snd (uuid4_prefix X (world s))))
    (snd (process_common_webhook X body_text (headers_dict (headers request))
            (snd (uuid4_prefix X (world s))))).

(** A common body that the collaborator does not turn into a message with a
    ["message_text"]: 400. *)
Lemma handle_common_webhook_declined (request : Request) (s : State) body_text result :
  _check_auth request = true ->
  text request = inr body_text ->
  common_answer request s body_text = inr result ->
  match result with
  | Some r => dict_has r "message_text" = false
  | None => True
  end ->
  let trace_id := fst (uuid4_prefix X (world s)) in
  handle_common_webhook request s =
  mkResult (inr invalid_data) (after_common request s body_text)
    [Log (L_received trace_id (path request));
     CallCommon body_text (headers_dict (headers request))].
Proof.
  intros Hauth Hbody Hanswer Hinvalid trace_id.
  unfold handle_common_webhook.
  run (ask_runs (uuid4_prefix X) s). rewrite result_eta. fold trace_id.
  rewrite Hauth. cbn [negb].
  try_block invalid_data.
  rewrite Hbody. cbn [lift_sum]. rewrite bind_ret_l.
  run_log. run_emit.
  assert (Hcall : call (process_common_webhook X body_text
                          (headers_dict (headers request)))
                    (with_world s (snd (uuid4_prefix X (world s)))) =
                  mkResult (inr result) (after_common request s body_text) []).
  { rewrite call_runs. unfold common_answer in Hanswer.
    cbn [with_world world]. rewrite Hanswer. reflexivity. }
  run Hcall.
  destruct result as [r |]; [| reflexivity].
  rewrite Hinvalid, andb_false_r. reflexivity.
Qed.

(** A common collaborator that raises: 500. *)
Lemma handle_common_webhook_raises (request : Request) (s : State) body_text e :
  _check_auth request = true ->
  text request = inr body_text ->
  common_answer request s body_text = inl e ->
  let trace_id := fst (uuid4_prefix X (world s)) in
  handle_common_webhook request s =
  mkResult (inr internal_error) (after_common request s body_text)
    [Log (L_received trace_id (path request));
     CallCommon body_text (headers_dict (headers request));
     Log (L_webhook_error trace_id e)].
Proof.
  intros Hauth Hbody Hanswer trace_id.
  unfold handle_common_webhook.
  run (ask_runs (uuid4_prefix X) s). rewrite result_eta. fold trace_id.
  rewrite Hauth. cbn [negb].
  catch_block e (after_common request s body_text)
    [Log (L_received trace_id (path request));
     CallCommon body_text (headers_dict (headers request))].
  - rewrite Hbody. cbn [lift_sum]. rewrite bind_ret_l.
    run_log. run_emit.
    assert (Hcall : call (process_common_webhook X body_text
                            (headers_dict (headers request)))
                      (with_world s (snd (uuid4_prefix X (world s)))) =
                    mkResult (inl e) (after_common request s body_text) []).
    { rewrite call_runs. unfold common_answer in Hanswer.
      cbn [with_world world]. rewrite Hanswer. reflexivity. }
    rewrite (bind_raises _ _ _ _ _ _ Hcall). reflexivity.
  - run_log. reflexivity.
Qed.


(** A game POST whose body is not JSON is answered 500 "Internal Error":
    the receipt and the error are logged under the trace id of the call,
    and neither the queue nor the KV entry is touched. *)
Theorem game_malformed_json_is_500 (request : Request) (s : State) body_text e :
  _check_auth request = true ->
  text request = inr body_text ->
  json_loads X body_text = inl e ->
  let r := handle_webhook Game request s in
  res r = inr (mkResponse "Internal Error" 500) /\
  message_queue (final r) = message_queue s /\
  kv_store (final r) = kv_store s /\
  kv_writes (out r) = [] /\
  In (Log (L_webhook_error (fst (uuid4_prefix X (world s))) e)) (out r) /\
  In (Log (L_received (fst (uuid4_prefix X (world s))) (path request))) (out r) /\
  out r = [Log (L_received (fst (uuid4_prefix X (world s))) (path request));
           Log (L_webhook_error (fst (uuid4_prefix X (world s))) e)].
Proof.
  intros Hauth Hbody Hjson r. unfold r, handle_webhook.
  rewrite (handle_game_webhook_malformed request s body_text e Hauth Hbody Hjson).
  cbn [res final out].
  split; [reflexivity |]. split; [reflexivity |]. split; [reflexivity |].
  split; [reflexivity |].
  split; [right; left; reflexivity |].
  split; [left; reflexivity | reflexivity].
Qed.

(** A common POST that the collaborator cannot normalise (it returns [None],
    or a dict without ["message_text"]) is answered 400 at once and nothing
    is queued; the same body on the media route is queued. *)
Theorem common_unparsable_is_400 (request : Request) (s : State) body_text result :
  _check_auth request = true ->
  text request = inr body_text ->
  common_answer request s body_text = inr result ->
  match result with
  | Some r => dict_has r "message_text" = false
  | None => True
  end ->
  let r := handle_webhook Common request s in
  res r = inr invalid_data /\
  status invalid_data = 400%Z /\
  message_queue (final r) = message_queue s /\
  kv_store (final r) = kv_store s /\
  kv_writes (out r) = [] /\
  exists record,
    message_queue (final (handle_webhook Media request s))
      = message_queue s ++ [record] /\
    dict_get record "raw_data" = Some (PStr body_text).
Proof.
  intros Hauth Hbody Hanswer Hinvalid r. unfold r, handle_webhook.
  rewrite (handle_common_webhook_declined request s body_text result
             Hauth Hbody Hanswer Hinvalid).
  rewrite (handle_media_webhook_accepts request s body_text Hauth Hbody).
  cbn [res final out]. rewrite _enqueue_queue.
  repeat split. eexists. split; reflexivity.
Qed.

(** An authenticated POST is answered 200, 400 or 500. *)
Lemma authorized_post_outcome (c : category) (request : Request) (s : State) :
  _check_auth request = true ->
  let r := handle_webhook c request s in
  exists resp,
    res r = inr resp /\
    ((status resp = 200%Z /\
      resp_text resp = queued_text (fst (uuid4_prefix X (world s))) /\
      exists record, message_queue (final r) = message_queue s ++ [record]) \/
     ((status resp = 400%Z \/ status resp = 500%Z) /\
      message_queue (final r) = message_queue s /\
      kv_store (final r) = kv_store s /\
      kv_writes (out r) = [])).
Proof.
  intros Hauth r. subst r.
  destruct (text request) as [e | body_text] eqn:Hbody.
  { rewrite (handle_webhook_unreadable c request s e Hauth Hbody).
    eexists. split; [reflexivity |]. right.
    split; [right; reflexivity |]. repeat split. }
  destruct c; unfold handle_webhook.
  - rewrite (handle_media_webhook_accepts request s body_text Hauth Hbody).
    eexists. split; [reflexivity |]. left.
    split; [reflexivity |]. split; [reflexivity |].
    cbn [final]. rewrite _enqueue_queue. eexists. reflexivity.
  - destruct (json_loads X body_text) as [e | payload] eqn:Hjson.
    + rewrite (handle_game_webhook_malformed request s body_text e
                 Hauth Hbody Hjson).
      eexists. split; [reflexivity |]. right.
      split; [right; reflexivity |]. repeat split.
    + rewrite (handle_game_webhook_accepts request s body_text payload
                 Hauth Hbody Hjson).
      eexists. split; [reflexivity |]. left.
      split; [reflexivity |]. split; [reflexivity |].
      cbn [final]. rewrite _enqueue_queue. eexists. reflexivity.
  - destruct (common_answer request s body_text) as [e | result] eqn:Hanswer.
    + rewrite (handle_common_webhook_raises request s body_text e
                 Hauth Hbody Hanswer).
      eexists. split; [reflexivity |]. right.
      split; [right; reflexivity |]. repeat split.
    + destruct result as [d |].
      * destruct (dict_has d "message_text") eqn:Hhas.
        -- rewrite (handle_common_webhook_accepts request s body_text d
                      Hauth Hbody Hanswer Hhas).
           eexists. split; [reflexivity |]. left.
           split; [reflexivity |]. split; [reflexivity |].
           cbn [final]. rewrite _enqueue_queue. eexists. reflexivity.
        -- rewrite (handle_common_webhook_declined request s body_text (Some d)
                      Hauth Hbody Hanswer Hhas).
           eexists. split; [reflexivity |]. right.
           split; [left; reflexivity |]. repeat split.
      * rewrite (handle_common_webhook_declined request s body_text None
                   Hauth Hbody Hanswer I).
        eexists. split; [reflexivity |]. right.
        split; [left; reflexivity |]. repeat split.
Qed.

(** Whatever the request, a POST handler returns a response and never
    raises.  Either the response is 200, its text is the fixed phrase with
    the trace id of the call in brackets, and the queue has grown by
    exactly one record; or it is 400, 401 or 500 and the queue and the KV
    entry are untouched and nothing was written. *)
Theorem post_outcome (c : category) (request : Request) (s : State) :
  let r := handle_webhook c request s in
  let trace_id := fst (uuid4_prefix X (world s)) in
  exists resp,
    res r = inr resp /\
    ((status resp = 200%Z /\
      resp_text resp = ("已加入队列 (ID: " ++ trace_id ++ ")")%string /\
      str_contains trace_id (resp_text resp) = true /\
      exists record, message_queue (final r) = message_queue s ++ [record]) \/
     ((status resp = 400%Z \/ status resp = 401%Z \/ status resp = 500%Z) /\
      message_queue (final r) = message_queue s /\
      kv_store (final r) = kv_store s /\
      kv_writes (out r) = [])).
Proof.
  intros r trace_id. subst r.
  destruct (_check_auth request) eqn:Hauth.
  2:{ rewrite (handle_webhook_rejects c request s Hauth).
      eexists. split; [reflexivity |]. right.
      split; [right; left; reflexivity |]. repeat split. }
  destruct (authorized_post_outcome c request s Hauth)
    as (resp & Hres & [(H200 & Htext & Hrecord) | ([H400 | H500] & Hrest)]).
  - exists resp. split; [exact Hres |]. left.
    split; [exact H200 |]. split; [exact Htext |].
    split; [rewrite Htext; apply contains_middle | exact Hrecord].
  - exists resp. split; [exact Hres |]. right.
    split; [left; exact H400 | exact Hrest].
  - exists resp. split; [exact Hres |]. right.
    split; [right; right; exact H500 | exact Hrest].
Qed.

(** A POST is answered 401 only for a token: one is configured, and the
    request's [X-Webhook-Token] header is missing or differs from it.  With
    no token configured no request is turned away as unauthorized. *)
Theorem unauthorized_only_for_token (c : category) (request : Request)
    (s : State) (resp : Response) :
  res (handle_webhook c request s) = inr resp ->
  status resp = 401%Z ->
  webhook_token cfg <> "" /\
  headers_get (headers request) "X-Webhook-Token" <> Some (webhook_token cfg).
Proof.
  intros Hres Hstatus.
  destruct (_check_auth request) eqn:Hauth.
  - destruct (authorized_post_outcome c request s Hauth)
      as (resp' & Hres' & Hcases).
    rewrite Hres in Hres'. injection Hres' as <-.
    destruct Hcases as [(H200 & _) | ([H400 | H500] & _)]; congruence.
  - unfold _check_auth in Hauth.
    destruct (String.eqb_spec (webhook_token cfg) "") as [Hempty | Hset];
      [discriminate |].
    split; [exact Hset |].
    destruct (headers_get (headers request) "X-Webhook-Token") as [token |];
      [| discriminate].
    apply String.eqb_neq in Hauth. congruence.
Qed.


(** ** Render context *)

Lemma dict_get_filter (keep : string -> bool) (d : pydict) (k : string) :
  dict_get (filter (fun kv => keep (fst kv)) d) k =
  if keep k then dict_get d k else None.
Proof.
  induction d as [| [k' v] d IH]; cbn [filter dict_get fst].
  - destruct (keep k); reflexivity.
  - destruct (String.eqb_spec k' k) as [-> | Hne].
    + destruct (keep k) eqn:Hk; cbn [dict_get].
      * rewrite String.eqb_refl. reflexivity.
      * exact IH.
    + destruct (keep k'); cbn [dict_get]; [| exact IH].
      apply String.eqb_neq in Hne. rewrite Hne. exact IH.
Qed.

Lemma reserved_key_test (k : string) :
  existsb (String.eqb k) reserved_keys = true <-> In k reserved_keys.
Proof.
  rewrite existsb_exists. split.
  - intros (x & Hin & Heq). apply String.eqb_eq in Heq. subst. exact Hin.
  - intro Hin. exists k. split; [exact Hin | apply String.eqb_refl].
Qed.

(** The context handed to the renderer besides text, image and template:
    none of the seven keys ["message_text"], ["poster_url"], ["image_url"],
    ["template"], ["trace_id"], ["message_type"] and ["timestamp"] of the
    message, always a ["formatted_time"], and every other field of the
    message with the value it has in the message. *)
Theorem render_context_contents (msg : pydict) (formatted : string) :
  let extra := extra_render_context msg formatted in
  let withheld :=
    ["message_text"; "poster_url"; "image_url"; "template"; "trace_id";
     "message_type"; "timestamp"] in
  (forall k, In k withheld -> dict_get extra k = None) /\
  dict_get extra "formatted_time" = Some (PStr formatted) /\
  (forall k,
     ~ In k withheld -> k <> "formatted_time" ->
     dict_get extra k = dict_get msg k).
Proof.
  intros extra withheld.
  change withheld with reserved_keys. clear withheld.
  unfold extra, extra_render_context.
  split; [| split].
  - intros k Hin.
    assert (Hne : "formatted_time" <> k).
    { intros <-. cbn in Hin. intuition discriminate. }
    rewrite dict_get_set_other by exact Hne.
    rewrite (dict_get_filter (fun key => negb (existsb (String.eqb key) reserved_keys))).
    apply reserved_key_test in Hin. rewrite Hin. reflexivity.
  - apply dict_get_set_same.
  - intros k Hnot Hne.
    rewrite dict_get_set_other by congruence.
    rewrite (dict_get_filter (fun key => negb (existsb (String.eqb key) reserved_keys))).
    destruct (existsb (String.eqb k) reserved_keys) eqn:E; [| reflexivity].
    apply reserved_key_test in E. contradiction.
Qed.


(** ** Messages that cannot be delivered *)

(** One message of the individual path that fails does not stop the others.
    A render that raises (a message without ["message_text"] included) is
    logged as a failed send; a render that returns nothing is skipped
    without a log line; a send that raises is logged, and neither the
    success line nor the half-second pause follows.  In each case nothing
    is raised, and the loop goes on with the messages behind it. *)
Theorem failed_message_is_skipped (origin : string) (msg : pydict)
    (rest : list pydict) (s : State) :
  let rm := render_message msg s in
  let r := send_one origin msg s in
  (forall e,
     res rm = inl e ->
     out r = Log (L_rendering (trace_of msg)) :: out rm ++ [Log (L_single_failed e)]) /\
  (dict_get msg "message_text" = None ->
   res rm = inl (KeyError "message_text") /\ out rm = []) /\
  (forall img,
     res rm = inr img -> bytes_truthy img = false ->
     out r = Log (L_rendering (trace_of msg)) :: out rm) /\
  (forall b bs e,
     res rm = inr (Some (b :: bs)) ->
     fst (send_message X origin (b :: bs) (world (final rm))) = Some e ->
     out r = Log (L_rendering (trace_of msg)) :: out rm ++
             [SendMessage origin (b :: bs); Log (L_single_failed e)]) /\
  res (individual_loop origin (msg :: rest) s) = inr tt /\
  out (individual_loop origin (msg :: rest) s) =
    out r ++ out (individual_loop origin rest (final r)).
Proof.
  intros rm r.
  assert (Heta : forall v, res rm = v ->
                           render_message msg s = mkResult v (final rm) (out rm)).
  { intros v <-. symmetry. apply result_eta. }
  split; [| split; [| split; [| split; [| split]]]].
  - intros e Hrm. unfold r, send_one.
    match goal with
    | |- out (try_except ?m ?h s) = _ =>
        assert (Hb : m s = mkResult (inl e) (final rm)
                             (Log (L_rendering (trace_of msg)) :: out rm))
    end.
    { run_log. rewrite (bind_raises _ _ _ _ _ _ (Heta _ Hrm)). reflexivity. }
    rewrite (try_catches _ _ _ _ _ _ Hb). rewrite logger_runs.
    cbn [out]. reflexivity.
  - intro Hmissing. unfold rm.
    rewrite (render_message_missing msg s Hmissing). split; reflexivity.
  - intros img Hrm Hfalsy. unfold r, send_one.
    match goal with
    | |- out (try_except ?m ?h s) = _ =>
        assert (Hb : m s = mkResult (inr tt) (final rm)
                             (Log (L_rendering (trace_of msg)) :: out rm))
    end.
    { run_log. run (Heta _ Hrm).
      destruct img as [[| b bs] |]; try discriminate Hfalsy;
        cbn [ret res final out]; rewrite app_nil_r; reflexivity. }
    rewrite (try_passes _ _ _ tt) by (rewrite Hb; reflexivity).
    rewrite Hb. reflexivity.
  - intros b bs e Hrm Hsend. unfold r, send_one.
    match goal with
    | |- out (try_except ?m ?h s) = _ =>
        assert (Hb : exists s', m s = mkResult (inl e) s'
                             (Log (L_rendering (trace_of msg)) :: out rm ++
                              [SendMessage origin (b :: bs)]))
    end.
    { run_log. run (Heta _ Hrm). run_emit.
      eexists.
      match goal with
      | |- context [bind (call_unit ?f) ?k ?s0] =>
          assert (Hcall : call_unit f s0 =
                          mkResult (inl e) (with_world s0 (snd (f (world s0)))) [])
            by (rewrite call_unit_runs, Hsend; reflexivity);
          rewrite (bind_raises _ _ _ _ _ _ Hcall)
      end.
      cbn [res final out]. reflexivity. }
    destruct Hb as [s' Hb].
    rewrite (try_catches _ _ _ _ _ _ Hb). rewrite logger_runs.
    cbn [out app]. rewrite <- app_assoc. reflexivity.
  - apply individual_loop_runs.
  - cbn [individual_loop]. fold r.
    assert (Hr : send_one origin msg s = mkResult (inr tt) (final r) (out r)).
    { rewrite <- (proj1 (send_one_runs origin msg s)). symmetry. apply result_eta. }
    run Hr. reflexivity.
Qed.


(** ** The forward package *)

(** An entry of the forward package: an empty text, the rendered image as a
    [base64://] string, and the configured sender name. *)
Definition batch_entry (img : list byte) : pydict :=
  [("message_text", PStr "");
   ("image_url", PStr ("base64://" ++ b64encode X img)%string);
   ("sender_name", PStr (sender_name cfg))].

Lemma render_all_step (msg : pydict) (rest acc : list pydict) (s : State) :
  render_all (msg :: rest) acc s =
  let rm := render_message msg s in
  let t := trace_of msg in
  match res rm with
  | inl e => mkResult (inl e) (final rm) (Log (L_rendering t) :: out rm)
  | inr (Some (b :: bs)) =>
      let r' := render_all rest (acc ++ [batch_entry (b :: bs)]) (final rm) in
      mkResult (res r') (final r')
        (Log (L_rendering t) :: out rm ++
         Log (L_b64_ok t
                (String.length ("base64://" ++ b64encode X (b :: bs))%string)) ::
         out r')
  | inr _ =>
      let r' := render_all rest acc (final rm) in
      mkResult (res r') (final r') (Log (L_rendering t) :: out rm ++ out r')
  end.
Proof.
  cbn [render_all]. run_log. cbv zeta.
  assert (Heta : forall v, res (render_message msg s) = v ->
                           render_message msg s =
                           mkResult v (final (render_message msg s))
                             (out (render_message msg s))).
  { intros v <-. symmetry. apply result_eta. }
  destruct (res (render_message msg s)) as [e | img].
  - rewrite (bind_raises _ _ _ _ _ _ (Heta _ eq_refl)). reflexivity.
  - run (Heta _ eq_refl).
    destruct img as [[| b bs] |]; reflexivity.
Qed.

(** A render loop that completes has tried every message, in order. *)
Lemma render_all_attempts (msgs : list pydict) :
  forall acc s rendered,
    res (render_all msgs acc s) = inr rendered ->
    attempts (out (render_all msgs acc s)) = map trace_of msgs.
Proof.
  induction msgs as [| msg rest IH]; intros acc s rendered Hres;
    [reflexivity |].
  rewrite render_all_step in *. cbv zeta in *.
  pose proof (attempts_none _ (render_message_no_attempt msg s)) as Hno.
  destruct (res (render_message msg s)) as [e | [[| b bs] |]];
    cbn [res out] in *; try discriminate Hres;
    cbn [attempts map]; rewrite attempts_app, Hno; cbn [app attempts];
    f_equal; eapply IH; exact Hres.
Qed.

Lemma render_all_no_send (msgs : list pydict) :
  forall acc, emits not_send (render_all msgs acc).
Proof. induction msgs as [| msg rest IH]; cbn [render_all]; emitting. Qed.

Lemma render_all_shape (msgs : list pydict) :
  forall acc s rendered,
    res (render_all msgs acc s) = inr rendered ->
    exists imgs,
      rendered = acc ++ map batch_entry imgs /\
      length imgs <= length msgs /\
      Forall (fun img => img <> []) imgs.
Proof.
  induction msgs as [| msg rest IH]; intros acc s rendered Hres.
  - cbn in Hres. injection Hres as <-. exists [].
    split; [symmetry; apply app_nil_r |]. split; [apply le_n | constructor].
  - rewrite render_all_step in Hres. cbv zeta in Hres.
    destruct (res (render_message msg s)) as [e | [[| b bs] |]];
      cbn [res] in Hres; try discriminate Hres.
    + destruct (IH _ _ _ Hres) as (imgs & -> & Hlen & Hne).
      exists imgs. split; [reflexivity |]. split; [cbn [length]; lia | exact Hne].
    + destruct (IH _ _ _ Hres) as (imgs & -> & Hlen & Hne).
      exists ((b :: bs) :: imgs).
      split; [cbn [map]; rewrite <- app_assoc; reflexivity |].
      split; [cbn [length]; lia |].
      constructor; [discriminate | exact Hne].
    + destruct (IH _ _ _ Hres) as (imgs & -> & Hlen & Hne).
      exists imgs. split; [reflexivity |]. split; [cbn [length]; lia | exact Hne].
Qed.

(** What the batch path packs for the forward send: at most one entry per
    message, each with an empty text, a [base64://] string of a non-empty
    rendered image and the configured sender name; the text of a message
    itself is never put in the package. *)
Theorem forward_package_shape (msgs : list pydict) (s : State)
    (rendered : list pydict) :
  res (render_all msgs [] s) = inr rendered ->
  length rendered <= length msgs /\
  exists imgs,
    rendered = map batch_entry imgs /\
    Forall (fun img => img <> []) imgs /\
    Forall (fun entry =>
              dict_get entry "message_text" = Some (PStr "") /\
              dict_get entry "sender_name" = Some (PStr (sender_name cfg)))
           rendered.
Proof.
  intro Hres.
  destruct (render_all_shape msgs [] s rendered Hres) as (imgs & -> & Hlen & Hne).
  cbn [app]. split; [rewrite length_map; exact Hlen |].
  exists imgs. split; [reflexivity |]. split; [exact Hne |].
  apply Forall_forall. intros entry Hin.
  apply in_map_iff in Hin. destruct Hin as (img & <- & _).
  split; reflexivity.
Qed.

(** When no message of a batch renders to an image, the batch path stops
    with a warning after trying each message once: no platform is looked
    up, nothing is sent, nothing is raised, and so the individual path is
    not tried for these messages. *)
Theorem nothing_rendered_gives_up (msgs : list pydict) (s : State) :
  res (render_all msgs [] s) = inr [] ->
  let rendering := render_all msgs [] s in
  send_batch_messages msgs s =
    mkResult (inr tt) (final rendering)
      (out rendering ++ [Log L_nothing_rendered]) /\
  sends (out (send_batch_messages msgs s)) = [] /\
  attempts (out (send_batch_messages msgs s)) = map trace_of msgs.
Proof.
  intros Hres rendering.
  assert (Hrun : render_all msgs [] s =
                 mkResult (inr []) (final rendering) (out rendering)).
  { rewrite <- Hres. symmetry. apply result_eta. }
  assert (Hbatch : send_batch_messages msgs s =
                   mkResult (inr tt) (final rendering)
                     (out rendering ++ [Log L_nothing_rendered])).
  { unfold send_batch_messages.
    rewrite (try_passes _ _ _ tt); unfold batch_try; run Hrun; reflexivity. }
  split; [exact Hbatch |].
  rewrite Hbatch. cbn [out]. unfold rendering. split.
  - rewrite sends_app, (sends_none _ (render_all_no_send msgs [] s)).
    reflexivity.
  - rewrite attempts_app. cbn [attempts]. rewrite app_nil_r.
    eapply render_all_attempts. exact Hres.
Qed.


(** ** Startup *)

Lemma out_try_except {A} (m : M A) (h : exn -> M A) (s : State) ev :
  In ev (out (m s)) -> In ev (out (try_except m h s)).
Proof.
  intro Hin. unfold try_except.
  destruct (res (m s)); cbn [out]; [apply in_or_app; left |]; exact Hin.
Qed.

(** [initialize] never raises.  When the KV store cannot be read, nothing is
    restored and neither the browser check nor the web server is started:
    the only trace is one error log line.  When it can be read and holds
    records, their number is logged. *)
Theorem initialize_is_safe (s : State) :
  res (initialize s) = inr tt /\
  (forall e,
     fst (get_kv_data X (world s)) = Some e ->
     initialize s =
     mkResult (inr tt) (with_world s (snd (get_kv_data X (world s))))
       [Log (L_init_failed e)]) /\
  (forall m q,
     fst (get_kv_data X (world s)) = None ->
     kv_store s = Some (m :: q) ->
     In (Log (L_restored (S (length q)))) (out (initialize s))).
Proof.
  split; [| split].
  - unfold initialize. apply try_except_safe. reflexivity.
  - intros e Hget. unfold initialize.
    match goal with
    | |- try_except ?m ?h s = _ =>
        assert (Hb : m s = mkResult (inl e)
                             (with_world s (snd (get_kv_data X (world s)))) [])
    end.
    { assert (Hkv : kv_get s = mkResult (inl e)
                      (with_world s (snd (get_kv_data X (world s)))) []).
      { unfold kv_get.
        apply bind_raises. rewrite call_unit_runs, Hget. reflexivity. }
      apply (bind_raises _ _ _ _ _ _ Hkv). }
    rewrite (try_catches _ _ _ _ _ _ Hb). reflexivity.
  - intros m q Hget Hstore. unfold initialize.
    apply out_try_except.
    destruct (kv_get_runs s Hget) as (s' & Hkv & _).
    rewrite Hstore in Hkv. run Hkv.
    unfold bind at 1. unfold bind at 1.
    unfold get_queue at 1. cbn [res final out].
    unfold bind at 1. unfold set_queue at 1. cbn [res final out].
    rewrite logger_runs. cbn [res final out app].
    apply in_or_app. left.
    unfold bind, get_queue, set_queue, logger, emit.
    cbn [res final out app]. left. reflexivity.
Qed.


(** ** Platform inference *)

(** Under [platform_name = "auto"] the platform name is inferred from the
    ids of the loaded platform instances, lower-cased: the first of
    llonebot, napcat, aiocqhttp that occurs inside some id; otherwise the id
    of the first instance as it is; and ["llonebot"] when no platform is
    loaded at all.  Reading it changes nothing and logs nothing. *)
Theorem auto_platform_inference (s : State) :
  platform_name cfg = "auto" ->
  let ids := map meta_id (platform_insts X (world s)) in
  let has := fun p => existsb (fun name => str_contains p (lower name)) ids in
  exists name,
    get_effective_platform_name s = mkResult (inr name) s [] /\
    (has "llonebot" = true -> name = "llonebot") /\
    (has "llonebot" = false -> has "napcat" = true -> name = "napcat") /\
    (has "llonebot" = false -> has "napcat" = false -> has "aiocqhttp" = true ->
     name = "aiocqhttp") /\
    (has "llonebot" = false -> has "napcat" = false -> has "aiocqhttp" = false ->
     name = match ids with a :: _ => a | [] => "llonebot" end) /\
    (ids = [] -> name = "llonebot").
Proof.
  intros Hauto ids has.
  unfold get_effective_platform_name. rewrite Hauto. cbn [String.eqb Ascii.eqb Bool.eqb].
  unfold bind, read. cbn [res final out app]. fold ids.
  cbn [find]. fold (has "llonebot") (has "napcat") (has "aiocqhttp").
  destruct (has "llonebot") eqn:H1; [| destruct (has "napcat") eqn:H2;
    [| destruct (has "aiocqhttp") eqn:H3]];
    eexists; (split; [reflexivity |]);
    repeat split; intros; try reflexivity; try discriminate.
  - match goal with
    | H : ids = [] |- _ => unfold has in H2; rewrite H in H2; discriminate H2
    end.
  - match goal with
    | H : ids = [] |- _ => unfold has in H3; rewrite H in H3; discriminate H3
    end.
  - match goal with H : ids = [] |- _ => rewrite H end. reflexivity.
Qed.


(** ** Status *)

(** The dict that [Main.handle_status] serialises.  [site] is whether the
    TCP site exists ([bool(self.site)]), [webhook_port] the configured
    port. *)
Definition status_info (site : bool) (webhook_port : Z) (s : State) : pydict :=
  [("server_running", PBool site);
   ("listen_port", PInt webhook_port);
   ("queue_messages", PInt (Z.of_nat (length (message_queue s))));
   ("target_group",
    PStr (if String.eqb (group_id cfg) "" then "not_configured"
          else group_id cfg))].

(** [Main.handle_status]; [json_dumps] is [json.dumps(_, indent=2)]. *)
Definition handle_status (json_dumps : pydict -> string) (site : bool)
    (webhook_port : Z) : M Response :=
  fun s => mkResult (inr (mkResponse (json_dumps (status_info site webhook_port s)) 200)) s [].

(** [GET /status] is a pure read: it answers 200, changes no state and
    emits nothing.  The pending count it reports is the length of the
    queue: after n more records are enqueued it is n higher, and after a
    cycle with a group configured it is 0. *)
Theorem status_reports_pending (json_dumps : pydict -> string) (site : bool)
    (webhook_port : Z) (msgs : list pydict) (s : State) :
  let report := fun s' => dict_get (status_info site webhook_port s') "queue_messages" in
  (exists body, handle_status json_dumps site webhook_port s =
                mkResult (inr (mkResponse body 200)) s []) /\
  report (final (enqueue_all msgs s)) =
    Some (PInt (Z.of_nat (length (message_queue s) + length msgs))) /\
  (group_id cfg <> "" ->
   report (final (process_message_queue (final (enqueue_all msgs s)))) =
     Some (PInt 0)).
Proof.
  intro report. split; [| split].
  - eexists. reflexivity.
  - unfold report, status_info. cbn [dict_get String.eqb Ascii.eqb Bool.eqb].
    rewrite enqueue_all_queue, length_app. reflexivity.
  - intro Hgroup. unfold report, status_info.
    cbn [dict_get String.eqb Ascii.eqb Bool.eqb].
    rewrite (proj1 (process_message_queue_effect _ Hgroup)). reflexivity.
Qed.


(** ** Enriched records *)

(** What the scheduler adds to a collaborator's result: the trace id of the
    raw record, its template (or the configured default), and for a game
    record the [message_type] ["game"]; every other field is the
    collaborator's.  The enriched record goes last in the list built so
    far. *)
Theorem enriched_record_is_stamped (acc : list pydict) (msg : pydict)
    (s : State) (p : pydict) :
  p <> [] ->
  let m_type := dict_get_default msg "message_type" PNone in
  (py_eq_str m_type "raw_media" = true ->
   fst (detect_and_process_raw_data X msg (world s)) = inr (Some p) ->
   exists record,
     res (enrich_one acc msg s) = inr (acc ++ [record]) /\
     dict_get record "trace_id" = Some (trace_of msg) /\
     dict_get record "template" =
       Some (dict_get_default msg "template" (PStr (media_template cfg))) /\
     forall k, k <> "trace_id" -> k <> "template" ->
               dict_get record k = dict_get p k) /\
  (py_eq_str m_type "raw_media" = false ->
   py_eq_str m_type "raw_game" = true ->
   forall raw_data,
     dict_get msg "raw_data" = Some raw_data ->
     fst (process_game_webhook X raw_data (dict_get_default msg "headers" PNone)
            (world s)) = inr (Some p) ->
     exists record,
       res (enrich_one acc msg s) = inr (acc ++ [record]) /\
       dict_get record "trace_id" = Some (trace_of msg) /\
       dict_get record "template" =
         Some (dict_get_default msg "template" (PStr (game_template cfg))) /\
       dict_get record "message_type" = Some (PStr "game") /\
       forall k, k <> "trace_id" -> k <> "template" -> k <> "message_type" ->
                 dict_get record k = dict_get p k).
Proof.
  intros Hp m_type.
  assert (Hkeep : forall finish, keep_processed acc (Some p) finish = acc ++ [finish p]).
  { intro finish. destruct p; [congruence | reflexivity]. }
  split.
  - intros Hm Hanswer. unfold enrich_one. fold m_type. rewrite Hm.
    eexists. split; [| split; [| split]].
    + run_log. run_emit.
      assert (Hcall : call (detect_and_process_raw_data X msg) s =
                      mkResult (inr (Some p))
                        (with_world s (snd (detect_and_process_raw_data X msg (world s))))
                        []).
      { rewrite call_runs, Hanswer. reflexivity. }
      run Hcall. cbn [ret res]. rewrite Hkeep. reflexivity.
    + rewrite dict_get_set_other by discriminate. apply dict_get_set_same.
    + apply dict_get_set_same.
    + intros k Hk1 Hk2.
      rewrite dict_get_set_other by congruence.
      apply dict_get_set_other. congruence.
  - intros Hm Hg raw_data Hraw Hanswer. unfold enrich_one. fold m_type.
    rewrite Hm, Hg, Hraw.
    eexists. split; [| split; [| split; [| split]]].
    + run_log. run_emit.
      assert (Hcall : call (process_game_webhook X raw_data
                              (dict_get_default msg "headers" PNone)) s =
                      mkResult (inr (Some p))
                        (with_world s
                           (snd (process_game_webhook X raw_data
                                   (dict_get_default msg "headers" PNone) (world s))))
                        []).
      { rewrite call_runs, Hanswer. reflexivity. }
      run Hcall. cbn [ret res]. rewrite Hkeep. reflexivity.
    + rewrite dict_get_set_other by discriminate.
      rewrite dict_get_set_other by discriminate. apply dict_get_set_same.
    + rewrite dict_get_set_other by discriminate. apply dict_get_set_same.
    + apply dict_get_set_same.
    + intros k Hk1 Hk2 Hk3.
      rewrite dict_get_set_other by congruence.
      rewrite dict_get_set_other by congruence.
      apply dict_get_set_other. congruence.
Qed.


(** ** What a batch sends *)

(** The packages handed to [adapter.send_forward_messages]. *)
Fixpoint forwards (evs : list event) : list (list pydict) :=
  match evs with
  | [] => []
  | SendForward _ _ _ msgs _ _ :: evs' => msgs :: forwards evs'
  | _ :: evs' => forwards evs'
  end.

(** An event other than a forward send. *)
Definition not_forward (e : event) : Prop :=
  match e with SendForward _ _ _ _ _ _ => False | _ => True end.

Lemma forwards_app (a b : list event) :
  forwards (a ++ b) = forwards a ++ forwards b.
Proof.
  induction a as [| ev a IH]; [reflexivity |].
  destruct ev; try exact IH.
  cbn [app forwards]. rewrite IH. reflexivity.
Qed.

Lemma forwards_none (evs : list event) :
  Forall not_forward evs -> forwards evs = [].
Proof.
  induction 1 as [| ev evs Hev _ IH]; [reflexivity |].
  destruct ev; try exact IH. destruct Hev.
Qed.

Lemma render_message_no_forward msg : emits not_forward (render_message msg).
Proof. unfold render_message. emitting. Qed.

#[local] Hint Resolve render_message_no_forward : emits.

Lemma render_all_no_forward (msgs : list pydict) :
  forall acc, emits not_forward (render_all msgs acc).
Proof. induction msgs as [| msg rest IH]; cbn [render_all]; emitting. Qed.

Lemma resolve_platform_no_forward name : emits not_forward (resolve_platform name).
Proof. unfold resolve_platform. emitting. Qed.

Lemma resolve_platform_no_send name : emits not_send (resolve_platform name).
Proof. unfold resolve_platform. emitting. Qed.

(** The lookup never raises and leaves the state as it is. *)
Lemma resolve_platform_total (name : string) (s : State) :
  exists platform,
    resolve_platform name s =
    mkResult (inr platform) s (out (resolve_platform name s)).
Proof.
  rewrite resolve_platform_runs.
  destruct (get_platform_inst X name (world s)); [eexists; reflexivity |].
  cbv zeta.
  destruct (known_alias name);
    [destruct (get_platform_inst X "aiocqhttp" (world s));
       [eexists; reflexivity |] |];
    destruct (platform_insts X (world s)); eexists; reflexivity.
Qed.

(** [s.replace(":", "_")], character by character. *)
Lemma replace_colon_get (s : string) :
  String.length (replace_colon s) = String.length s /\
  forall i,
    String.get i (replace_colon s) =
    match String.get i s with
    | Some c => Some (if Ascii.eqb c ":" then "_" else c)%char
    | None => None
    end.
Proof.
  induction s as [| c s [IHlen IHget]]; [split; [reflexivity | intros []; reflexivity] |].
  split; [cbn; rewrite IHlen; reflexivity |].
  intros [| i]; [reflexivity |]. cbn [replace_colon String.get]. apply IHget.
Qed.

(** Once at least one image is rendered, the batch path looks up a client.
    Without one (no platform instance, or an instance whose [get_client()]
    is falsy) it logs an error and returns: nothing is sent, nothing is
    raised, and so there is no individual fallback either.  With one, and
    an adapter whose forward send returns, it sends exactly one package,
    the rendered entries, and makes no call of [context.send_message]; the
    package is addressed to the group id in which every [":"] has become
    ["_"] and every other character is as it was. *)
Theorem batch_delivery (msgs : list pydict) (s : State) (rendered : list pydict) :
  res (render_all msgs [] s) = inr rendered ->
  rendered <> [] ->
  let s1 := final (render_all msgs [] s) in
  let batch := send_batch_messages msgs s in
  exists name platform,
    get_effective_platform_name s1 = mkResult (inr name) s1 [] /\
    res (resolve_platform name s1) = inr platform /\
    let client := match platform with Some p => get_client p | None => None end in
    (client = None ->
     res batch = inr tt /\ final batch = s1 /\
     forwards (out batch) = [] /\ sends (out batch) = [] /\
     In (Log L_no_bot) (out batch)) /\
    (forall bot adapter result,
       client = Some bot ->
       fst (create_adapter X name (world s1)) = inr adapter ->
       let w2 := snd (create_adapter X name (world s1)) in
       let group := replace_colon (group_id cfg) in
       fst (send_forward_messages X adapter bot group rendered
              (sender_id cfg) (sender_name cfg) w2) = inr result ->
       res batch = inr tt /\
       forwards (out batch) = [rendered] /\
       sends (out batch) = [] /\
       In (SendForward adapter bot group rendered (sender_id cfg) (sender_name cfg))
          (out batch) /\
       String.length group = String.length (group_id cfg) /\
       forall i,
         String.get i group =
         match String.get i (group_id cfg) with
         | Some c => Some (if Ascii.eqb c ":" then "_" else c)%char
         | None => None
         end).
Proof.
  intros Hres Hne s1 batch.
  set (rendering := render_all msgs [] s).
  assert (Hrun : render_all msgs [] s =
                 mkResult (inr rendered) s1 (out rendering)).
  { rewrite <- Hres. symmetry. apply result_eta. }
  destruct (get_effective_platform_name_runs s1) as [name Hname].
  destruct (resolve_platform_total name s1) as [platform Hresolve].
  set (looking := out (resolve_platform name s1)) in *.
  assert (Hquiet_f : forwards (out rendering) = []).
  { apply forwards_none. apply render_all_no_forward. }
  assert (Hquiet_s : sends (out rendering) = []).
  { apply sends_none. apply render_all_no_send. }
  assert (Hlook_f : forwards looking = []).
  { apply forwards_none. apply resolve_platform_no_forward. }
  assert (Hlook_s : sends looking = []).
  { apply sends_none. apply resolve_platform_no_send. }
  exists name, platform.
  split; [exact Hname |].
  split; [rewrite Hresolve; reflexivity |].
  destruct rendered as [| entry entries]; [congruence |].
  cbv zeta. split.
  - intro Hclient.
    assert (Hbatch : batch = mkResult (inr tt) s1
                       (out rendering ++
                        Log (L_platform name) :: looking ++ [Log L_no_bot])).
    { unfold batch, send_batch_messages.
      rewrite (try_passes _ _ _ tt);
        unfold batch_try; run Hrun; unfold forward;
        run Hname; run_log; run Hresolve; rewrite Hclient;
        rewrite logger_runs; reflexivity. }
    rewrite Hbatch. cbn [res final out].
    split; [reflexivity |]. split; [reflexivity |].
    split; [| split].
    + rewrite forwards_app, Hquiet_f. cbn [app forwards].
      rewrite forwards_app, Hlook_f. reflexivity.
    + rewrite sends_app, Hquiet_s. cbn [app sends].
      rewrite sends_app, Hlook_s. reflexivity.
    + apply in_or_app. right. right. apply in_or_app. right. left. reflexivity.
  - intros bot adapter result Hclient Hadapter Hsent.
    set (w2 := snd (create_adapter X name (world s1))) in *.
    set (group := replace_colon (group_id cfg)) in *.
    set (package := SendForward adapter bot group (entry :: entries)
                      (sender_id cfg) (sender_name cfg)).
    set (s2 := with_world s1 w2).
    set (s3 := with_world s2
                 (snd (send_forward_messages X adapter bot group
                         (entry :: entries) (sender_id cfg) (sender_name cfg) w2))).
    assert (Hcreate : call (create_adapter X name) s1 = mkResult (inr adapter) s2 []).
    { rewrite call_runs, Hadapter. reflexivity. }
    assert (Hsend : call (send_forward_messages X adapter bot group
                            (entry :: entries) (sender_id cfg) (sender_name cfg)) s2
                    = mkResult (inr result) s3 []).
    { rewrite call_runs. cbn [world with_world]. fold w2.
      unfold s2, with_world in *. cbn [world]. rewrite Hsent. reflexivity. }
    assert (Hbatch : batch = mkResult (inr tt) s3
                       (out rendering ++
                        Log (L_platform name) :: looking ++
                        [Log L_creating_adapter; Log (L_adapter_created adapter);
                         package; Log (L_send_result result)])).
    { unfold batch, send_batch_messages.
      rewrite (try_passes _ _ _ tt);
        unfold batch_try; run Hrun; unfold forward;
        run Hname; run_log; run Hresolve; rewrite Hclient;
        run_log; run Hcreate; run_log; fold group; run_emit; run Hsend;
        rewrite logger_runs; reflexivity. }
    rewrite Hbatch. cbn [res final out].
    split; [reflexivity |].
    split; [| split].
    + rewrite forwards_app, Hquiet_f. cbn [app forwards].
      rewrite forwards_app, Hlook_f. reflexivity.
    + rewrite sends_app, Hquiet_s. cbn [app sends].
      rewrite sends_app, Hlook_s. reflexivity.
    + split; [| exact (replace_colon_get (group_id cfg))].
      apply in_or_app. right. right. apply in_or_app. right.
      right. right. left. reflexivity.
Qed.

End Plugin.

Arguments mkState {W}.
Arguments world {W}.
Arguments message_queue {W}.
Arguments kv_store {W}.
Arguments last_batch_time {W}.
Arguments mkResult {W A}.
Arguments res {W A}.
Arguments final {W A}.
Arguments out {W A}.

(** ** Scenarios

    A world with no state of its own, in which every collaborator answers at
    once: the renderer returns a four-byte image, the KV store accepts every
    write, the game processor raises on a payload whose ["source"] is not a
    string (as [GameHandler.detect_game_source] does on [.lower()]), and the
    forward send of the platform can be made to fail. *)

Definition image : list byte := [x89; x50; x4e; x47].

Definition onebot : Platform := mkPlatform "aiocqhttp" (Some "bot").

Definition game_answer (raw_data : pyval) : exn + option pydict :=
  match raw_data with
  | PDict d =>
      match dict_get d "source" with
      | Some (PStr _) | None =>
          inr (Some [("status", PStr "success");
                     ("message_text", PStr "game");
                     ("source", PStr "generic_game");
                     ("game_data", raw_data);
                     ("poster_url", PStr "")])
      | Some _ =>
          inl (Raised "AttributeError: 'int' object has no attribute 'lower'")
      end
  | _ => inl (Raised "AttributeError: object has no attribute 'get'")
  end.

Definition scenario (forward_fails : bool) (insts : list Platform)
  : Externals unit :=
  {| uuid4_prefix := fun w => ("1a2b3c4d", w);
     time_time := fun w => (0%float, w);
     json_loads := fun body =>
       if String.eqb body "[" then inl (Raised "JSONDecodeError")
       else if String.eqb body "source=1" then inr (PDict [("source", PInt 1)])
       else inr (PDict [("title", PStr body)]);
     process_common_webhook := fun body _ w =>
       (if String.eqb body "" then inr None
        else inr (Some [("message_text", PStr body)]), w);
     detect_and_process_raw_data := fun msg w =>
       (inr (Some [("message_text", PStr "media");
                   ("poster_url", PStr "file:///poster.png")]), w);
     process_game_webhook := fun raw_data _ w => (game_answer raw_data, w);
     put_kv_data := fun _ w => (None, w);
     get_kv_data := fun w => (None, w);
     browser_init := fun w => (None, w);
     start_webhook_server := fun w => (None, w);
     render := fun _ _ _ _ w => (inr (Some image), w);
     format_time := fun _ => Some "01/01 08:00";
     b64encode := fun _ => "iVBORw==";
     platform_insts := fun _ => insts;
     get_platform_inst := fun name _ =>
       find (fun p => String.eqb (meta_id p) name) insts;
     create_adapter := fun _ w => (inr "OneBotAdapter", w);
     send_forward_messages := fun _ _ _ _ _ _ w =>
       (if forward_fails then inl (Raised "ActionFailed") else inr PNone, w);
     send_message := fun _ _ w => (None, w) |}.

Definition calm : Externals unit := scenario false [onebot].

Definition cfg0 : Config :=
  {| group_id := "12345";
     platform_name := "auto";
     batch_min_size := 3;
     batch_interval_seconds := 300;
     sender_id := "2659908767";
     sender_name := "media";
     webhook_token := "secret";
     media_template := "media_news.html";
     game_template := "game_modern.html";
     common_template := "common_blog.html" |}.

(** A normalised message, as the common route queues it. *)
Definition note (trace : string) : pydict :=
  [("message_text", PStr "hello"); ("trace_id", PStr trace)].

(** A raw game record, as [handle_game_webhook] queues it. *)
Definition game_record (trace : string) (payload : pyval) : pydict :=
  [("raw_data", payload);
   ("headers", PDict []);
   ("timestamp", PFloat 0%float);
   ("message_type", PStr "raw_game");
   ("trace_id", PStr trace);
   ("template", PStr "game_modern.html")].

Definition state0 (q : list pydict) : State unit :=
  mkState tt q None 0%float.

Definition post (token : option string) (body : string) : Request :=
  {| headers := match token with
                | Some t => [("x-webhook-token", t)]
                | None => []
                end;
     text := inr body;
     path := "/webhook";
     remote := "10.0.0.7" |}.

(** *** The scenarios run *)

Definition bad_game : pydict := game_record "bad" (PDict [("source", PInt 1)]).

Definition three_notes : list pydict := [note "a"; note "b"; note "c"].

(** Two queued notes are drained as they are; the queue and the KV entry are
    empty afterwards. *)
Lemma drain_exact_atomic_witness :
  res (drain unit calm cfg0 (state0 [note "a"; note "b"]))
    = inr (Some [note "a"; note "b"]) /\
  message_queue (final (drain unit calm cfg0 (state0 [note "a"; note "b"]))) = [] /\
  kv_store (final (drain unit calm cfg0 (state0 [note "a"; note "b"]))) = Some [].
Proof.
  destruct (drain_exact_atomic unit calm cfg0 (state0 [note "a"; note "b"]))
    as (H1 & H2 & _ & H4 & _).
  - discriminate.
  - discriminate.
  - split; [exact H1 |]. split; [exact H2 |]. apply H4. reflexivity.
Defined.

(** A cycle on an empty queue does nothing at all. *)
Lemma idle_cycle_no_effect_witness :
  process_message_queue unit calm cfg0 (state0 [])
    = mkResult (inr tt) (state0 []) [].
Proof.
  apply (idle_cycle_no_effect unit calm cfg0 (state0 [])).
  left. reflexivity.
Defined.

(** Two notes saved, then a restart: the same two notes, and a third one
    enqueued later comes last. *)
Lemma save_then_restore_witness :
  message_queue
    (final (enqueue_all unit calm [note "c"]
       (final (initialize unit calm
          (fresh_process unit tt
             (kv_store (final (_save_queue unit calm (state0 [note "a"; note "b"]))))
             0%float)))))
  = [note "a"; note "b"; note "c"].
Proof.
  destruct (save_then_restore unit calm (state0 [note "a"; note "b"]) tt 0%float)
    as (_ & _ & H).
  - reflexivity.
  - reflexivity.
  - exact (H [note "c"]).
Defined.

(** A media POST with the right token is queued and answered with its id. *)
Lemma accepted_post_appends_one_witness :
  exists record,
    res (handle_webhook unit calm cfg0 Media (post (Some "secret") "hello") (state0 []))
      = inr (mkResponse "已加入队列 (ID: 1a2b3c4d)" 200) /\
    message_queue
      (final (handle_webhook unit calm cfg0 Media (post (Some "secret") "hello")
                (state0 [])))
      = [record] /\
    dict_get record "trace_id" = Some (PStr "1a2b3c4d") /\
    dict_get record "raw_data" = Some (PStr "hello").
Proof.
  destruct (accepted_post_appends_one unit calm cfg0 Media
              (post (Some "secret") "hello") (state0 []))
    as (record & H1 & _ & H2 & _ & H4 & _).
  - reflexivity.
  - exists "hello". split; [reflexivity | exact I].
  - exists record. split; [exact H1 |]. split; [exact H2 |].
    split; [exact H4 |].
    cbn in H2. injection H2 as <-. reflexivity.
Defined.

(** A media POST without the token is turned away and the queue stays. *)
Lemma bad_token_rejected_witness :
  res (handle_webhook unit calm cfg0 Media (post None "hello") (state0 [note "a"]))
    = inr unauthorized /\
  message_queue
    (final (handle_webhook unit calm cfg0 Media (post None "hello")
              (state0 [note "a"])))
    = [note "a"].
Proof.
  destruct (bad_token_rejected unit calm cfg0 Media (post None "hello")
              (state0 [note "a"]))
    as (H1 & _ & H3 & _).
  - discriminate.
  - discriminate.
  - split; assumption.
Defined.

(** The forward send fails for three notes: three individual sends follow. *)
Lemma batch_failure_falls_back_witness :
  length (sends (out (send_individual_messages unit (scenario true [onebot]) cfg0
                        three_notes
                        (final (batch_try unit (scenario true [onebot]) cfg0
                                  three_notes (state0 []))))))
  = 3.
Proof.
  destruct (batch_failure_falls_back unit (scenario true [onebot]) cfg0
              three_notes (state0 []) (Raised "ActionFailed"))
    as (_ & _ & _ & _ & _ & H).
  - reflexivity.
  - apply H.
    + split.
      * intros. exists x89, [x50; x4e; x47]. reflexivity.
      * intros. reflexivity.
    + intros msg [<- | [<- | [<- | []]]]; reflexivity.
Defined.



(** A raw media record, as [handle_media_webhook] queues it. *)
Definition media_record (trace : string) : pydict :=
  [("raw_data", PStr "{}");
   ("headers", PDict []);
   ("timestamp", PFloat 0%float);
   ("message_type", PStr "raw_media");
   ("trace_id", PStr trace);
   ("template", PStr "media_news.html")].

(** [calm], with a media processor that recognises nothing. *)
Definition media_declines : Externals unit :=
  {| uuid4_prefix := uuid4_prefix calm;
     time_time := time_time calm;
     json_loads := json_loads calm;
     process_common_webhook := process_common_webhook calm;
     detect_and_process_raw_data := fun _ w => (inr None, w);
     process_game_webhook := process_game_webhook calm;
     put_kv_data := put_kv_data calm;
     get_kv_data := get_kv_data calm;
     browser_init := browser_init calm;
     start_webhook_server := start_webhook_server calm;
     render := render calm;
     format_time := format_time calm;
     b64encode := b64encode calm;
     platform_insts := platform_insts calm;
     get_platform_inst := get_platform_inst calm;
     create_adapter := create_adapter calm;
     send_forward_messages := send_forward_messages calm;
     send_message := send_message calm |}.

(** The media processor declines the first of two records: the note behind
    it is sent.  The game processor raises on the first of two records: the
    turn of the scheduler ends without an exception and the queue is
    empty. *)
Lemma collaborator_failure_witness :
  (res (process_message_queue unit media_declines cfg0
          (state0 [media_record "m"; note "b"])) = inr tt /\
   sends (out (process_message_queue unit media_declines cfg0
                 (state0 [media_record "m"; note "b"]))) = [image]) /\
  (res (batch_processor_turn unit calm cfg0 (state0 [bad_game; note "b"])) = inr tt /\
   message_queue
     (final (batch_processor_turn unit calm cfg0 (state0 [bad_game; note "b"]))) = []).
Proof.
  split.
  - destruct (collaborator_failure unit media_declines cfg0 [] [note "b"]
                (media_record "m") (state0 [media_record "m"; note "b"]) [])
      as (H & _).
    + reflexivity.
    + discriminate.
    + reflexivity.
    + destruct H as (_ & _ & _ & _ & Hrest).
      * exists None. split; reflexivity.
      * destruct (Hrest [note "b"] eq_refl) as [Hres Hout].
        split; [exact Hres |]. rewrite Hout. reflexivity.
  - destruct (collaborator_failure unit calm cfg0 [] [note "b"] bad_game
                (state0 [bad_game; note "b"]) [])
      as (_ & H & _).
    + reflexivity.
    + discriminate.
    + reflexivity.
    + destruct (H (Raised "AttributeError: 'int' object has no attribute 'lower'"))
        as (_ & H2 & H3 & _).
      * exists (PDict [("source", PInt 1)]). split; reflexivity.
      * split; assumption.
Defined.

(** C7 as stated does not hold.  The note ["b"] on its own is rendered and
    sent; queued behind a game record whose processor raises, it is drained
    with it, never rendered or sent, and not put back: the turn ends with
    the error log line of [start_batch_processor] and an empty queue. *)
Lemma collaborator_raise_loses_batch :
  out (batch_processor_turn unit calm cfg0 (state0 [bad_game; note "b"])) =
    [Sleep 300000; KvPut [] true; Log (L_game_start (PStr "bad"));
     CallGame (PDict [("source", PInt 1)]) (PDict []);
     Log (L_processor_error
            (Raised "AttributeError: 'int' object has no attribute 'lower'"));
     Sleep 10000] /\
  sends (out (batch_processor_turn unit calm cfg0 (state0 [bad_game; note "b"]))) = [] /\
  message_queue
    (final (batch_processor_turn unit calm cfg0 (state0 [bad_game; note "b"]))) = [] /\
  sends (out (batch_processor_turn unit calm cfg0 (state0 [note "b"]))) = [image].
Proof. vm_compute. repeat split. Qed.

(** With [batch_min_size = 3]: two notes are two individual sends, three
    notes are one forward package. *)
Example two_notes_individually :
  map (fun e => match e with SendMessage _ _ => 1 | SendForward _ _ _ _ _ _ => 2 | _ => 0 end)
    (filter (fun e => match e with SendMessage _ _ | SendForward _ _ _ _ _ _ => true | _ => false end)
       (out (send_intelligently unit calm cfg0 [note "a"; note "b"] (state0 []))))
  = [1; 1].
Proof. vm_compute. reflexivity. Qed.

Example three_notes_as_batch :
  map (fun e => match e with SendMessage _ _ => 1 | SendForward _ _ _ _ _ _ => 2 | _ => 0 end)
    (filter (fun e => match e with SendMessage _ _ | SendForward _ _ _ _ _ _ => true | _ => false end)
       (out (send_intelligently unit calm cfg0 three_notes (state0 []))))
  = [2].
Proof. vm_compute. reflexivity. Qed.

(** The alias napcat is served by the generic transport; an unknown name by
    the first platform there is; with no platform the send is given up. *)
Example napcat_uses_aiocqhttp :
  res (resolve_platform unit calm "napcat" (state0 [])) = inr (Some onebot).
Proof. reflexivity. Qed.

Example unknown_name_uses_first :
  res (resolve_platform unit (scenario false [mkPlatform "telegram" (Some "tg")])
         "discord" (state0 []))
  = inr (Some (mkPlatform "telegram" (Some "tg"))).
Proof. reflexivity. Qed.

Example no_platform_gives_up :
  out (send_batch_messages unit (scenario false []) cfg0 [note "a"] (state0 []))
  = [Log (L_rendering (PStr "a"));
     Render (PStr "hello") PNone (PStr "card_default.html")
       [("formatted_time", PStr "01/01 08:00")];
     Log (L_b64_ok (PStr "a") 17);
     Log (L_platform "llonebot");
     Log (L_try_aiocqhttp "llonebot");
     Log L_no_bot].
Proof. vm_compute. reflexivity. Qed.

(** A header sent twice is queued once, with its first value; the name is
    compared without case on lookup, as in [_check_auth]. *)
Example repeated_header_keeps_first :
  headers_dict [("X-Source", "a"); ("Content-Type", "text/plain"); ("X-Source", "b")]
  = [("X-Source", PStr "a"); ("Content-Type", PStr "text/plain")] /\
  headers_get [("x-webhook-token", "secret")] "X-Webhook-Token" = Some "secret".
Proof. split; reflexivity. Qed.

Definition telegram : Platform := mkPlatform "telegram" (Some "tg-bot").

Definition napcat : Platform := mkPlatform "napcat" (Some "nc-bot").

(** Under ["auto"], with a telegram and a napcat instance loaded in this
    order, the package goes through the client of the napcat instance. *)
Lemma platform_fallback_order_witness :
  exists group,
    In (SendForward "OneBotAdapter" "nc-bot" group
          [[("image_url", PStr "base64://iVBORw==")]] "2659908767" "media")
       (out (forward unit (scenario false [telegram; napcat]) cfg0
               [[("image_url", PStr "base64://iVBORw==")]] (state0 []))).
Proof.
  destruct (platform_fallback_order unit (scenario false [telegram; napcat]) cfg0
              [[("image_url", PStr "base64://iVBORw==")]] (state0 []))
    as (name & Hname & _ & _ & Hrest).
  - discriminate.
  - injection Hname as <-. cbv zeta in Hrest.
    destruct Hrest as (_ & _ & _ & _ & _ & Hsend & _).
    destruct (Hsend napcat "nc-bot" "OneBotAdapter" eq_refl eq_refl eq_refl)
      as (group & rest & Hout & _).
    exists group. rewrite Hout.
    right. apply in_or_app. right. right. right. left. reflexivity.
Defined.

(** ** Routes and configuration *)

(** [Main._normalize_route] *)
Definition _normalize_route (route : string) : string :=
  if String.prefix "/" route then route else "/" ++ route.

(** The two complaints of [Main._validate_config], each with the offending
    value. *)
Inductive config_error : Type :=
| BadPort (v : pyval)
| BadBatchSize (v : pyval).

(** [isinstance(v, int)], with the integer; a [bool] is an [int] in Python. *)
Definition as_int (v : pyval) : option Z :=
  match v with
  | PInt z => Some z
  | PBool b => Some (if b then 1 else 0)%Z
  | _ => None
  end.

(** The [errors] list of [Main._validate_config]; the method raises
    [ValueError] when it is not empty. *)
Definition _validate_config (config : pydict) : list config_error :=
  let port := dict_get_default config "webhook_port" (PInt 60071) in
  let batch_size := dict_get_default config "batch_min_size" (PInt 3) in
  (match as_int port with
   | Some p => if (p <? 1)%Z || (65535 <? p)%Z then [BadPort port] else []
   | None => [BadPort port]
   end ++
   match as_int batch_size with
   | Some b => if (b <? 1)%Z then [BadBatchSize batch_size] else []
   | None => [BadBatchSize batch_size]
   end)%list.

(** A normalised route starts with a slash; a route that starts with one is
    left alone, any other gets exactly one slash in front; normalising twice
    is normalising once. *)
Theorem normalize_route_slash (route : string) :
  String.prefix "/" (_normalize_route route) = true /\
  (String.prefix "/" route = true -> _normalize_route route = route) /\
  (String.prefix "/" route = false -> _normalize_route route = "/" ++ route) /\
  _normalize_route (_normalize_route route) = _normalize_route route.
Proof.
  unfold _normalize_route.
  destruct (String.prefix "/" route) eqn:E.
  - rewrite E. repeat split; intros; try reflexivity; try discriminate.
  - assert (H : String.prefix "/" ("/" ++ route) = true).
    { cbn. destruct route; reflexivity. }
    rewrite H. repeat split; intros; try reflexivity; try discriminate.
Qed.

(** The configuration is accepted exactly when the port is an integer from
    1 to 65535 and the minimum batch size an integer of at least 1 (a
    missing option counts as its default, 60071 and 3); both options are
    checked, so two bad values give two complaints. *)
Theorem validate_config_bounds (config : pydict) :
  let port := dict_get_default config "webhook_port" (PInt 60071) in
  let batch_size := dict_get_default config "batch_min_size" (PInt 3) in
  (_validate_config config = [] <->
   (exists p, as_int port = Some p /\ (1 <= p <= 65535)%Z) /\
   (exists b, as_int batch_size = Some b /\ (1 <= b)%Z)) /\
  length (_validate_config config) <= 2 /\
  (as_int port = None -> as_int batch_size = None ->
   _validate_config config = [BadPort port; BadBatchSize batch_size]) /\
  _validate_config [] = [].
Proof.
  intros port batch_size. unfold _validate_config. fold port batch_size.
  assert (Hport :
            match as_int port with
            | Some p => if (p <? 1)%Z || (65535 <? p)%Z then [BadPort port] else []
            | None => [BadPort port]
            end = [] <->
            exists p, as_int port = Some p /\ (1 <= p <= 65535)%Z).
  { destruct (as_int port) as [p |].
    - destruct (Z.ltb_spec p 1); destruct (Z.ltb_spec 65535 p); cbn [orb];
        split; try discriminate; try (intros; reflexivity);
        try (intros (p' & Hp & Hr); injection Hp as <-; lia).
      intros _. exists p. split; [reflexivity | lia].
    - split; [discriminate | intros (p' & Hp & _); discriminate]. }
  assert (Hbatch :
            match as_int batch_size with
            | Some b => if (b <? 1)%Z then [BadBatchSize batch_size] else []
            | None => [BadBatchSize batch_size]
            end = [] <->
            exists b, as_int batch_size = Some b /\ (1 <= b)%Z).
  { destruct (as_int batch_size) as [b |].
    - destruct (Z.ltb_spec b 1); split; try discriminate;
        try (intros; reflexivity);
        try (intros (b' & Hb & Hr); injection Hb as <-; lia).
      intros _. exists b. split; [reflexivity | lia].
    - split; [discriminate | intros (b' & Hb & _); discriminate]. }
  split; [| split; [| split]].
  - rewrite <- Hport, <- Hbatch. split.
    + intro H. apply app_eq_nil in H. exact H.
    + intros [-> ->]. reflexivity.
  - rewrite length_app.
    destruct (as_int port) as [p |]; destruct (as_int batch_size) as [b |];
      repeat match goal with
             | |- context [(?a <? ?b)%Z] => destruct (a <? b)%Z
             end;
      cbn; lia.
  - intros -> ->. reflexivity.
  - reflexivity.
Qed.

(** ** The game handler ([game/game_handler.py])

    [str(x)] and [s.lower()] are Python's; they are taken as they are, as
    [py_str] and [py_lower]. *)

Module GameHandler.

Section WithPython.

Variable py_str : pyval -> string.
Variable py_lower : string -> string.

Definition attribute_error (what : string) : exn :=
  Raised ("AttributeError: " ++ what).

(** The header part of [GameHandler.detect_game_source] (step 3), for a
    payload dict. *)
Definition detect_by_user_agent (payload : pydict) (headers : option pydict)
  : exn + string :=
  match headers with
  | Some ((k, v) :: h) =>
      match dict_get ((k, v) :: h) "user-agent" with
      | Some (PStr agent) =>
          let ua := py_lower agent in
          if str_contains "steam" ua then inr "steam"
          else if str_contains "discord" ua then inr "discord"
          else if str_contains "python-requests" ua then
            if dict_has payload "title" &&
               (dict_has payload "message" || dict_has payload "content")
            then
              let title :=
                py_lower (py_str (dict_get_default payload "title" (PStr ""))) in
              if str_contains "baas" title then inr "baas"
              else if str_contains "alas" title then inr "alas"
              else inr "generic_game"
            else inr "generic_game"
          else inr "generic_game"
      | Some _ => inl (attribute_error "'lower'")
      | None => inr "generic_game"
      end
  | _ => inr "generic_game"
  end.

(** [GameHandler.detect_game_source]; [headers] is a dict or [None]. *)
Definition detect_game_source (payload : pyval) (headers : option pydict)
  : exn + string :=
  match payload with
  | PDict d =>
      match dict_get_default d "source" (PStr "") with
      | PStr source =>
          let source_field := py_lower source in
          if negb (String.eqb source_field "") then
            if str_contains "alas" source_field then inr "alas"
            else if str_contains "baas" source_field then inr "baas"
            else inr source_field
          else
            let payload_str := py_lower (py_str payload) in
            if str_contains "baas" payload_str ||
               str_contains "bluearchive" payload_str ||
               str_contains "蔚蓝档案" payload_str
            then inr "baas"
            else if str_contains "alas" payload_str ||
                    str_contains "azurlane" payload_str ||
                    str_contains "碧蓝航线" payload_str
            then inr "alas"
            else detect_by_user_agent d headers
      | _ => inl (attribute_error "'lower'")
      end
  | _ => inl (attribute_error "'get'")
  end.

(** A source named in the payload decides alone: whatever else the payload
    and the headers say, a ["source"] whose lower-cased text contains
    "alas" gives ["alas"], otherwise one that contains "baas" gives
    ["baas"], and any other non-empty one is returned lower-cased.  A
    ["source"] that is not a string, or a payload that is not a dict,
    raises. *)
Theorem explicit_source_decides (d : pydict) (headers : option pydict) :
  let r := detect_game_source (PDict d) headers in
  (forall source,
     dict_get d "source" = Some (PStr source) ->
     py_lower source <> "" ->
     r = inr (if str_contains "alas" (py_lower source) then "alas"
              else if str_contains "baas" (py_lower source) then "baas"
              else py_lower source)) /\
  (forall v,
     dict_get d "source" = Some v ->
     (forall source, v <> PStr source) ->
     exists e, r = inl e) /\
  (forall v, (forall d', v <> PDict d') ->
             exists e, detect_game_source v headers = inl e).
Proof.
  intro r. split; [| split].
  - intros source Hsrc Hne. unfold r, detect_game_source, dict_get_default.
    rewrite Hsrc. cbv zeta.
    apply String.eqb_neq in Hne. rewrite Hne. cbn [negb].
    destruct (str_contains "alas" (py_lower source)); [reflexivity |].
    destruct (str_contains "baas" (py_lower source)); reflexivity.
  - intros v Hsrc Hnot. unfold r, detect_game_source, dict_get_default.
    rewrite Hsrc.
    destruct v as [| b | z | f | str | l | d'];
      try (eexists; reflexivity).
    exfalso. exact (Hnot str eq_refl).
  - intros v Hnot.
    destruct v as [| b | z | f | str | l | d'];
      try (eexists; reflexivity).
    exfalso. exact (Hnot d' eq_refl).
Qed.

(** The source that is detected is always one of alas, baas, steam, discord
    and generic_game, or the lower-cased ["source"] of the payload. *)
Theorem detected_source_range (payload : pyval) (headers : option pydict)
    (name : string) :
  py_lower "" = "" ->
  detect_game_source payload headers = inr name ->
  In name ["alas"; "baas"; "steam"; "discord"; "generic_game"] \/
  exists d source,
    payload = PDict d /\ dict_get d "source" = Some (PStr source) /\
    name = py_lower source.
Proof.
  intro Hempty.
  assert (Hagent : forall d, detect_by_user_agent d headers = inr name ->
                   In name ["alas"; "baas"; "steam"; "discord"; "generic_game"]).
  { intro d. unfold detect_by_user_agent.
    repeat match goal with
           | |- context [match ?x with _ => _ end] => destruct x
           end;
      intro H; try discriminate H; injection H as <-; cbn [In]; auto 10. }
  unfold detect_game_source, dict_get_default.
  destruct payload as [| | | | | | d]; try discriminate.
  destruct (dict_get d "source") as [[| | | | source | |] |] eqn:Hsrc;
    try discriminate; cbv zeta.
  - destruct (negb (String.eqb (py_lower source) "")).
    + destruct (str_contains "alas" (py_lower source));
        [intro H; injection H as <-; cbn [In]; auto 10 |].
      destruct (str_contains "baas" (py_lower source));
        [intro H; injection H as <-; cbn [In]; auto 10 |].
      intro H; injection H as <-.
      right. exists d, source. repeat split. exact Hsrc.
    + destruct (_ || _ || _);
        [intro H; injection H as <-; cbn [In]; auto 10 |].
      destruct (_ || _ || _);
        [intro H; injection H as <-; cbn [In]; auto 10 |].
      intro H. left. exact (Hagent d H).
  - rewrite Hempty. cbn [String.eqb negb].
    destruct (_ || _ || _);
      [intro H; injection H as <-; cbn [In]; auto 10 |].
    destruct (_ || _ || _);
      [intro H; injection H as <-; cbn [In]; auto 10 |].
    intro H. left. exact (Hagent d H).
Qed.

(** [clean_placeholder], the local helper of
    [GameHandler.process_game_webhook]: a falsy value, or a string that
    still holds a [{...}] template placeholder, counts as absent. *)
Definition clean_placeholder (val : pyval) : pyval :=
  if negb (py_truthy val) then PNone
  else match val with
       | PStr s => if str_contains "{" s && str_contains "}" s then PNone else val
       | _ => val
       end.

(** [payload.get(k)] *)
Definition get_or_none (d : pydict) (k : string) : pyval :=
  dict_get_default d k PNone.

(** The text after the first occurrence of [sep] in [s], if there is one. *)
Fixpoint after_first (sep s : string) : option string :=
  if String.prefix sep s
  then Some (String.substring (String.length sep)
               (String.length s - String.length sep) s)
  else match s with
       | EmptyString => None
       | String _ s' => after_first sep s'
       end.

(** [s.split(sep)[0]]: the text before the first occurrence of [sep]. *)
Fixpoint before_first (sep s : string) : string :=
  if String.prefix sep s then ""
  else match s with
       | EmptyString => ""
       | String c s' => String c (before_first sep s')
       end.

(** [level_map.get(level, "通知")] *)
Definition level_label (level : string) : string :=
  if String.eqb level "error" then "严重"
  else if String.eqb level "critical" then "崩溃"
  else if String.eqb level "warning" then "警告"
  else if String.eqb level "success" then "成功"
  else if String.eqb level "info" then "信息"
  else "通知".

(** The rule-based parse of [process_game_webhook] (step 2), for a payload
    dict whose source was detected; [push_time] is the formatted current
    time. *)
Definition parse_by_rules (payload : pydict) (source push_time : string) : pydict :=
  let is_alas := String.eqb source "alas" in
  let is_baas := String.eqb source "baas" in
  let game_name :=
    clean_placeholder
      (py_or (get_or_none payload "game_name") (get_or_none payload "game")) in
  let game_name :=
    if negb (py_truthy game_name) then
      PStr (if is_alas then "碧蓝航线 (Alas)"
            else if is_baas then "蔚蓝档案 (BAAS)" else "未知游戏")
    else game_name in
  let event_type :=
    py_or (clean_placeholder
             (py_or (get_or_none payload "title")
                (py_or (get_or_none payload "event") (get_or_none payload "action"))))
          (PStr "通知") in
  let detail :=
    py_or (clean_placeholder
             (py_or (get_or_none payload "desp")
                (py_or (get_or_none payload "content")
                   (get_or_none payload "message"))))
          (PStr (py_str (PDict payload))) in
  let event_type :=
    if is_alas && dict_has payload "content" then
      let content_val := py_str (dict_get_default payload "content" (PStr "")) in
      if str_contains "Task `" content_val && str_contains "` failed" content_val
      then
        match after_first "Task `" content_val with
        | Some rest =>
            PStr ("任务失败: " ++
                  before_first "` failed" (before_first "Task `" rest))
        | None => event_type
        end
      else event_type
    else event_type in
  let level :=
    py_lower (py_str (dict_get_default payload "level" (PStr "info"))) in
  [("game_name", game_name);
   ("event", event_type);
   ("content", detail);
   ("level", PStr (level_label level));
   ("source", PStr source);
   ("time", PStr push_time)].

(** Whether the AI parse is taken: it ran, returned a non-empty dict and its
    ["success"] is truthy.  [None] is the switch being off; [inl] is the
    call raising, which the handler logs and ignores. *)
Definition ai_succeeded (ai : option (exn + pydict)) : option pydict :=
  match ai with
  | Some (inr ((k, v) :: d)) =>
      if py_truthy (get_or_none ((k, v) :: d) "success")
      then Some ((k, v) :: d) else None
  | _ => None
  end.

(** The text assembled in step 3: the game name on the first line, three
    labelled lines, then the detail after an empty line, then the AI note.
    [str.join] raises [TypeError] on a detail that is not a string. *)
Definition message_text_of (parsed_data : pydict) (ai_success : bool)
  : exn + string :=
  let game_name := dict_get_default parsed_data "game_name" (PStr "未知游戏") in
  let level_str := dict_get_default parsed_data "level" (PStr "通知") in
  let event_str := dict_get_default parsed_data "event" (PStr "常规通知") in
  let content_str := dict_get_default parsed_data "content" (PStr "") in
  let time_str := dict_get_default parsed_data "time" (PStr "未知时间") in
  let head :=
    [py_str game_name;
     "类型: " ++ py_str level_str;
     "事件: " ++ py_str event_str;
     "时间: " ++ py_str time_str] in
  let note := if ai_success then ["备注: 由 AI 智能解析完成"] else [] in
  let newline := String "010"%char "" in
  if py_truthy content_str then
    match content_str with
    | PStr c => inr (String.concat newline (head ++ [""; c] ++ note)%list)
    | _ => inl (Raised "TypeError: sequence item: expected str instance")
    end
  else inr (String.concat newline (head ++ note)%list).

(** [GameHandler.process_game_webhook].  [ai] is the outcome of the AI
    parse, [push_time] the formatted current time, [background] stands for
    [_get_random_bg_for_source]. *)
Definition process_game_webhook (ai : option (exn + pydict)) (push_time : string)
    (background : pyval -> exn + string)
    (payload : pyval) (headers : option pydict) : exn + pydict :=
  let parsed :=
    match ai_succeeded ai with
    | Some ai_result => inr (ai_result, true)
    | None =>
        match detect_game_source payload headers with
        | inl e => inl e
        | inr source =>
            match payload with
            | PDict d => inr (parse_by_rules d source push_time, false)
            | _ => inl (attribute_error "'get'")
            end
        end
    end in
  match parsed with
  | inl e => inl e
  | inr (parsed_data, ai_success) =>
      match message_text_of parsed_data ai_success with
      | inl e => inl e
      | inr message_text =>
          let source := dict_get_default parsed_data "source" (PStr "generic") in
          match background source with
          | inl e => inl e
          | inr poster =>
              inr [("status", PStr "success");
                   ("message_text", PStr message_text);
                   ("source", source);
                   ("game_data", payload);
                   ("poster_url", PStr poster)]
          end
      end
  end.

(** A result of [process_game_webhook] is never falsy: it is a dict with
    status ["success"], a string ["message_text"], the payload as
    ["game_data"] and a ["poster_url"].  So the scheduler's [if processed:]
    never drops a game record; the handler either delivers or raises. *)
Theorem game_result_shape (ai : option (exn + pydict)) (push_time : string)
    (background : pyval -> exn + string) (payload : pyval)
    (headers : option pydict) (d : pydict) :
  process_game_webhook ai push_time background payload headers = inr d ->
  dict_truthy (Some d) = true /\
  dict_get d "status" = Some (PStr "success") /\
  (exists message_text, dict_get d "message_text" = Some (PStr message_text)) /\
  dict_get d "game_data" = Some payload /\
  (exists poster, dict_get d "poster_url" = Some (PStr poster)).
Proof.
  unfold process_game_webhook.
  destruct (match ai_succeeded ai with Some _ => _ | None => _ end)
    as [e | [parsed_data ai_success]]; [discriminate |].
  destruct (message_text_of parsed_data ai_success) as [e | message_text];
    [discriminate |].
  cbv zeta.
  destruct (background _) as [e | poster]; [discriminate |].
  intro H. injection H as <-.
  repeat split; try reflexivity; eexists; reflexivity.
Qed.

(** Payloads on which the rule-based path raises: a payload that is not a
    dict, a ["source"] that is not a string, and a detail (["desp"],
    ["content"] or ["message"]) that is truthy but not a string, which
    [str.join] refuses. *)
Theorem game_payload_errors (ai : option (exn + pydict)) (push_time : string)
    (background : pyval -> exn + string) (headers : option pydict) :
  ai_succeeded ai = None ->
  (forall payload,
     (forall d, payload <> PDict d) ->
     exists e, process_game_webhook ai push_time background payload headers = inl e) /\
  (forall d v,
     dict_get d "source" = Some v ->
     (forall source, v <> PStr source) ->
     exists e, process_game_webhook ai push_time background (PDict d) headers = inl e) /\
  (forall d source detail,
     detect_game_source (PDict d) headers = inr source ->
     clean_placeholder
       (py_or (get_or_none d "desp")
          (py_or (get_or_none d "content") (get_or_none d "message"))) = detail ->
     py_truthy detail = true ->
     (forall c, detail <> PStr c) ->
     exists e, process_game_webhook ai push_time background (PDict d) headers = inl e).
Proof.
  intro Hai. unfold process_game_webhook. rewrite Hai.
  split; [| split].
  - intros payload Hnot.
    destruct payload as [| b | z | f | str | l | d];
      try (eexists; reflexivity).
    exfalso. exact (Hnot d eq_refl).
  - intros d v Hsrc Hnot.
    unfold detect_game_source, dict_get_default. rewrite Hsrc.
    destruct v as [| b | z | f | str | l | d'];
      try (eexists; reflexivity).
    exfalso. exact (Hnot str eq_refl).
  - intros d source detail Hdetect Hdetail Htruthy Hnot.
    rewrite Hdetect.
    unfold message_text_of, parse_by_rules. cbv zeta.
    unfold dict_get_default at 1 2 3 4. cbn [dict_get String.eqb Ascii.eqb Bool.eqb].
    unfold dict_get_default at 1. cbn [dict_get String.eqb Ascii.eqb Bool.eqb].
    rewrite Hdetail. unfold py_or. rewrite !Htruthy.
    destruct detail as [| b | z | f | str | l | d'];
      try (eexists; reflexivity).
    exfalso. exact (Hnot str eq_refl).
Qed.

(** A title that still holds a template placeholder hides the event: the
    title is taken first because it is truthy, then discarded as a
    placeholder, so the event becomes the default ["通知"] even when the
    payload has a usable ["event"] or ["action"]. *)
Theorem placeholder_title_hides_event (payload : pydict)
    (source push_time title : string) :
  source <> "alas" ->
  get_or_none payload "title" = PStr title ->
  str_contains "{" title = true ->
  str_contains "}" title = true ->
  dict_get (parse_by_rules payload source push_time) "event"
    = Some (PStr "通知").
Proof.
  intros Hsource Htitle Hopen Hclose.
  assert (Hne : String.eqb title "" = false).
  { destruct title; [discriminate Hopen | reflexivity]. }
  unfold parse_by_rules. cbv zeta.
  cbn [dict_get String.eqb Ascii.eqb Bool.eqb].
  apply String.eqb_neq in Hsource. rewrite Hsource. cbn [andb].
  rewrite Htitle. unfold py_or at 2. cbn [py_truthy]. rewrite Hne. cbn [negb].
  unfold clean_placeholder. cbn [py_truthy]. rewrite Hne, Hopen, Hclose.
  reflexivity.
Qed.

End WithPython.

End GameHandler.

(** *** More scenarios *)

(** [calm], with a KV store that raises [put_error] (if any) on every write
    and a renderer that returns [rendered]. *)
Definition world_with (put_error : option exn) (rendered : option (list byte))
  : Externals unit :=
  {| uuid4_prefix := uuid4_prefix calm;
     time_time := time_time calm;
     json_loads := json_loads calm;
     process_common_webhook := process_common_webhook calm;
     detect_and_process_raw_data := detect_and_process_raw_data calm;
     process_game_webhook := process_game_webhook calm;
     put_kv_data := fun _ w => (put_error, w);
     get_kv_data := get_kv_data calm;
     browser_init := browser_init calm;
     start_webhook_server := start_webhook_server calm;
     render := fun _ _ _ _ w => (inr rendered, w);
     format_time := format_time calm;
     b64encode := b64encode calm;
     platform_insts := platform_insts calm;
     get_platform_inst := get_platform_inst calm;
     create_adapter := create_adapter calm;
     send_forward_messages := send_forward_messages calm;
     send_message := send_message calm |}.

(** [str(x)] on strings, and a fixed text for anything else. *)
Definition demo_str (v : pyval) : string :=
  match v with PStr s => s | _ => "<object>" end.

Lemma cycle_never_requeues_witness :
  message_queue
    (final (process_message_queue unit calm cfg0 (state0 [bad_game; note "b"]))) = [] /\
  message_queue
    (final (batch_processor_turn unit calm cfg0 (state0 [bad_game; note "b"]))) = [].
Proof.
  destruct (cycle_never_requeues unit calm cfg0 (state0 [bad_game; note "b"]))
    as (H1 & _ & H3 & _).
  - discriminate.
  - split; assumption.
Defined.

Lemma failed_write_keeps_record_witness :
  message_queue
    (final (_enqueue unit (world_with (Some (Raised "OSError")) (Some image))
              (note "a") (state0 []))) = [note "a"] /\
  kv_store
    (final (_enqueue unit (world_with (Some (Raised "OSError")) (Some image))
              (note "a") (state0 []))) = None.
Proof.
  destruct (failed_write_keeps_record unit
              (world_with (Some (Raised "OSError")) (Some image))
              (note "a") (state0 []) (Raised "OSError"))
    as (_ & H2 & H3 & _).
  - reflexivity.
  - split; assumption.
Defined.

Lemma restart_recovers_pending_witness :
  message_queue
    (final (initialize unit calm
       (fresh_process unit tt
          (kv_store (snd (run_schedule unit calm cfg0
                            [Arrive (note "a"); Tick; Arrive (note "b")]
                            (mkState tt [] (Some []) 0%float))))
          0%float)))
  = message_queue (snd (run_schedule unit calm cfg0
                          [Arrive (note "a"); Tick; Arrive (note "b")]
                          (mkState tt [] (Some []) 0%float))).
Proof.
  destruct (restart_recovers_pending unit calm cfg0
              [Arrive (note "a"); Tick; Arrive (note "b")]
              (mkState tt [] (Some []) 0%float) tt 0%float)
    as (_ & H & _).
  - intros q w. reflexivity.
  - reflexivity.
  - reflexivity.
  - exact H.
Defined.

Lemma game_malformed_json_is_500_witness :
  res (handle_webhook unit calm cfg0 Game (post (Some "secret") "[") (state0 []))
    = inr (mkResponse "Internal Error" 500) /\
  message_queue
    (final (handle_webhook unit calm cfg0 Game (post (Some "secret") "[")
              (state0 []))) = [].
Proof.
  destruct (game_malformed_json_is_500 unit calm cfg0 (post (Some "secret") "[")
              (state0 []) "[" (Raised "JSONDecodeError"))
    as (H1 & H2 & _).
  - reflexivity.
  - reflexivity.
  - reflexivity.
  - split; assumption.
Defined.

Lemma common_unparsable_is_400_witness :
  res (handle_webhook unit calm cfg0 Common (post (Some "secret") "") (state0 []))
    = inr invalid_data /\
  message_queue
    (final (handle_webhook unit calm cfg0 Common (post (Some "secret") "")
              (state0 []))) = [].
Proof.
  destruct (common_unparsable_is_400 unit calm cfg0 (post (Some "secret") "")
              (state0 []) "" None)
    as (H1 & _ & H3 & _).
  - reflexivity.
  - reflexivity.
  - reflexivity.
  - exact I.
  - split; assumption.
Defined.

Definition entry0 : pydict :=
  [("message_text", PStr "");
   ("image_url", PStr "base64://iVBORw==");
   ("sender_name", PStr "media")].

Lemma forward_package_shape_witness :
  length [entry0; entry0; entry0] <= length three_notes.
Proof.
  destruct (forward_package_shape unit calm cfg0 three_notes (state0 [])
              [entry0; entry0; entry0])
    as (H & _).
  - reflexivity.
  - exact H.
Defined.

Lemma nothing_rendered_gives_up_witness :
  sends (out (send_batch_messages unit (world_with None None) cfg0 three_notes
                (state0 []))) = [] /\
  attempts (out (send_batch_messages unit (world_with None None) cfg0 three_notes
                   (state0 []))) = [PStr "a"; PStr "b"; PStr "c"].
Proof.
  destruct (nothing_rendered_gives_up unit (world_with None None) cfg0
              three_notes (state0 []))
    as (_ & H2 & H3).
  - reflexivity.
  - split; [exact H2 | exact H3].
Defined.

Lemma auto_platform_inference_witness :
  exists name,
    get_effective_platform_name unit calm cfg0 (state0 [])
      = mkResult (inr name) (state0 []) [] /\
    name = "aiocqhttp".
Proof.
  destruct (auto_platform_inference unit calm cfg0 (state0 []))
    as (name & H1 & _ & _ & H4 & _).
  - reflexivity.
  - exists name. split; [exact H1 |]. apply H4; reflexivity.
Defined.

Lemma detected_source_range_witness :
  In "alas" ["alas"; "baas"; "steam"; "discord"; "generic_game"] \/
  exists d source,
    PDict [("source", PStr "ALAS-bot")] = PDict d /\
    dict_get d "source" = Some (PStr source) /\ "alas" = lower source.
Proof.
  apply (GameHandler.detected_source_range demo_str lower
           (PDict [("source", PStr "ALAS-bot")]) None "alas").
  - reflexivity.
  - reflexivity.
Defined.

Lemma game_result_shape_witness :
  exists d,
    GameHandler.process_game_webhook demo_str lower None "2024-01-01 00:00:00"
      (fun _ => inr "") (PDict [("title", PStr "Done")]) None = inr d /\
    dict_get d "status" = Some (PStr "success").
Proof.
  destruct (GameHandler.process_game_webhook demo_str lower None
              "2024-01-01 00:00:00" (fun _ => inr "")
              (PDict [("title", PStr "Done")]) None) as [e | d] eqn:E.
  - vm_compute in E. discriminate E.
  - exists d. split; [reflexivity |].
    exact (proj1 (proj2 (GameHandler.game_result_shape demo_str lower None
                           "2024-01-01 00:00:00" (fun _ => inr "")
                           (PDict [("title", PStr "Done")]) None d E))).
Defined.

Lemma game_payload_errors_witness :
  exists e,
    GameHandler.process_game_webhook demo_str lower None "2024-01-01 00:00:00"
      (fun _ => inr "") (PDict [("source", PInt 1)]) None = inl e.
Proof.
  destruct (GameHandler.game_payload_errors demo_str lower None
              "2024-01-01 00:00:00" (fun _ => inr "") None)
    as (_ & H & _).
  - reflexivity.
  - apply (H [("source", PInt 1)] (PInt 1)).
    + reflexivity.
    + discriminate.
Defined.

Lemma placeholder_title_hides_event_witness :
  dict_get
    (GameHandler.parse_by_rules demo_str lower
       [("title", PStr "{title}"); ("event", PStr "Stage cleared")]
       "generic_game" "2024-01-01 00:00:00")
    "event"
  = Some (PStr "通知").
Proof.
  apply GameHandler.placeholder_title_hides_event with (title := "{title}").
  - discriminate.
  - reflexivity.
  - reflexivity.
  - reflexivity.
Defined.

Lemma enriched_record_is_stamped_witness :
  exists record,
    res (enrich_one unit calm cfg0 [note "a"] (game_record "g" (PDict []))
           (state0 []))
      = inr ([note "a"] ++ [record])%list /\
    dict_get record "trace_id" = Some (PStr "g") /\
    dict_get record "message_type" = Some (PStr "game") /\
    dict_get record "message_text" = Some (PStr "game").
Proof.
  destruct (enriched_record_is_stamped unit calm cfg0 [note "a"]
              (game_record "g" (PDict [])) (state0 [])
              [("status", PStr "success");
               ("message_text", PStr "game");
               ("source", PStr "generic_game");
               ("game_data", PDict []);
               ("poster_url", PStr "")])
    as (_ & Hgame).
  - discriminate.
  - destruct (Hgame eq_refl eq_refl (PDict []) eq_refl eq_refl)
      as (record & H1 & H2 & _ & H4 & H5).
    exists record. split; [exact H1 |]. split; [exact H2 |].
    split; [exact H4 |].
    rewrite H5 by discriminate. reflexivity.
Defined.

(** [cfg0] with another group id. *)
Definition cfg_for_group (group : string) : Config :=
  {| group_id := group;
     platform_name := platform_name cfg0;
     batch_min_size := batch_min_size cfg0;
     batch_interval_seconds := batch_interval_seconds cfg0;
     sender_id := sender_id cfg0;
     sender_name := sender_name cfg0;
     webhook_token := webhook_token cfg0;
     media_template := media_template cfg0;
     game_template := game_template cfg0;
     common_template := common_template cfg0 |}.

(** Three notes for the group ["room:12:34"] go out as one package,
    addressed to ["room_12_34"]. *)
Lemma batch_delivery_witness :
  forwards (out (send_batch_messages unit calm (cfg_for_group "room:12:34")
                   three_notes (state0 [])))
    = [[entry0; entry0; entry0]] /\
  sends (out (send_batch_messages unit calm (cfg_for_group "room:12:34")
                three_notes (state0 []))) = [] /\
  In (SendForward "OneBotAdapter" "bot" "room_12_34" [entry0; entry0; entry0]
        "2659908767" "media")
     (out (send_batch_messages unit calm (cfg_for_group "room:12:34")
             three_notes (state0 []))).
Proof.
  destruct (batch_delivery unit calm (cfg_for_group "room:12:34") three_notes
              (state0 []) [entry0; entry0; entry0])
    as (name & platform & Hname & Hplatform & _ & Hsent).
  - reflexivity.
  - discriminate.
  - injection Hname as <-. injection Hplatform as <-.
    destruct (Hsent "bot" "OneBotAdapter" PNone eq_refl eq_refl eq_refl)
      as (_ & H2 & H3 & H4 & _).
    split; [exact H2 |]. split; [exact H3 | exact H4].
Defined.

Lemma unauthorized_only_for_token_witness :
  webhook_token cfg0 <> "" /\
  headers_get (headers (post (Some "guess") "hello")) "X-Webhook-Token"
    <> Some (webhook_token cfg0).
Proof.
  apply (unauthorized_only_for_token unit calm cfg0 Common
           (post (Some "guess") "hello") (state0 []) unauthorized).
  - reflexivity.
  - reflexivity.
Defined.

(** ** Route lists *)

(** [s.split(c)] for a one-character separator. *)
Fixpoint split_char (c : ascii) (s : string) : list string :=
  match s with
  | EmptyString => [EmptyString]
  | String a s' =>
      if Ascii.eqb a c then EmptyString :: split_char c s'
      else match split_char c s' with
           | piece :: rest => String a piece :: rest
           | [] => [String a EmptyString]
           end
  end.

Lemma split_char_some (c : ascii) (s : string) : split_char c s <> [].
Proof.
  destruct s as [| a s]; [discriminate |]. cbn.
  destruct (Ascii.eqb a c); [discriminate |].
  destruct (split_char c s); discriminate.
Qed.

(** Joining the pieces with the separator gives the string back. *)
Lemma split_char_join (c : ascii) (s : string) :
  String.concat (String c EmptyString) (split_char c s) = s.
Proof.
  induction s as [| a s IH]; [reflexivity |].
  cbn [split_char].
  destruct (Ascii.eqb_spec a c) as [-> | Hc].
  - pose proof (split_char_some c s) as Hsome.
    destruct (split_char c s) as [| piece rest]; [congruence |].
    cbn [String.concat]. rewrite <- IH. reflexivity.
  - destruct (split_char c s) as [| piece rest] eqn:E;
      [destruct (split_char_some c s E) |].
    rewrite <- IH. destruct rest; reflexivity.
Qed.

(** No piece holds the separator. *)
Lemma split_char_pieces (c : ascii) (s : string) :
  Forall (fun piece => str_contains (String c EmptyString) piece = false)
         (split_char c s).
Proof.
  induction s as [| a s IH]; [repeat constructor |].
  cbn [split_char].
  destruct (Ascii.eqb_spec a c) as [-> | Hc].
  - constructor; [reflexivity | exact IH].
  - destruct (split_char c s) as [| piece rest] eqn:E;
      [destruct (split_char_some c s E) |].
    inversion IH as [| ? ? Hpiece Hrest]; subst.
    constructor; [| exact Hrest].
    cbn [str_contains String.prefix].
    destruct (ascii_dec c a) as [Heq |]; [congruence | exact Hpiece].
Qed.

Section Routes.

(** [s.strip()] is Python's. *)
Variable py_strip : string -> string.

(** The routes that a list entry gives. *)
Definition listed_route (r : pyval) : list string :=
  match r with
  | PStr s => if String.eqb (py_strip s) "" then [] else [s]
  | _ => []
  end.

(** [Main._parse_routes] *)
Definition _parse_routes (routes : pyval) : list string :=
  match routes with
  | PStr s =>
      map py_strip
        (filter (fun r => negb (String.eqb (py_strip r) "")) (split_char "," s))
  | PList l => flat_map listed_route l
  | _ => []
  end.

(** The routes read from the configuration.  A string is cut at its commas
    and every piece is stripped; the pieces that strip to something are
    all returned, stripped, and those that strip to nothing are dropped, so
    no route is empty.  A list keeps its string entries as they are,
    unstripped, and drops the entries that strip to nothing and those that
    are not strings.  Anything else gives no route.  Once normalised, every
    route starts with a slash. *)
Theorem parse_routes_shape (routes : pyval) :
  (forall s r,
     routes = PStr s -> In r (_parse_routes routes) ->
     r <> "" /\
     exists piece, In piece (split_char "," s) /\ r = py_strip piece) /\
  (forall s piece,
     routes = PStr s -> In piece (split_char "," s) -> py_strip piece <> "" ->
     In (py_strip piece) (_parse_routes routes)) /\
  (forall l r,
     routes = PList l -> In r (_parse_routes routes) ->
     In (PStr r) l /\ py_strip r <> "") /\
  (forall l r,
     routes = PList l -> In (PStr r) l -> py_strip r <> "" ->
     In r (_parse_routes routes)) /\
  (match routes with PStr _ | PList _ => True | _ => _parse_routes routes = [] end) /\
  Forall (fun r => String.prefix "/" (_normalize_route r) = true)
         (_parse_routes routes).
Proof.
  split; [| split; [| split; [| split; [| split]]]].
  - intros s r -> Hin. cbn [_parse_routes] in Hin.
    apply in_map_iff in Hin. destruct Hin as (piece & <- & Hpiece).
    apply filter_In in Hpiece. destruct Hpiece as [Hpiece Hkeep].
    apply negb_true_iff, String.eqb_neq in Hkeep.
    split; [exact Hkeep |]. exists piece. split; [exact Hpiece | reflexivity].
  - intros s piece -> Hpiece Hne. cbn [_parse_routes].
    apply in_map. apply filter_In. split; [exact Hpiece |].
    apply negb_true_iff, String.eqb_neq. exact Hne.
  - intros l r -> Hin. cbn [_parse_routes] in Hin.
    apply in_flat_map in Hin. destruct Hin as (entry & Hentry & Hr).
    destruct entry as [| b | z | f | s | l' | d]; cbn [listed_route] in Hr;
      try contradiction.
    destruct (String.eqb_spec (py_strip s) "") as [| Hne]; [contradiction |].
    destruct Hr as [<- | []]. split; assumption.
  - intros l r -> Hin Hne. cbn [_parse_routes].
    apply in_flat_map. exists (PStr r). split; [exact Hin |].
    cbn [listed_route]. apply String.eqb_neq in Hne. rewrite Hne.
    left. reflexivity.
  - destruct routes; try reflexivity; exact I.
  - apply Forall_forall. intros r _. unfold _normalize_route.
    destruct (String.prefix "/" r) eqn:E; [exact E |].
    destruct r; reflexivity.
Qed.

End Routes.

(** ** The card renderer ([utils/html_renderer.py])

    [HtmlRenderer.render] up to its call of [render_template]: the parse of
    the text into a title and items, the template lookup and the template
    context.  Strings are UTF-8 encoded, so the full-width colon is the
    three bytes of ["："]; [s.strip()] is Python's and is taken as it is, as
    [py_strip]. *)

Module HtmlRenderer.

Definition newline : string := String "010"%char EmptyString.

(** [s.split("\n")] *)
Definition split_lines (s : string) : list string := split_char "010" s.

(** [s.split(sep, 1)] for a non-empty [sep] *)
Fixpoint split_once (sep s : string) : list string :=
  if String.prefix sep s
  then [EmptyString;
        String.substring (String.length sep)
          (String.length s - String.length sep) s]
  else match s with
       | EmptyString => [EmptyString]
       | String c s' =>
           match split_once sep s' with
           | part :: rest => String c part :: rest
           | [] => [String c EmptyString]
           end
       end.

(** [parts[i]] *)
Definition item_at (parts : list string) (i : nat) : exn + string :=
  match nth_error parts i with
  | Some part => inr part
  | None => inl (Raised "IndexError: list index out of range")
  end.

Definition kv_item (label value : string) : pydict :=
  [("type", PStr "kv"); ("label", PStr label); ("value", PStr value)].

Definition text_item (text : string) : pydict :=
  [("type", PStr "text"); ("text", PStr text)].

Definition subdirs : list string := ["game"; "media"; "common"; "."].

(** [None / "utils"] *)
Definition no_data_path : exn :=
  Raised "TypeError: unsupported operand type(s) for /: 'NoneType' and 'str'".

(** [context.update(extra_context)] *)
Definition dict_update (d extra : pydict) : pydict :=
  fold_left (fun acc kv => dict_set acc (fst kv) (snd kv)) extra d.

Section WithPython.

Variable py_strip : string -> string.

(** A line with a colon [sep] in it. *)
Definition split_kv (sep line : string) : exn + option pydict :=
  let parts := split_once sep line in
  match item_at parts 0 with
  | inl e => inl e
  | inr label =>
      match item_at parts 1 with
      | inl e => inl e
      | inr value => inr (Some (kv_item (label ++ sep) (py_strip value)))
      end
  end.

(** The body of the [for] loop of [render]; [None] is its [continue]. *)
Definition parse_line (line : string) : exn + option pydict :=
  let line := py_strip line in
  if String.eqb line "" then inr None
  else if str_contains "：" line then split_kv "：" line
  else if str_contains ":" line then split_kv ":" line
  else inr (Some (text_item line)).

Fixpoint parse_items (lines : list string) (items : list pydict)
  : exn + list pydict :=
  match lines with
  | [] => inr items
  | line :: rest =>
      match parse_line line with
      | inl e => inl e
      | inr None => parse_items rest items
      | inr (Some item) => parse_items rest (items ++ [item])%list
      end
  end.

(** The title and the items of a text. *)
Definition parse_text (text : string) : exn + (string * list pydict) :=
  let lines := split_lines (py_strip text) in
  let title := match lines with line :: _ => line | [] => "" end in
  match parse_items (tl lines) [] with
  | inl e => inl e
  | inr items => inr (title, items)
  end.

(** The template lookup.  [data_path] is [None] when the renderer was made
    without one, and then [self.data_path / "utils"] raises;
    [template_exists base subdir name] is [Path.exists()] of
    [base / "utils" / "templates" / subdir / name]. *)
Fixpoint find_template (data_path : option string)
    (template_exists : string -> string -> string -> bool)
    (dirs : list string) (template_name : string) : exn + string :=
  match dirs with
  | [] => inr template_name
  | subdir :: rest =>
      match data_path with
      | None => inl no_data_path
      | Some base =>
          if template_exists base subdir template_name
          then inr (if String.eqb subdir "." then template_name
                    else subdir ++ "/" ++ template_name)
          else find_template data_path template_exists rest template_name
      end
  end.

(** The context handed to the template.  [resource_path] and [custom_uri]
    are the two resource URIs, [font_regular] and [font_bold] the entries
    of the font cache. *)
Definition render_context (title : string) (items : list pydict)
    (image_url : pyval) (resource_path custom_uri : string)
    (font_regular font_bold : pyval) (extra_context : option pydict) : pydict :=
  let context :=
    [("poster_url", py_or image_url (PStr ""));
     ("title", PStr title);
     ("items", PList (map PDict items));
     ("resource_path", PStr resource_path);
     ("custom_resource_path", PStr custom_uri);
     ("font_base64_regular", py_or font_regular (PStr ""));
     ("font_base64_bold", py_or font_bold (PStr ""))] in
  match extra_context with
  | Some (kv :: more) => dict_update context (kv :: more)
  | _ => context
  end.

(** What [render] hands to [render_template]: the template found and the
    context. *)
Definition render (data_path : option string)
    (template_exists : string -> string -> string -> bool)
    (as_uri : string -> string) (resource_path : string)
    (font_regular font_bold : pyval)
    (text : string) (image_url : pyval) (template_name : string)
    (extra_context : option pydict) : exn + (string * pydict) :=
  match parse_text text with
  | inl e => inl e
  | inr (title, items) =>
      match find_template data_path template_exists subdirs template_name with
      | inl e => inl e
      | inr found_template =>
          let custom_uri :=
            match data_path with Some base => as_uri base | None => "" end in
          inr (found_template,
               render_context title items image_url resource_path custom_uri
                 font_regular font_bold extra_context)
      end
  end.

(** *** Splitting *)

Lemma substring_all (s : string) : String.substring 0 (String.length s) s = s.
Proof. induction s as [| c s IH]; [reflexivity |]. cbn. rewrite IH. reflexivity. Qed.

Lemma prefix_rest (p : string) :
  forall s, String.prefix p s = true ->
            s = p ++ String.substring (String.length p)
                       (String.length s - String.length p) s.
Proof.
  induction p as [| a p IH]; intros s H.
  - cbn. rewrite Nat.sub_0_r, substring_all. reflexivity.
  - destruct s as [| b s]; [discriminate |].
    cbn in H. destruct (ascii_dec a b) as [-> |]; [| discriminate].
    cbn. f_equal. apply IH. exact H.
Qed.

Lemma prefix_append (p : string) :
  forall s t, String.prefix p s = true -> String.prefix p (s ++ t) = true.
Proof.
  induction p as [| a p IH]; intros s t H; [destruct s, t; reflexivity |].
  destruct s as [| b s]; [discriminate |].
  cbn in *. destruct (ascii_dec a b); [apply IH; exact H | discriminate].
Qed.

(** [split_once] cuts at the first occurrence of the separator. *)
Lemma split_once_found (sep : string) :
  sep <> "" ->
  forall s, str_contains sep s = true ->
            exists a b, split_once sep s = [a; b] /\ s = a ++ sep ++ b /\
                        str_contains sep a = false.
Proof.
  intros Hsep s. induction s as [| c s IH]; intro H.
  - cbn in H. destruct sep; [congruence | discriminate].
  - cbn [str_contains split_once] in *.
    destruct (String.prefix sep (String c s)) eqn:Hp.
    + exists "", (String.substring (String.length sep)
                   (String.length (String c s) - String.length sep) (String c s)).
      split; [reflexivity |]. split; [apply prefix_rest; exact Hp |].
      destruct sep; [congruence | reflexivity].
    + destruct (IH H) as (a & b & Hsplit & Hs & Ha).
      exists (String c a), b. rewrite Hsplit.
      split; [reflexivity |]. split; [cbn; rewrite Hs; reflexivity |].
      cbn [str_contains].
      destruct (String.prefix sep (String c a)) eqn:Hpa; [| exact Ha].
      apply (prefix_append _ _ (sep ++ b)) in Hpa.
      cbn in Hpa. rewrite <- Hs in Hpa. cbn in Hp. congruence.
Qed.

Lemma split_kv_found (sep line : string) :
  sep <> "" ->
  str_contains sep line = true ->
  exists a b, line = a ++ sep ++ b /\ str_contains sep a = false /\
              split_kv sep line = inr (Some (kv_item (a ++ sep) (py_strip b))).
Proof.
  intros Hsep H.
  destruct (split_once_found sep Hsep line H) as (a & b & Hsplit & Hline & Ha).
  exists a, b. split; [exact Hline |]. split; [exact Ha |].
  unfold split_kv. rewrite Hsplit. reflexivity.
Qed.

(** How a line is read.  A line that is empty once stripped gives no item.
    A line with a full-width colon is cut at the first one, whatever ASCII
    colons come before it; otherwise a line with an ASCII colon is cut at
    the first one.  The label keeps its colon, the value is stripped, and
    label and unstripped value together are the stripped line.  Any other
    line is a text item. *)
Theorem parse_line_cases (line : string) :
  let stripped := py_strip line in
  (stripped = "" -> parse_line line = inr None) /\
  (str_contains "：" stripped = true ->
   exists a b,
     stripped = a ++ "：" ++ b /\ str_contains "：" a = false /\
     parse_line line = inr (Some (kv_item (a ++ "：") (py_strip b)))) /\
  (str_contains "：" stripped = false ->
   str_contains ":" stripped = true ->
   exists a b,
     stripped = a ++ ":" ++ b /\ str_contains ":" a = false /\
     parse_line line = inr (Some (kv_item (a ++ ":") (py_strip b)))) /\
  (stripped <> "" -> str_contains "：" stripped = false ->
   str_contains ":" stripped = false ->
   parse_line line = inr (Some (text_item stripped))).
Proof.
  intro stripped. unfold parse_line. fold stripped.
  split; [intros ->; reflexivity |].
  split; [| split].
  - intro Hfull.
    destruct (String.eqb_spec stripped "") as [Hempty | _];
      [rewrite Hempty in Hfull; discriminate |].
    rewrite Hfull. apply split_kv_found; [discriminate | exact Hfull].
  - intros Hfull Hcolon.
    destruct (String.eqb_spec stripped "") as [Hempty | _];
      [rewrite Hempty in Hcolon; discriminate |].
    rewrite Hfull, Hcolon.
    apply split_kv_found; [discriminate | exact Hcolon].
  - intros Hne Hfull Hcolon. apply String.eqb_neq in Hne.
    rewrite Hne, Hfull, Hcolon. reflexivity.
Qed.

(** *** The whole text *)

(** An item is a key-value pair or a text that is not empty. *)
Definition is_item (item : pydict) : Prop :=
  (exists label value, item = kv_item label value) \/
  (exists text, item = text_item text /\ text <> "").

Lemma parse_line_item (line : string) :
  parse_line line = inr None \/
  exists item, parse_line line = inr (Some item) /\ is_item item.
Proof.
  unfold parse_line.
  destruct (String.eqb_spec (py_strip line) "") as [_ | Hne];
    [left; reflexivity | right].
  destruct (str_contains "：" (py_strip line)) eqn:E1.
  { destruct (split_kv_found "：" (py_strip line)) as (a & b & _ & _ & ->);
      [discriminate | exact E1 |].
    eexists. split; [reflexivity |]. left. eexists. eexists. reflexivity. }
  destruct (str_contains ":" (py_strip line)) eqn:E2.
  { destruct (split_kv_found ":" (py_strip line)) as (a & b & _ & _ & ->);
      [discriminate | exact E2 |].
    eexists. split; [reflexivity |]. left. eexists. eexists. reflexivity. }
  eexists. split; [reflexivity |]. right. eexists. split; [reflexivity | exact Hne].
Qed.

Lemma parse_items_runs (lines : list string) :
  forall acc, exists items,
    parse_items lines acc = inr (acc ++ items)%list /\
    length items <= length lines /\
    Forall is_item items.
Proof.
  induction lines as [| line rest IH]; intro acc.
  - exists []. cbn. rewrite app_nil_r. repeat split; constructor.
  - cbn [parse_items].
    destruct (parse_line_item line) as [-> | (item & -> & Hitem)].
    + destruct (IH acc) as (items & -> & Hlen & Hall).
      exists items. split; [reflexivity |]. split; [cbn; lia | exact Hall].
    + destruct (IH (acc ++ [item])%list) as (items & -> & Hlen & Hall).
      exists (item :: items). rewrite <- app_assoc.
      split; [reflexivity |]. split; [cbn; lia | constructor; assumption].
Qed.

Lemma parse_items_skips (blank : string) (before after : list string) :
  py_strip blank = "" ->
  forall acc,
    parse_items (before ++ blank :: after) acc = parse_items (before ++ after) acc.
Proof.
  intro Hblank. induction before as [| line rest IH]; intro acc.
  - cbn [app parse_items]. unfold parse_line. rewrite Hblank. reflexivity.
  - cbn [app parse_items].
    destruct (parse_line line) as [e | [item |]]; [reflexivity | apply IH..].
Qed.

(** [render] as a whole.  No text makes it fail: the parse always gives a
    title and a list of items.  The title is the first line of the stripped
    text and the lines, joined again, are that text; there are fewer items
    than lines; a line that strips to nothing leaves no trace, wherever it
    stands.  The template is looked up under [game], [media] and [common],
    in this order, and is otherwise taken by its bare name.  A renderer
    made without a data path raises [TypeError] on every call. *)
Theorem render_outcome
    (template_exists : string -> string -> string -> bool)
    (as_uri : string -> string) (resource_path : string)
    (font_regular font_bold : pyval)
    (text : string) (image_url : pyval) (template_name : string)
    (extra_context : option pydict) :
  let lines := split_lines (py_strip text) in
  let call data_path :=
    render data_path template_exists as_uri resource_path font_regular
      font_bold text image_url template_name extra_context in
  (exists items,
     parse_text text = inr (hd "" lines, items) /\
     length items < length lines /\
     Forall is_item items) /\
  String.concat newline lines = py_strip text /\
  str_contains newline (hd "" lines) = false /\
  (forall blank before after acc,
     py_strip blank = "" ->
     parse_items (before ++ blank :: after) acc =
     parse_items (before ++ after) acc) /\
  call None = inl no_data_path /\
  (forall base, exists context,
     call (Some base) =
     inr (if template_exists base "game" template_name
          then "game/" ++ template_name
          else if template_exists base "media" template_name
          then "media/" ++ template_name
          else if template_exists base "common" template_name
          then "common/" ++ template_name
          else template_name,
          context)).
Proof.
  intros lines call.
  assert (Hsome : lines <> []) by apply split_char_some.
  assert (Hsingle : Forall (fun line => str_contains newline line = false) lines)
    by apply split_char_pieces.
  assert (Hparse : exists items,
             parse_text text = inr (hd "" lines, items) /\
             length items < length lines /\ Forall is_item items).
  { unfold parse_text. fold lines.
    destruct lines as [| title rest]; [congruence |].
    destruct (parse_items_runs rest []) as (items & Hrun & Hlen & Hall).
    cbn [tl hd app] in *. rewrite Hrun.
    exists items. split; [reflexivity |]. split; [cbn; lia | exact Hall]. }
  split; [exact Hparse |].
  split; [apply (split_char_join "010") |].
  split.
  { destruct lines as [| title rest]; [congruence |].
    inversion Hsingle; assumption. }
  split; [intros blank before after acc Hblank; apply parse_items_skips; exact Hblank |].
  destruct Hparse as (items & Hparse & _).
  split.
  - unfold call, render. rewrite Hparse. reflexivity.
  - intro base. unfold call, render. rewrite Hparse.
    cbn [subdirs find_template].
    destruct (template_exists base "game" template_name);
      [eexists; reflexivity |].
    destruct (template_exists base "media" template_name);
      [eexists; reflexivity |].
    destruct (template_exists base "common" template_name);
      [eexists; reflexivity |].
    destruct (template_exists base "." template_name); eexists; reflexivity.
Qed.

(** *** The template context *)

Lemma dict_get_set (d : pydict) (k k' : string) (v : pyval) :
  dict_get (dict_set d k v) k' =
  if String.eqb k k' then Some v else dict_get d k'.
Proof.
  destruct (String.eqb_spec k k') as [<- | Hne].
  - apply dict_get_set_same.
  - apply dict_get_set_other. exact Hne.
Qed.

Lemma dict_get_update (extra : pydict) :
  NoDup (map fst extra) ->
  forall d k,
    dict_get (dict_update d extra) k =
    match dict_get extra k with Some v => Some v | None => dict_get d k end.
Proof.
  unfold dict_update.
  induction extra as [| [k' v'] extra IH]; intros Hnodup d k; [reflexivity |].
  cbn [map fst] in Hnodup. inversion Hnodup as [| ? ? Hnotin Hrest]; subst.
  cbn [fold_left fst snd dict_get].
  rewrite (IH Hrest), dict_get_set.
  destruct (String.eqb_spec k' k) as [<- | Hne]; [| reflexivity].
  assert (Hnone : dict_get extra k' = None).
  { clear -Hnotin. induction extra as [| [k1 v1] extra IH]; [reflexivity |].
    cbn [dict_get]. cbn [map fst In] in Hnotin.
    destruct (String.eqb_spec k1 k') as [-> | _];
      [exfalso; apply Hnotin; left; reflexivity |].
    apply IH. intro H. apply Hnotin. right. exact H. }
  rewrite Hnone. reflexivity.
Qed.

(** The entries of [extra_context] win over the renderer's own: a key of
    the extra context, ["title"], ["items"] and ["poster_url"] included,
    has the extra context's value in the template context; every other key
    has the renderer's. *)
Theorem extra_context_overrides (title : string) (items : list pydict)
    (image_url : pyval) (resource_path custom_uri : string)
    (font_regular font_bold : pyval) (extra : pydict) (k : string) :
  NoDup (map fst extra) ->
  let own := render_context title items image_url resource_path custom_uri
               font_regular font_bold None in
  let context := render_context title items image_url resource_path custom_uri
                   font_regular font_bold (Some extra) in
  dict_get context k =
    match dict_get extra k with Some v => Some v | None => dict_get own k end /\
  dict_get own "title" = Some (PStr title) /\
  dict_get own "items" = Some (PList (map PDict items)) /\
  dict_get own "poster_url" = Some (py_or image_url (PStr "")).
Proof.
  intros Hnodup own context.
  split; [| repeat split].
  unfold context, render_context.
  destruct extra as [| kv more]; [reflexivity |].
  apply dict_get_update. exact Hnodup.
Qed.

End WithPython.

End HtmlRenderer.

(** ** The browser ([utils/browser.py])

    [BrowserManager] keeps the Playwright driver and the Chromium browser in
    two class attributes.  [init] holds a lock from its first statement to
    its last, so two calls never overlap: a call is one step. *)

Module BrowserManager.

Inductive action : Type :=
| StartDriver                    (* async_playwright().start() *)
| LaunchBrowser                  (* chromium.launch(...) *)
| CloseBrowser                   (* browser.close() *)
| StopDriver                     (* playwright.stop() *)
| L_starting_driver              (* info *)
| L_starting_browser             (* info *)
| L_browser_started              (* info *)
| L_browser_failed (e : exn).    (* error *)

Section WithDriver.

Variable W : Type.

(** The driver and the browser objects. *)
Variable driver browser : Type.

Variable start : W -> (exn + driver) * W.
Variable launch : driver -> W -> (exn + browser) * W.
Variable close_browser : browser -> W -> option exn * W.
Variable stop : driver -> W -> option exn * W.

(** The class attributes [_playwright] and [_browser]. *)
Record manager : Type := mkManager {
  _playwright : option driver;
  _browser : option browser
}.

Record outcome (A : Type) : Type := mkOutcome {
  result : exn + A;
  after : manager;
  world_after : W;
  trace : list action
}.

Arguments mkOutcome {A}.
Arguments result {A}.
Arguments after {A}.
Arguments world_after {A}.
Arguments trace {A}.

(** The second [if] of [init], with the driver [d] in place. *)
Definition init_browser (m : manager) (d : driver) (w : W)
    (so_far : list action) : outcome unit :=
  match _browser m with
  | Some _ => mkOutcome (inr tt) m w so_far
  | None =>
      match launch d w with
      | (inl e, w1) =>
          mkOutcome (inl e) m w1
            (so_far ++ [L_starting_browser; LaunchBrowser; L_browser_failed e])
      | (inr b, w1) =>
          mkOutcome (inr tt) (mkManager (_playwright m) (Some b)) w1
            (so_far ++ [L_starting_browser; LaunchBrowser; L_browser_started])
      end
  end.

(** [BrowserManager.init] *)
Definition init (m : manager) (w : W) : outcome unit :=
  match _playwright m with
  | Some d => init_browser m d w []
  | None =>
      match start w with
      | (inl e, w1) => mkOutcome (inl e) m w1 [L_starting_driver; StartDriver]
      | (inr d, w1) =>
          init_browser (mkManager (Some d) (_browser m)) d w1
            [L_starting_driver; StartDriver]
      end
  end.

(** [BrowserManager.get_browser] *)
Definition get_browser (m : manager) (w : W) : outcome (option browser) :=
  match _browser m with
  | Some b => mkOutcome (inr (Some b)) m w []
  | None =>
      let r := init m w in
      match result r with
      | inl e => mkOutcome (inl e) (after r) (world_after r) (trace r)
      | inr _ =>
          mkOutcome (inr (_browser (after r))) (after r) (world_after r) (trace r)
      end
  end.

(** The second [if] of [close]. *)
Definition close_driver (m : manager) (w : W) (so_far : list action)
  : outcome unit :=
  match _playwright m with
  | None => mkOutcome (inr tt) m w so_far
  | Some d =>
      match stop d w with
      | (Some e, w1) => mkOutcome (inl e) m w1 (so_far ++ [StopDriver])
      | (None, w1) =>
          mkOutcome (inr tt) (mkManager None (_browser m)) w1
            (so_far ++ [StopDriver])
      end
  end.

(** [BrowserManager.close] *)
Definition close (m : manager) (w : W) : outcome unit :=
  match _browser m with
  | None => close_driver m w []
  | Some b =>
      match close_browser b w with
      | (Some e, w1) => mkOutcome (inl e) m w1 [CloseBrowser]
      | (None, w1) =>
          close_driver (mkManager (_playwright m) None) w1 [CloseBrowser]
      end
  end.

Definition is_set {A} (o : option A) : Prop := o <> None.

(** After an [init] that returns, driver and browser are both in place,
    and what was in place before is kept. *)
Lemma init_sets (m : manager) (w : W) :
  result (init m w) = inr tt ->
  is_set (_playwright (after (init m w))) /\ is_set (_browser (after (init m w))).
Proof.
  unfold init, init_browser, is_set.
  destruct m as [[d |] [b |]]; cbn [_playwright _browser].
  - intros _. split; discriminate.
  - destruct (launch d w) as [[e | b] w1]; cbn; [discriminate |].
    intros _. split; discriminate.
  - destruct (start w) as [[e | d] w1]; cbn; [discriminate |].
    intros _. split; discriminate.
  - destruct (start w) as [[e | d] w1]; cbn; [discriminate |].
    destruct (launch d w1) as [[e | b] w2]; cbn; [discriminate |].
    intros _. split; discriminate.
Qed.

(** The life cycle of the browser.  An [init] that returns leaves driver
    and browser in place, and a further [init] or [get_browser] then does
    nothing at all.  [init] never replaces a driver or a browser that is in
    place.  When the launch fails the exception is passed on after one
    error log line, the browser stays unset and the driver stays started;
    the next [init] launches again without starting a second driver.
    [close], when browser and driver shut down, unsets both, and stops
    with the browser still set when [browser.close()] raises. *)
Theorem browser_life_cycle (m : manager) (w : W) :
  let r := init m w in
  (result r = inr tt ->
   is_set (_playwright (after r)) /\ is_set (_browser (after r)) /\
   forall w',
     init (after r) w' = mkOutcome (inr tt) (after r) w' [] /\
     get_browser (after r) w' =
       mkOutcome (inr (_browser (after r))) (after r) w' []) /\
  (forall d, _playwright m = Some d ->
             _playwright (after r) = Some d /\ ~ In StartDriver (trace r)) /\
  (forall b, _browser m = Some b ->
             _browser (after r) = Some b /\ ~ In LaunchBrowser (trace r)) /\
  (forall e, result r = inl e ->
             _browser (after r) = _browser m /\
             (In LaunchBrowser (trace r) ->
              is_set (_playwright (after r)) /\
              In (L_browser_failed e) (trace r) /\
              forall w', ~ In StartDriver (trace (init (after r) w')))) /\
  (forall b d w',
     _browser m = Some b -> _playwright m = Some d ->
     (fst (close_browser b w') = None ->
      fst (stop d (snd (close_browser b w'))) = None ->
      result (close m w') = inr tt /\
      after (close m w') = mkManager None None /\
      trace (close m w') = [CloseBrowser; StopDriver]) /\
     (forall e, fst (close_browser b w') = Some e ->
                result (close m w') = inl e /\ after (close m w') = m /\
                trace (close m w') = [CloseBrowser])).
Proof.
  intro r. split; [| split; [| split; [| split]]].
  - intro Hok. destruct (init_sets m w Hok) as [Hd Hb]. fold r in Hd, Hb.
    split; [exact Hd |]. split; [exact Hb |].
    intro w'. unfold is_set in *.
    destruct (after r) as [[d |] [b |]]; cbn [_playwright _browser] in *;
      try congruence.
    split; reflexivity.
  - intros d Hd. unfold r, init, init_browser.
    destruct m as [pw [b |]]; cbn [_playwright _browser] in *; subst pw.
    + split; [reflexivity | intros []].
    + destruct (launch d w) as [[e | b] w1]; cbn;
        (split; [reflexivity | intros [H | [H | [H | []]]]; discriminate H]).
  - intros b Hb. unfold r, init, init_browser.
    destruct m as [[d |] br]; cbn [_playwright _browser] in *; subst br.
    + split; [reflexivity | intros []].
    + destruct (start w) as [[e | d] w1]; cbn;
        (split; [reflexivity | intros [H | [H | []]]; discriminate H]).
  - intros e. unfold r, init, init_browser.
    destruct m as [[d |] [b |]]; cbn [_playwright _browser].
    + discriminate.
    + destruct (launch d w) as [[e' | b] w1]; cbn; [| discriminate].
      intro H. injection H as ->. split; [reflexivity |]. intros _.
      split; [discriminate |].
      split; [right; right; left; reflexivity |].
      intro w'. destruct (launch d w') as [[e'' | b] w2]; cbn;
        intros [H | [H | [H | []]]]; discriminate H.
    + destruct (start w) as [[e' | d] w1]; cbn; [| discriminate].
      intro H. injection H as ->. split; [reflexivity |].
      intros [H | [H | []]]; discriminate H.
    + destruct (start w) as [[e' | d] w1]; cbn.
      * intro H. injection H as ->. split; [reflexivity |].
        intros [H | [H | []]]; discriminate H.
      * destruct (launch d w1) as [[e' | b] w2]; cbn; [| discriminate].
        intro H. injection H as ->. split; [reflexivity |]. intros _.
        split; [discriminate |].
        split; [do 4 right; left; reflexivity |].
        intro w'. destruct (launch d w') as [[e'' | b] w3]; cbn;
          intros [H | [H | [H | []]]]; discriminate H.
  - intros b d w' Hb Hd. unfold close, close_driver. rewrite Hb.
    destruct (close_browser b w') as [[e |] w1]; cbn [fst snd].
    + split; [discriminate |].
      intros e' H. injection H as ->. repeat split.
    + split; [| discriminate].
      intros _. cbn [_playwright]. rewrite Hd.
      destruct (stop d w1) as [[e |] w2]; cbn [fst]; [discriminate |].
      intros _. repeat split.
Qed.

End WithDriver.

End BrowserManager.

(** ** Bangumi enrichment ([media/enrichment/bgm_provider.py])

    [enrich_media_data] changes the dict it is given, in place, and returns
    it; an exception leaves the changes made so far.  The model gives the
    dict as it is when the call ends, the exception if one was raised, and
    the names that were searched. *)

Module BGMProvider.

Section WithSearch.

(** [BGMProvider._search_subject], cache and HTTP request included. *)
Variable _search_subject : pyval -> exn + option pydict.

Record enriched : Type := mkEnriched {
  raised : option exn;
  media : pydict;
  searched : list pyval
}.

(** [d.get(k)] *)
Definition get (d : pydict) (k : string) : pyval := dict_get_default d k PNone.

(** [subject.get("images", {})] and the two [.get] on it. *)
Definition subject_image (subject : pydict) : exn + pyval :=
  match dict_get_default subject "images" (PDict []) with
  | PDict images => inr (py_or (get images "large") (get images "common"))
  | _ => inl (Raised "AttributeError: object has no attribute 'get'")
  end.

(** [BGMProvider.enrich_media_data] *)
Definition enrich_media_data (media_data : pydict) : enriched :=
  if py_truthy (get media_data "tmdb_enriched")
     && py_truthy (get media_data "overview")
     && py_eq_str (get media_data "item_type") "Movie"
  then mkEnriched None media_data []
  else
    let name := py_or (get media_data "series_name") (get media_data "item_name") in
    if negb (py_truthy name) then mkEnriched None media_data []
    else
      match _search_subject name with
      | inl e => mkEnriched (Some e) media_data [name]
      | inr (Some (field :: fields)) =>
          let subject := field :: fields in
          let updated :=
            dict_set
              (dict_set
                 (dict_set media_data "bgm_id" (get subject "id"))
                 "bgm_enriched" (PBool true))
              "overview"
              (py_or (get subject "summary") (get media_data "overview")) in
          if py_truthy (get updated "image_url")
          then mkEnriched None updated [name]
          else
            match subject_image subject with
            | inl e => mkEnriched (Some e) updated [name]
            | inr image =>
                mkEnriched None (dict_set updated "image_url" image) [name]
            end
      | inr _ => mkEnriched None media_data [name]
      end.

(** [BGMProvider.get_image] *)
Definition get_image (media_data : pydict) : exn + pyval :=
  let name := py_or (get media_data "series_name") (get media_data "item_name") in
  if negb (py_truthy name) then inr (PStr "")
  else
    match _search_subject name with
    | inl e => inl e
    | inr (Some (field :: fields)) =>
        match dict_get_default (field :: fields) "images" (PDict []) with
        | PDict images =>
            inr (py_or (py_or (get images "large") (get images "common"))
                   (PStr ""))
        | _ => inl (Raised "AttributeError: object has no attribute 'get'")
        end
    | inr _ => inr (PStr "")
    end.

Lemma get_set (d : pydict) (k k' : string) (v : pyval) :
  get (dict_set d k v) k' = if String.eqb k k' then v else get d k'.
Proof.
  unfold get, dict_get_default.
  destruct (String.eqb_spec k k') as [<- | Hne].
  - rewrite dict_get_set_same. reflexivity.
  - rewrite dict_get_set_other by exact Hne. reflexivity.
Qed.

(** What the Bangumi enrichment may change.  It only ever writes the keys
    [bgm_id], [bgm_enriched], [overview] and [image_url]; an image that the
    record already has is kept; an overview is replaced by the subject's
    summary whenever that is not empty.  At most one name is searched, and
    none for a movie that TMDB has enriched with an overview or for a
    record without a name.  When the subject's ["images"] is not a dict
    (JSON [null], say) the call raises with [bgm_enriched] already set.
    [get_image] gives an image or the empty string, never [None]. *)
Theorem enrichment_outcome (media_data : pydict) :
  let r := enrich_media_data media_data in
  (forall k,
     k <> "bgm_id" -> k <> "bgm_enriched" -> k <> "overview" ->
     k <> "image_url" ->
     dict_get (media r) k = dict_get media_data k) /\
  (py_truthy (get media_data "image_url") = true ->
   get (media r) "image_url" = get media_data "image_url") /\
  length (searched r) <= 1 /\
  (py_truthy (get media_data "tmdb_enriched") = true ->
   py_truthy (get media_data "overview") = true ->
   get media_data "item_type" = PStr "Movie" ->
   r = mkEnriched None media_data []) /\
  (py_truthy (get media_data "series_name") = false ->
   py_truthy (get media_data "item_name") = false ->
   r = mkEnriched None media_data []) /\
  (forall subject,
     searched r <> [] ->
     _search_subject
       (py_or (get media_data "series_name") (get media_data "item_name"))
       = inr (Some subject) ->
     subject <> [] ->
     get (media r) "bgm_enriched" = PBool true /\
     get (media r) "bgm_id" = get subject "id" /\
     get (media r) "overview" =
       py_or (get subject "summary") (get media_data "overview") /\
     (py_truthy (get media_data "image_url") = false ->
      (forall images,
         dict_get_default subject "images" (PDict []) = PDict images ->
         raised r = None /\
         get (media r) "image_url" =
           py_or (get images "large") (get images "common")) /\
      ((forall images,
          dict_get_default subject "images" (PDict []) <> PDict images) ->
       raised r <> None))) /\
  (forall image,
     get_image media_data = inr image ->
     image = PStr "" \/ py_truthy image = true).
Proof.
  intro r.
  assert (Himg : forall image,
            get_image media_data = inr image ->
            image = PStr "" \/ py_truthy image = true).
  { intro image. unfold get_image.
    destruct (negb (py_truthy _)); [intro H; injection H as <-; left; reflexivity |].
    destruct (_search_subject _) as [e | [[| field fields] |]];
      try discriminate;
      try (intro H; injection H as <-; left; reflexivity).
    destruct (dict_get_default (field :: fields) "images" (PDict []));
      try discriminate.
    intro H. injection H as <-.
    set (found := py_or (get _ "large") (get _ "common")).
    unfold py_or.
    destruct (py_truthy found) eqn:E; [right; exact E | left; reflexivity]. }
  unfold r, enrich_media_data.
  set (name := py_or (get media_data "series_name") (get media_data "item_name")).
  set (skip := py_truthy (get media_data "tmdb_enriched")
               && py_truthy (get media_data "overview")
               && py_eq_str (get media_data "item_type") "Movie").
  assert (Hframe : forall subject k,
            k <> "bgm_id" -> k <> "bgm_enriched" -> k <> "overview" ->
            dict_get
              (dict_set
                 (dict_set
                    (dict_set media_data "bgm_id" (get subject "id"))
                    "bgm_enriched" (PBool true))
                 "overview"
                 (py_or (get subject "summary") (get media_data "overview"))) k
            = dict_get media_data k).
  { intros subject k H1 H2 H3.
    rewrite !dict_get_set_other by congruence. reflexivity. }
  assert (Himage : forall subject,
            get
              (dict_set
                 (dict_set
                    (dict_set media_data "bgm_id" (get subject "id"))
                    "bgm_enriched" (PBool true))
                 "overview"
                 (py_or (get subject "summary") (get media_data "overview")))
              "image_url"
            = get media_data "image_url").
  { intro subject. unfold get at 1 4, dict_get_default.
    rewrite Hframe by discriminate. reflexivity. }
  split; [| split; [| split; [| split; [| split; [| split; [| exact Himg]]]]]].
  - intros k H1 H2 H3 H4.
    destruct skip; [reflexivity |].
    destruct (py_truthy name); cbn [negb]; [| reflexivity].
    destruct (_search_subject name) as [e | [[| field fields] |]];
      try reflexivity.
    cbv zeta. rewrite Himage.
    destruct (py_truthy (get media_data "image_url")); cbn [media];
      [apply Hframe; assumption |].
    destruct (subject_image (field :: fields)); cbn [media];
      [apply Hframe; assumption |].
    rewrite dict_get_set_other by congruence. apply Hframe; assumption.
  - intro Hhas.
    destruct skip; [reflexivity |].
    destruct (py_truthy name); cbn [negb]; [| reflexivity].
    destruct (_search_subject name) as [e | [[| field fields] |]];
      try reflexivity.
    cbv zeta. rewrite Himage, Hhas. cbn [media]. apply Himage.
  - destruct skip; [apply Nat.le_0_l |].
    destruct (py_truthy name); cbn [negb]; [| apply Nat.le_0_l].
    destruct (_search_subject name) as [e | [[| field fields] |]];
      try apply le_n.
    cbv zeta.
    destruct (py_truthy _); [apply le_n |].
    destruct (subject_image _); apply le_n.
  - intros H1 H2 H3. unfold skip. rewrite H1, H2, H3. reflexivity.
  - intros H1 H2.
    assert (Hname : py_truthy name = false).
    { unfold name, py_or. rewrite H1. exact H2. }
    rewrite Hname. destruct skip; reflexivity.
  - intros subject Hsearched Hfound Hsome.
    destruct skip; [destruct (Hsearched eq_refl) |].
    destruct (py_truthy name); cbn [negb] in *; [| destruct (Hsearched eq_refl)].
    rewrite Hfound in *.
    destruct subject as [| field fields]; [congruence |].
    cbv zeta in *. rewrite Himage in *.
    set (updated := dict_set _ "overview" _) in *.
    assert (Hflag : get updated "bgm_enriched" = PBool true).
    { unfold updated. rewrite get_set. cbn. rewrite get_set. reflexivity. }
    assert (Hid : get updated "bgm_id" = get (field :: fields) "id").
    { unfold updated. rewrite !get_set. reflexivity. }
    assert (Hoverview : get updated "overview" =
                        py_or (get (field :: fields) "summary")
                              (get media_data "overview")).
    { unfold updated. rewrite get_set. reflexivity. }
    destruct (py_truthy (get media_data "image_url")) eqn:Hhas; cbn [media raised].
    + split; [exact Hflag |]. split; [exact Hid |]. split; [exact Hoverview |].
      discriminate.
    + unfold subject_image.
      destruct (dict_get_default (field :: fields) "images" (PDict []))
        as [| b | z | f | s | l | images] eqn:Himages; cbn [media raised];
        (split; [try exact Hflag | split; [try exact Hid | split; [try exact Hoverview |]]]);
        try (rewrite get_set; cbn; first [exact Hflag | exact Hid | exact Hoverview]);
        intros _;
        (split; [intros images' Heq; try discriminate Heq
                | intro Hnot; try discriminate]).
      * injection Heq as <-. split; [reflexivity |]. rewrite get_set. reflexivity.
      * destruct (Hnot images eq_refl).
Qed.

End WithSearch.

End BGMProvider.

(** ** Picking a TMDB search result ([media/enrichment/tmdb_provider.py])

    The two [re.sub], [lower()] and [strip()] of [_clean_title] are Python's
    and are taken together, as [clean]. *)

Module TMDBProvider.

Section WithRegex.

Variable clean : string -> string.

(** [TMDBProvider._clean_title]; [re.sub] raises on a title that is
    neither falsy nor a string. *)
Definition _clean_title (title : pyval) : exn + string :=
  if negb (py_truthy title) then inr ""
  else match title with
       | PStr s => inr (clean s)
       | _ => inl (Raised "TypeError: expected string or bytes-like object")
       end.

(** [a == b or a in b or b in a] *)
Definition alike (a b : string) : bool :=
  String.eqb a b || str_contains a b || str_contains b a.

(** The [for] loop of [_find_best_match]; [None] when it runs to its end. *)
Fixpoint first_alike (query_clean key : string) (results : list pydict)
  : exn + option pydict :=
  match results with
  | [] => inr None
  | res :: rest =>
      match _clean_title (dict_get_default res key (PStr "")) with
      | inl e => inl e
      | inr res_clean =>
          if alike query_clean res_clean then inr (Some res)
          else
            match _clean_title
                    (dict_get_default res ("original_" ++ key) (PStr "")) with
            | inl e => inl e
            | inr orig_clean =>
                if negb (String.eqb orig_clean "") && alike query_clean orig_clean
                then inr (Some res)
                else first_alike query_clean key rest
            end
      end
  end.

(** [TMDBProvider._find_best_match] *)
Definition _find_best_match (query : pyval) (results : list pydict)
    (key : string) : exn + option pydict :=
  match results with
  | [] => inr None
  | first :: _ =>
      match _clean_title query with
      | inl e => inl e
      | inr query_clean =>
          match first_alike query_clean key results with
          | inl e => inl e
          | inr (Some res) => inr (Some res)
          | inr None => inr (Some first)
          end
      end
  end.

Lemma contains_empty (s : string) : str_contains "" s = true.
Proof. destruct s; reflexivity. Qed.

Lemma alike_empty_l (s : string) : alike "" s = true.
Proof. unfold alike. rewrite contains_empty, orb_true_r. reflexivity. Qed.

Lemma alike_empty_r (s : string) : alike s "" = true.
Proof. unfold alike. rewrite contains_empty. apply orb_true_r. Qed.

(** A result of the loop is one of the results, and is alike the query by
    its title or by its original title. *)
Lemma first_alike_found (q key : string) (results : list pydict) (res : pydict) :
  first_alike q key results = inr (Some res) ->
  In res results /\
  exists title,
    alike q title = true /\
    (_clean_title (dict_get_default res key (PStr "")) = inr title \/
     _clean_title (dict_get_default res ("original_" ++ key) (PStr "")) = inr title
     /\ title <> "").
Proof.
  induction results as [| r rest IH]; [discriminate |].
  cbn [first_alike].
  destruct (_clean_title (dict_get_default r key (PStr "")))
    as [e | res_clean] eqn:Ht; [discriminate |].
  destruct (alike q res_clean) eqn:Ha.
  { intro H. injection H as <-. split; [left; reflexivity |].
    exists res_clean. split; [exact Ha | left; exact Ht]. }
  destruct (_clean_title (dict_get_default r ("original_" ++ key) (PStr "")))
    as [e | orig_clean] eqn:Ho; [discriminate |].
  destruct (negb (String.eqb orig_clean "") && alike q orig_clean) eqn:Hb.
  { intro H. injection H as <-. split; [left; reflexivity |].
    apply andb_true_iff in Hb. destruct Hb as [Hne Hb].
    apply negb_true_iff, String.eqb_neq in Hne.
    exists orig_clean. split; [exact Hb | right; split; assumption]. }
  intro H. destruct (IH H) as [Hin Htitle].
  split; [right; exact Hin | exact Htitle].
Qed.

(** The result that is picked.  With no results there is none; otherwise,
    unless a title makes [re.sub] raise, one of the results is picked,
    never [None].  The one picked is alike the query by its cleaned title
    or original title, or else it is simply the first result: a query that
    nothing resembles still gets the first result.  A query that cleans to
    nothing, and a first result without a title, both pick the first
    result. *)
Theorem best_match_outcome (query : pyval) (results : list pydict) (key : string) :
  (results = [] -> _find_best_match query results key = inr None) /\
  (results <> [] -> _find_best_match query results key <> inr None) /\
  (forall res query_clean,
     _find_best_match query results key = inr (Some res) ->
     _clean_title query = inr query_clean ->
     In res results /\
     (res = hd [] results \/
      exists title,
        alike query_clean title = true /\
        (_clean_title (dict_get_default res key (PStr "")) = inr title \/
         _clean_title (dict_get_default res ("original_" ++ key) (PStr ""))
           = inr title /\ title <> ""))) /\
  (forall first rest title,
     results = first :: rest ->
     _clean_title query = inr "" ->
     _clean_title (dict_get_default first key (PStr "")) = inr title ->
     _find_best_match query results key = inr (Some first)) /\
  (forall first rest query_clean,
     results = first :: rest ->
     _clean_title query = inr query_clean ->
     py_truthy (dict_get_default first key (PStr "")) = false ->
     _find_best_match query results key = inr (Some first)).
Proof.
  split; [intros ->; reflexivity |].
  split; [| split; [| split]].
  - intro Hne. destruct results as [| first rest]; [congruence |].
    unfold _find_best_match.
    destruct (_clean_title query) as [e | q]; [discriminate |].
    destruct (first_alike q key (first :: rest)) as [e | [res |]]; discriminate.
  - intros res query_clean Hres Hq.
    destruct results as [| first rest]; [discriminate |].
    unfold _find_best_match in Hres. rewrite Hq in Hres.
    destruct (first_alike query_clean key (first :: rest))
      as [e | [found |]] eqn:Hscan; [discriminate | |].
    + injection Hres as ->.
      destruct (first_alike_found _ _ _ _ Hscan) as [Hin Htitle].
      split; [exact Hin | right; exact Htitle].
    + injection Hres as <-. split; [left; reflexivity | left; reflexivity].
  - intros first rest title -> Hq Htitle.
    unfold _find_best_match. rewrite Hq. cbn [first_alike].
    rewrite Htitle, alike_empty_l. reflexivity.
  - intros first rest query_clean -> Hq Hfalsy.
    unfold _find_best_match. rewrite Hq. cbn [first_alike].
    unfold _clean_title at 1. rewrite Hfalsy. cbn [negb].
    rewrite alike_empty_r. reflexivity.
Qed.

End WithRegex.

End TMDBProvider.

(** *** Scenarios for the helpers *)

(** [s.strip()] on ASCII blanks, for the scenarios. *)
Definition is_blank (c : ascii) : bool :=
  existsb (Ascii.eqb c) [" "%char; "009"%char; "010"%char; "013"%char].

Fixpoint strip_left (s : string) : string :=
  match s with
  | String c s' => if is_blank c then strip_left s' else s
  | EmptyString => EmptyString
  end.

Fixpoint strip_right (s : string) : string :=
  match s with
  | EmptyString => EmptyString
  | String c s' =>
      match strip_right s' with
      | EmptyString => if is_blank c then EmptyString else String c EmptyString
      | kept => String c kept
      end
  end.

Definition ascii_strip (s : string) : string := strip_right (strip_left s).

(** A line with both colons is cut at the full-width one. *)
Example fullwidth_colon_cuts_first :
  HtmlRenderer.parse_line ascii_strip "时间: 12：30"
  = inr (Some (HtmlRenderer.kv_item "时间: 12：" "30")).
Proof. reflexivity. Qed.

(** An empty line in front of a detail does not keep the detail from being
    read as a key and a value. *)
Example detail_after_empty_line :
  HtmlRenderer.parse_text ascii_strip
    (String.concat HtmlRenderer.newline
       ["Alas"; "事件: 通知"; ""; "Error: disk full"])
  = inr ("Alas",
         [HtmlRenderer.kv_item "事件:" "通知";
          HtmlRenderer.kv_item "Error:" "disk full"]).
Proof. reflexivity. Qed.

Lemma extra_context_overrides_witness :
  dict_get
    (HtmlRenderer.render_context "Alas" [] PNone "file:///res" "file:///data"
       PNone PNone (Some [("title", PStr "from the message")]))
    "title"
  = Some (PStr "from the message").
Proof.
  apply (HtmlRenderer.extra_context_overrides "Alas" [] PNone "file:///res"
           "file:///data" PNone PNone [("title", PStr "from the message")]
           "title").
  constructor; [intros [] | constructor].
Defined.

(** A string of routes is stripped piece by piece; a list is not. *)
Example routes_from_string :
  _parse_routes ascii_strip (PStr " /media , ,/emby") = ["/media"; "/emby"].
Proof. reflexivity. Qed.

Example routes_from_list :
  _parse_routes ascii_strip (PList [PStr " /media "; PInt 1; PStr " "])
  = [" /media "].
Proof. reflexivity. Qed.

(** A subject whose ["images"] is [null]: the enrichment raises, and the
    record is already marked as enriched. *)
Example subject_without_images :
  BGMProvider.enrich_media_data
    (fun _ => inr (Some [("id", PInt 1); ("images", PNone)]))
    [("series_name", PStr "Frieren")]
  = BGMProvider.mkEnriched
      (Some (Raised "AttributeError: object has no attribute 'get'"))
      [("series_name", PStr "Frieren"); ("bgm_id", PInt 1);
       ("bgm_enriched", PBool true); ("overview", PNone)]
      [PStr "Frieren"].
Proof. reflexivity. Qed.

(** A query that no result resembles gets the first result. *)
Example unlike_query_gets_first :
  TMDBProvider._find_best_match lower (PStr "Frieren")
    [[("name", PStr "Naruto")]; [("name", PStr "Bleach")]] "name"
  = inr (Some [("name", PStr "Naruto")]).
Proof. reflexivity. Qed.
